(** * retropanel: the hand-tracked arcade panel

    A shallow embedding of the three interaction systems of the panel, of
    the system that feeds the emulator, and of the scene look-up that wires
    them:

    - [ButtonSystem]      (systems/button/ButtonSystem.ts): depth-based press
      detection with recovery and an edge-triggered action;
    - [StickGrabSystem]   (systems/analogStick/StickGrabSystem.ts): which hand
      owns which stick, attach on a select edge, detach on release;
    - [AnalogStickSystem] (systems/analogStick/AnalogStickSystem.ts): the
      normalised axis of a grabbed stick and its return to rest;
    - [NESSystem]         (systems/nes/NESSystem.ts): the read-out of the
      buttons and of the stick as a d-pad, the calls made on the emulator,
      the audio buffer, the conversion of a frame buffer into an image, the
      curve of the screen, and the discovery of the button and stick
      entities;
    - [Index]             (index.ts): [findMeshByName].

    Numbers.  The source computes in IEEE doubles and stores component fields
    as Float32.  The button code only adds, subtracts, compares and takes
    maxima, so it is embedded over the rationals [Q] and every definition
    runs; so are the audio samples, which are only copied.  The stick code
    and the curve of the screen take square roots, so they are embedded over
    the reals [R].  Rounding is not modelled in either; the frame pacing of
    [NESSystem.update], where the rounding of a double division decides how
    many frames are run, is for that reason not part of the embedding.  The
    pixels of a frame are integers, embedded over [Z] with the 32-bit
    conversion of the bit operators written out.

    Libraries.  Scene-graph queries of three.js ([Box3.containsPoint],
    [worldToLocal], [getWorldPosition]) enter the model as per-frame inputs,
    and a mesh is represented by the coordinates the systems read and
    write.  The emulator (jsnes) is represented by the calls made on it. *)

From Stdlib Require Import QArith Qminmax Reals Psatz List Bool.
From stdpp Require Import gmap strings.
Import ListNotations.

(* ===================================================================== *)
(** * ButtonSystem *)
(* ===================================================================== *)

Module ButtonSystem.
Local Open Scope Q_scope.

(** [export type ButtonState] *)
Inductive ButtonState : Set :=
| resting
| pressed
| fully_pressed
| recovering.

#[global] Instance ButtonState_eq_dec : EqDecision ButtonState.
Proof. solve_decision. Defined.

(** The [Button] component.  [restingY] defaults to [-1], which the code
    reads as "not initialised yet". *)
Record Button : Set := mkButton {
  currState : ButtonState;
  prevState : ButtonState;
  restingY : Q;
  surfaceY : Q;
  recoverySpeed : Q;
  fullPressDistance : Q;
  actionTriggered : bool
}.

Definition defaultButton : Button :=
  {| currState := resting; prevState := resting;
     restingY := -(1); surfaceY := 5 # 100; recoverySpeed := 4 # 10;
     fullPressDistance := 2 # 100; actionTriggered := false |}.

(** What the system reads from and writes to [entity.object3D]:
    [position.y], and [geometry.boundingBox.max.y] when the object is a mesh
    with a geometry whose bounding box exists. *)
Record Object3D : Set := mkObject3D {
  position_y : Q;
  geometryTopY : option Q
}.

Record Entity : Set := mkEntity {
  index : nat;
  object3D : option Object3D;
  button : Button
}.

(** For one resolved pointer position and one button: the result of
    [this.box3.containsPoint(pointerPosition)] on the expanded box, and the
    y coordinate of [buttonMesh.worldToLocal(pointerPosition)]. *)
Record Contact : Set := mkContact {
  isInside : bool;
  localPos_y : Q
}.

(** One [XRHandVisualAdapter].  [pointerPosition] is [None] when joint 17 is
    missing or none of the four look-ups yields a position
    ([positionFound] stays false); otherwise it gives, per entity index, the
    contact of that position with the entity's button. *)
Record Hand : Type := mkHand {
  pointerPosition : option (nat -> Contact)
}.

(** What one call of [update(delta)] finds in the world. *)
Record Frame : Type := mkFrame {
  xrInput : bool;                      (* this.xrInput or world.xrInput is set *)
  xrSession : bool;                    (* renderer.xr.getSession() is non-null *)
  handAdapters : option (list Hand);   (* visualAdapters.hand, instances only  *)
  delta : Q
}.

Definition Qltb (a b : Q) : bool := negb (Qle_bool b a).

(** [-0.0016], the literal of the tolerance test. *)
Definition tolerance : Q := 16 # 10000.

(** Lines 223-235: the surface used for this frame's contacts. *)
Definition buttonSurfaceY (b : Button) (m : Object3D) : Q :=
  match geometryTopY m with
  | Some geometryTop =>
      if Qltb 0 geometryTop && Qltb geometryTop 1 then geometryTop
      else surfaceY b
  | None => surfaceY b
  end.

(** Lines 134-249, one iteration of [hands.forEach]: the value pushed on
    [pressingDistances], if any. *)
Definition pressingDistance_of (b : Button) (m : Object3D) (idx : nat)
    (hand : Hand) : option Q :=
  match pointerPosition hand with
  | None => None
  | Some contact =>
      let c := contact idx in
      if isInside c then
        let pressingDistance := buttonSurfaceY b m - localPos_y c in
        if Qltb (- tolerance) pressingDistance
        then Some (Qmax 0 pressingDistance)
        else None
      else None
  end.

Fixpoint pressingDistances (b : Button) (m : Object3D) (idx : nat)
    (hands : list Hand) : list Q :=
  match hands with
  | [] => []
  | hand :: rest =>
      match pressingDistance_of b m idx hand with
      | Some d => d :: pressingDistances b m idx rest
      | None => pressingDistances b m idx rest
      end
  end.

(** [Math.max(...xs)] of a non-empty array. *)
Definition Math_max (x : Q) (xs : list Q) : Q := fold_left Qmax xs x.

(** Lines 251-285: new [position.y] and [currState] from the distances. *)
Definition press_or_recover (b : Button) (y dt : Q) (ds : list Q)
    : Q * ButtonState :=
  match ds with
  | [] =>
      if Qltb y (restingY b)
      then (y + recoverySpeed b * dt, recovering)
      else (restingY b, resting)
  | d :: ds' =>
      let maxPressingDistance := Math_max d ds' in
      let y1 :=
        if Qltb 0 maxPressingDistance then
          let newY := restingY b - maxPressingDistance in
          let minY := restingY b - fullPressDistance b in
          Qmax newY minY
        else y in
      if Qle_bool y1 (restingY b - fullPressDistance b)
      then (restingY b - fullPressDistance b, fully_pressed)
      else (y1, pressed)
  end.

(** Lines 287-298: the edge-triggered action.  Returns the new
    [actionTriggered] and whether [action()] was called. *)
Definition trigger_action (hasAction : bool) (curr prev : ButtonState)
    (triggered : bool) : bool * bool :=
  if bool_decide (curr = fully_pressed) && negb (bool_decide (prev = fully_pressed))
  then
    if hasAction && negb triggered then (true, true) else (triggered, false)
  else if negb (bool_decide (curr = fully_pressed)) then (false, false)
  else (triggered, false).

(** Lines 102-299: the body of [entities.forEach], for one entity.
    [hasAction] says whether [buttonActions.get(idx)] is a function. *)
Definition update_entity (dt : Q) (hands : list Hand) (hasAction : bool)
    (e : Entity) : Entity * bool :=
  match object3D e with
  | None => (e, false)
  | Some buttonMesh =>
      let b := button e in
      let idx := index e in
      let restingY1 :=
        if Qltb (restingY b) 0 then position_y buttonMesh else restingY b in
      let prev := currState b in
      let b1 := {| currState := resting; prevState := prev;
                   restingY := restingY1; surfaceY := surfaceY b;
                   recoverySpeed := recoverySpeed b;
                   fullPressDistance := fullPressDistance b;
                   actionTriggered := actionTriggered b |} in
      let ds := pressingDistances b buttonMesh idx hands in
      let '(y', curr) := press_or_recover b1 (position_y buttonMesh) dt ds in
      let '(triggered, fired) :=
        trigger_action hasAction curr prev (actionTriggered b) in
      ({| index := idx;
          object3D := Some {| position_y := y';
                              geometryTopY := geometryTopY buttonMesh |};
          button := {| currState := curr; prevState := prev;
                       restingY := restingY1; surfaceY := surfaceY b;
                       recoverySpeed := recoverySpeed b;
                       fullPressDistance := fullPressDistance b;
                       actionTriggered := triggered |} |},
       fired)
  end.

(** Lines 57-98: the early returns of [update].  [Some hands] when the body
    is reached. *)
Definition tracked_hands (f : Frame) : option (list Hand) :=
  if negb (xrInput f) then None
  else if negb (xrSession f) then None
  else match handAdapters f with
       | None => None
       | Some [] => None
       | Some hands => Some hands
       end.

(** One frame of [update], seen from one button. *)
Definition step (hasAction : bool) (f : Frame) (e : Entity) : Entity * bool :=
  match tracked_hands f with
  | None => (e, false)
  | Some hands => update_entity (delta f) hands hasAction e
  end.

(** [update(delta)] on the whole query: the entities after the frame, and
    the indices whose action was called, in call order. *)
Definition update (buttonActions : nat -> bool) (f : Frame)
    (es : list Entity) : list Entity * list nat :=
  let rs := map (fun e => step (buttonActions (index e)) f e) es in
  (map fst rs,
   flat_map (fun r : Entity * bool => if snd r then [index (fst r)] else []) rs).

(** Consecutive frames of one button, with the log of action calls. *)
Fixpoint run (hasAction : bool) (fs : list Frame) (e : Entity)
    : Entity * list bool :=
  match fs with
  | [] => (e, [])
  | f :: fs' =>
      let '(e1, fired) := step hasAction f e in
      let '(e2, log) := run hasAction fs' e1 in
      (e2, fired :: log)
  end.

Definition state_of (e : Entity) : ButtonState := currState (button e).

(** The offset of the button, [0] for an entity without an object. *)
Definition offset_of (e : Entity) : Q :=
  match object3D e with
  | Some m => position_y m
  | None => 0
  end.

(** ** Vocabulary of the statements *)

(** The flag is only ever set while the button is fully pressed. *)
Definition flag_sound (e : Entity) : Prop :=
  actionTriggered (button e) = true -> state_of e = fully_pressed.

(** Hands are tracked, but no index tip resolves to a position. *)
Definition unresolved (hands : list Hand) : Prop :=
  Forall (fun h => pointerPosition h = None) hands.

(** A frame that reaches the buttons with hands none of which has a
    fingertip position. *)
Definition quiet (f : Frame) : Prop :=
  exists hands, tracked_hands f = Some hands /\ unresolved hands.

(** The resting height a frame works with (lines 110-112): a negative
    [restingY] reads as "not initialised" and is replaced by the current
    offset. *)
Definition resting_height (b : Button) (m : Object3D) : Q :=
  if Qltb (restingY b) 0 then position_y m else restingY b.

(** The fingertip is inside the expanded box and within the tolerance band
    [(-0.0016, 0]] of the surface. *)
Definition zero_depth_touch (b : Button) (m : Object3D) (idx : nat)
    (h : Hand) : Prop :=
  exists contact,
    pointerPosition h = Some contact
    /\ isInside (contact idx) = true
    /\ - tolerance < buttonSurfaceY b m - localPos_y (contact idx) <= 0.

(** The number of frames of a run on which the button enters
    [fully_pressed]. *)
Fixpoint entries (hasAction : bool) (fs : list Frame) (e : Entity) : nat :=
  match fs with
  | [] => 0%nat
  | f :: fs' =>
      let e1 := fst (step hasAction f e) in
      ((if bool_decide (state_of e <> fully_pressed
                        /\ state_of e1 = fully_pressed)
        then 1 else 0)
       + entries hasAction fs' e1)%nat
  end.


(** The frame gets past the early returns of [update]. *)
Definition reached (f : Frame) : bool :=
  match tracked_hands f with
  | Some _ => true
  | None => false
  end.

(** The number of calls in a log. *)
Definition calls (log : list bool) : nat :=
  length (filter (fun fired => fired = true) log).

(** The frame reaches the buttons and one of its fingertips is counted on
    the button at a depth of [fullPressDistance] or more. *)
Definition pressed_home (e : Entity) (m : Object3D) (f : Frame) : Prop :=
  exists hands h d,
    tracked_hands f = Some hands
    /\ h ∈ hands
    /\ pressingDistance_of (button e) m (index e) h = Some d
    /\ fullPressDistance (button e) <= d.

End ButtonSystem.

(* ===================================================================== *)
(** * What the stick systems share: vectors, hands, input sources *)
(* ===================================================================== *)

Module XR.
Local Open Scope R_scope.

(** [THREE.Vector3], with the two methods the systems call. *)
Record Vector3 : Type := mkVector3 { vx : R; vy : R; vz : R }.

Definition distanceTo (a b : Vector3) : R :=
  let dx := vx a - vx b in
  let dy := vy a - vy b in
  let dz := vz a - vz b in
  sqrt (dx * dx + dy * dy + dz * dz).

Definition lerp (a b : Vector3) (alpha : R) : Vector3 :=
  {| vx := vx a + (vx b - vx a) * alpha;
     vy := vy a + (vy b - vy a) * alpha;
     vz := vz a + (vz b - vz a) * alpha |}.

(** [Math.atan2(y, x)]. *)
Definition atan2 (y x : R) : R :=
  if Rlt_dec 0 x then atan (y / x)
  else if Rlt_dec x 0 then
    if Rle_dec 0 y then atan (y / x) + PI else atan (y / x) - PI
  else if Rlt_dec 0 y then PI / 2
  else if Rlt_dec y 0 then - (PI / 2)
  else 0.

(** One [XRHandVisualAdapter], as the stick systems see it on a frame.  The
    adapter object of a side is the same from frame to frame, so it is
    identified by its [handedness].  Each position is [Some] when the
    corresponding look-up of the source succeeds: [gripSpace] an
    [Object3D]; [jointSpaces[17]] an [Object3D] or carrying a
    [matrixWorld]; [raySpace] an [Object3D]. *)
Record Hand : Type := mkHand {
  handedness : string;
  gripSpace : option Vector3;
  indexTip : option Vector3;
  raySpace : option Vector3
}.

(** One [XRInputSource] of the session: its side, whether it has a [hand],
    and, when it has a [gamepad], the [pressed] flags of its buttons. *)
Record InputSource : Type := mkInputSource {
  source_handedness : string;
  source_hand : bool;
  gamepad : option (list bool)
}.

(** [Array.from(xrSession.inputSources).find(s => s.handedness === side && s.hand)] *)
Definition find_source (side : string) (sources : list InputSource)
    : option InputSource :=
  List.find (fun s => bool_decide (source_handedness s = side) && source_hand s)
            sources.

(** [inputSource.gamepad.buttons[0]?.pressed || false] *)
Definition primary_pressed (buttons : list bool) : bool := hd false buttons.

End XR.

(* ===================================================================== *)
(** * StickGrabSystem *)
(* ===================================================================== *)

Module StickGrabSystem.
Import XR.
Local Open Scope R_scope.

(** The [StickGrab] component. *)
Record StickGrab : Set := mkStickGrab {
  attached : bool;
  justAttached : bool;
  justDetached : bool
}.

(** A stick entity: its index, the world position of its [object3D] when
    it has one, and its component. *)
Record Entity : Type := mkEntity {
  index : nat;
  object3D : option Vector3;
  grab : StickGrab
}.

(** The state that outlives a call of [update]:
    - the entities of the query;
    - [previousButtonStates], keyed by side;
    - the [justStartedSelecting] / [justStoppedSelecting] fields the system
      stores on each hand object, keyed by the hand's side;
    - the exported [attachedHands], stick index to owning hand. *)
Record State : Type := mkState {
  sticks : list Entity;
  previousButtonStates : gmap string bool;
  selecting : gmap string (bool * bool);
  attachedHands : gmap nat string
}.

Record Frame : Type := mkFrame {
  xrInput : bool;                          (* this.xrInput or world.xrInput *)
  handAdapters : option (list Hand);       (* visualAdapters.hand, instances only *)
  xrSession : option (list InputSource)    (* getSession()?.inputSources *)
}.

(** An element of [availableSticks]. *)
Record Candidate : Type := mkCandidate {
  entity : Entity;
  distance : R
}.

(** [.sort((a, b) => a.distance - b.distance)]: the sort is stable, an
    element stays ahead of the later elements it does not exceed. *)
Fixpoint insert_by_distance (c : Candidate) (l : list Candidate)
    : list Candidate :=
  match l with
  | [] => [c]
  | d :: l' =>
      if Rle_dec (distance c) (distance d) then c :: d :: l'
      else d :: insert_by_distance c l'
  end.

Definition sort_by_distance (l : list Candidate) : list Candidate :=
  foldr insert_by_distance [] l.

(** Lines 141-160: the unattached sticks that have an object, each with its
    distance to the hand, nearest first. *)
Definition candidate_of (handPosition : Vector3) (e : Entity)
    : option Candidate :=
  if attached (grab e) then None
  else match object3D e with
       | None => None
       | Some p => Some {| entity := e; distance := distanceTo p handPosition |}
       end.

Definition availableSticks (handPosition : Vector3) (es : list Entity)
    : list Candidate :=
  sort_by_distance (omap (candidate_of handPosition) es).

(** The capture radius of line 165. *)
Definition captureRadius : R := 0.10.

(** Lines 110-137: [isPressed], [justStartedSelecting],
    [justStoppedSelecting] and the updated [previousButtonStates]. *)
Definition read_select (sources : list InputSource) (side : string)
    (prev : gmap string bool) : bool * bool * bool * gmap string bool :=
  match find_source side sources with
  | Some inputSource =>
      match gamepad inputSource with
      | Some buttons =>
          let isPressed := primary_pressed buttons in
          let previousState := default false (prev !! side) in
          (isPressed,
           isPressed && negb previousState,
           negb isPressed && previousState,
           <[side := isPressed]> prev)
      | None => (false, false, false, prev)
      end
  | None => (false, false, false, prev)
  end.

(** What the loop over the hands carries: [previousButtonStates], the
    flags stored on the hand objects, and [attachMap]. *)
Record HandLoop : Type := mkHandLoop {
  loop_previous : gmap string bool;
  loop_selecting : gmap string (bool * bool);
  attachMap : gmap nat string
}.

(** Lines 71-173: one iteration of [hands.forEach]. *)
Definition hand_pass (sources : list InputSource) (es : list Entity)
    (acc : HandLoop) (hand : Hand) : HandLoop :=
  match gripSpace hand with
  | None => acc
  | Some handPosition =>
      let side := handedness hand in
      let '(isPressed, justStartedSelecting, justStoppedSelecting, prev') :=
        read_select sources side (loop_previous acc) in
      let attachMap' :=
        match availableSticks handPosition es with
        | closest :: _ =>
            if justStartedSelecting || isPressed then
              if Rlt_dec (distance closest) captureRadius
              then <[index (entity closest) := side]> (attachMap acc)
              else attachMap acc
            else attachMap acc
        | [] => attachMap acc
        end in
      {| loop_previous := prev';
         loop_selecting :=
           <[side := (justStartedSelecting, justStoppedSelecting)]>
             (loop_selecting acc);
         attachMap := attachMap' |}
  end.

(** Lines 196-211: is the owning hand's trigger still held. *)
Definition stillSelecting (sources : list InputSource) (side : string) : bool :=
  match find_source side sources with
  | Some inputSource =>
      match gamepad inputSource with
      | Some buttons => primary_pressed buttons
      | None => false
      end
  | None => false
  end.

(** Lines 176-224: one iteration of the loop over the sticks.  The flags on
    a hand object that was never written read as false. *)
Definition stick_pass (sources : list InputSource)
    (flags : gmap string (bool * bool)) (attach : gmap nat string)
    (owners : gmap nat string) (e : Entity) : Entity * gmap nat string :=
  match object3D e with
  | None => (e, owners)
  | Some _ =>
      let idx := index e in
      let set a ja jd :=
        {| index := idx; object3D := object3D e;
           grab := {| attached := a; justAttached := ja; justDetached := jd |} |} in
      if negb (attached (grab e)) then
        match attach !! idx with
        | Some hand =>
            if fst (default (false, false) (flags !! hand))
            then (set true true false, <[idx := hand]> owners)
            else (set false false false, owners)
        | None => (set false false false, owners)
        end
      else
        match owners !! idx with
        | Some attachedHand =>
            let justStopped := snd (default (false, false) (flags !! attachedHand)) in
            if negb (stillSelecting sources attachedHand) || justStopped
            then (set false false true, delete idx owners)
            else (set true false false, owners)
        | None => (set true false false, owners)
        end
  end.

Fixpoint sticks_loop (sources : list InputSource)
    (flags : gmap string (bool * bool)) (attach : gmap nat string)
    (owners : gmap nat string) (es : list Entity)
    : list Entity * gmap nat string :=
  match es with
  | [] => ([], owners)
  | e :: rest =>
      let '(e', owners1) := stick_pass sources flags attach owners e in
      let '(rest', owners2) := sticks_loop sources flags attach owners1 rest in
      (e' :: rest', owners2)
  end.

Definition hands_loop (sources : list InputSource) (st : State)
    (hands : list Hand) : HandLoop :=
  fold_left (hand_pass sources (sticks st)) hands
    {| loop_previous := previousButtonStates st;
       loop_selecting := selecting st;
       attachMap := ∅ |}.

(** [update(delta)]; [delta] is not used by the system. *)
Definition update (f : Frame) (st : State) : State :=
  if negb (xrInput f) then st
  else match handAdapters f with
       | None => st
       | Some hands =>
           match xrSession f with
           | None => st
           | Some sources =>
               let hl := hands_loop sources st hands in
               let '(es, owners) :=
                 sticks_loop sources (loop_selecting hl) (attachMap hl)
                   (attachedHands st) (sticks st) in
               {| sticks := es;
                  previousButtonStates := loop_previous hl;
                  selecting := loop_selecting hl;
                  attachedHands := owners |}
           end
       end.

Fixpoint run (fs : list Frame) (st : State) : State :=
  match fs with
  | [] => st
  | f :: fs' => run fs' (update f st)
  end.

(** The component of the stick with a given index. *)
Definition grab_of (st : State) (idx : nat) : option StickGrab :=
  grab <$> List.find (fun e => bool_decide (index e = idx)) (sticks st).

(** ** Vocabulary of the statements *)

(** The head of the list is not farther than any element. *)
Definition head_nearest (l : list Candidate) : Prop :=
  match l with
  | [] => True
  | h :: _ => forall x, x ∈ l -> distance h <= distance x
  end.

(** [e] is unattached, has an object, and no unattached stick with an
    object is nearer to [p]. *)
Definition nearest_unattached (p : Vector3) (es : list Entity) (e : Entity)
    : Prop :=
  attached (grab e) = false
  /\ exists q, object3D e = Some q
     /\ forall e' q', e' ∈ es -> attached (grab e') = false ->
          object3D e' = Some q' -> distanceTo q p <= distanceTo q' p.

(** [justStartedSelecting], as a hand of the side would compute it: the
    select trigger of the side reads held on this frame and the state
    stored for the side, false when there is none, is released. *)
Definition rising (sources : list InputSource) (prev : gmap string bool)
    (side : string) : bool :=
  stillSelecting sources side && negb (default false (prev !! side)).




(** The stick a hand enters into [attachMap], if any: its grip resolves,
    its trigger is held, and its nearest unattached stick is within the
    capture radius. *)
Definition claims (sources : list InputSource) (es : list Entity) (h : Hand)
    : option nat :=
  match gripSpace h with
  | None => None
  | Some p =>
      match availableSticks p es with
      | closest :: _ =>
          if stillSelecting sources (handedness h) then
            if Rlt_dec (distance closest) captureRadius
            then Some (index (entity closest))
            else None
          else None
      | [] => None
      end
  end.

(** [hands] ends with a hand claiming [idx]: [h], followed only by hands
    that do not. *)
Definition last_claimant (sources : list InputSource) (es : list Entity)
    (idx : nat) (hands : list Hand) (h : Hand) : Prop :=
  exists pre post,
    hands = pre ++ h :: post
    /\ claims sources es h = Some idx
    /\ Forall (fun h' => claims sources es h' <> Some idx) post.

(** The frame does not reach the loops: [update] returns at one of its
    guards. *)
Definition skipped (f : Frame) : Prop :=
  xrInput f = false \/ handAdapters f = None \/ xrSession f = None.

(** Both edge pulses of a stick are set. *)
Definition both_pulses (e : Entity) : Prop :=
  justAttached (grab e) = true /\ justDetached (grab e) = true.

(** A stick is marked attached exactly when [attachedHands] names an owner
    for it. *)
Definition owned_iff_attached (owners : gmap nat string) (e : Entity) : Prop :=
  attached (grab e) = true <-> is_Some (owners !! index e).

Definition coherent (st : State) : Prop :=
  Forall (owned_iff_attached (attachedHands st)) (sticks st).

(** Every owner's trigger was held when it was last read, and the
    [justStoppedSelecting] stored on its hand object is false. *)
Definition owners_hold (st : State) : Prop :=
  forall idx side, attachedHands st !! idx = Some side ->
    previousButtonStates st !! side = Some true
    /\ snd (default (false, false) (selecting st !! side)) = false.

(** Every index in the owner table is that of a stick with an object. *)
Definition owners_known (st : State) : Prop :=
  forall idx side, attachedHands st !! idx = Some side ->
    exists e q, e ∈ sticks st /\ index e = idx /\ object3D e = Some q.

Definition one_stick_per_hand (st : State) : Prop :=
  forall i j side,
    attachedHands st !! i = Some side -> attachedHands st !! j = Some side ->
    i = j.

(** The bookkeeping of the grabs is in order. *)
Definition grip_sound (st : State) : Prop :=
  NoDup (index <$> sticks st)
  /\ coherent st
  /\ owners_known st
  /\ owners_hold st
  /\ one_stick_per_hand st.

(** The frame has at most one hand adapter per side. *)
Definition one_hand_per_side (f : Frame) : Prop :=
  forall hands, handAdapters f = Some hands -> NoDup (handedness <$> hands).

End StickGrabSystem.

(* ===================================================================== *)
(** * AnalogStickSystem *)
(* ===================================================================== *)

Module AnalogStickSystem.
Import XR.
Local Open Scope R_scope.

(** The [AnalogStick] component. *)
Record AnalogStick : Type := mkAnalogStick {
  centerX : R;
  centerY : R;
  centerZ : R;
  maxRadius : R;
  stickX : R;
  stickY : R;
  stickAngle : R;
  stickMagnitude : R;
  isActive : bool;
  returnSpeed : R
}.

(** [THREE.Euler], only ever copied. *)
Record Euler : Type := mkEuler { ex : R; ey : R; ez : R }.

(** The stick mesh: its world position ([getWorldPosition]) and its
    rotation.  Writing [position] through [parent.worldToLocal] places the
    mesh at the given world position. *)
Record Mesh : Type := mkMesh {
  worldPosition : Vector3;
  rotation : Euler
}.

(** One stick: the entity, its component, and its entries in the system's
    private maps ([initialPositions], [initialRotations], [grabbedHands],
    [grabHandPositions]). *)
Record Stick : Type := mkStick {
  index : nat;
  object3D : option Mesh;
  analog : AnalogStick;
  initialPosition : option Vector3;
  initialRotation : option Euler;
  grabbedHand : option string;
  grabHandPosition : option Vector3
}.

(** The five published fields. *)
Definition publish (a : AnalogStick) (x y angle magnitude : R) (active : bool)
    : AnalogStick :=
  {| centerX := centerX a; centerY := centerY a; centerZ := centerZ a;
     maxRadius := maxRadius a;
     stickX := x; stickY := y; stickAngle := angle;
     stickMagnitude := magnitude; isActive := active;
     returnSpeed := returnSpeed a |}.

Definition set_center (a : AnalogStick) (c : Vector3) : AnalogStick :=
  {| centerX := vx c; centerY := vy c; centerZ := vz c;
     maxRadius := maxRadius a;
     stickX := stickX a; stickY := stickY a; stickAngle := stickAngle a;
     stickMagnitude := stickMagnitude a; isActive := isActive a;
     returnSpeed := returnSpeed a |}.

(** Lines 191-219: [gripSpace], else the index tip, else [raySpace]. *)
Definition resolve_hand_position (hand : Hand) : option Vector3 :=
  match gripSpace hand with
  | Some p => Some p
  | None =>
      match indexTip hand with
      | Some p => Some p
      | None => raySpace hand
      end
  end.

(** Lines 244-305: the attached branch once the hand position and the grab
    reference are known. *)
Definition track_hand (s : Stick) (mesh : Mesh) (initialPos : Vector3)
    (initialRot : Euler) (handPosition grabHandPos : Vector3) : Stick :=
  let a := analog s in
  let deltaX := vx handPosition - vx grabHandPos in
  let deltaZ := vz handPosition - vz grabHandPos in
  let horizontalDistance := sqrt (deltaX * deltaX + deltaZ * deltaZ) in
  let scaled := Rlt_dec (maxRadius a) horizontalDistance in
  let moveX :=
    if scaled then deltaX * (maxRadius a / horizontalDistance) else deltaX in
  let moveZ :=
    if scaled then deltaZ * (maxRadius a / horizontalDistance) else deltaZ in
  let tiltDirection :=
    if Rlt_dec 0.001 horizontalDistance then atan2 deltaZ deltaX else 0 in
  let newPos :=
    {| vx := vx initialPos + moveX; vy := vy initialPos;
       vz := vz initialPos + moveZ |} in
  let stickMagnitude := Rmin (horizontalDistance / maxRadius a) 1 in
  let sx := if Rlt_dec 0 stickMagnitude then moveX / maxRadius a else 0 in
  let sy := if Rlt_dec 0 stickMagnitude then moveZ / maxRadius a else 0 in
  {| index := index s;
     object3D := Some {| worldPosition := newPos; rotation := initialRot |};
     analog := publish a (Rmax (-1) (Rmin 1 sx)) (Rmax (-1) (Rmin 1 sy))
                 tiltDirection stickMagnitude true;
     initialPosition := initialPosition s;
     initialRotation := initialRotation s;
     grabbedHand := grabbedHand s;
     grabHandPosition := grabHandPosition s |}.

(** Lines 318-376: the branch of a stick that is not held. *)
Definition return_to_center (dt : R) (s : Stick) (mesh : Mesh) : Stick :=
  match initialPosition s, initialRotation s with
  | Some initialPos, Some initialRot =>
      let a := analog s in
      let currentPos := worldPosition mesh in
      if Rlt_dec 0.001 (distanceTo currentPos initialPos) then
        let newPos := lerp currentPos initialPos (returnSpeed a * dt) in
        let deltaX := vx currentPos - vx initialPos in
        let deltaZ := vz currentPos - vz initialPos in
        let horizontalDistance := sqrt (deltaX * deltaX + deltaZ * deltaZ) in
        let magnitude := Rmin (horizontalDistance / maxRadius a) 1 in
        let angle :=
          if Rlt_dec 0.001 horizontalDistance then atan2 deltaZ deltaX else 0 in
        {| index := index s;
           object3D := Some {| worldPosition := newPos; rotation := initialRot |};
           analog :=
             publish a
               (if Rlt_dec 0 magnitude then deltaX / maxRadius a else 0)
               (if Rlt_dec 0 magnitude then deltaZ / maxRadius a else 0)
               angle magnitude
               (if Rlt_dec 0.01 magnitude then true else false);
           initialPosition := initialPosition s;
           initialRotation := initialRotation s;
           grabbedHand := grabbedHand s;
           grabHandPosition := grabHandPosition s |}
      else
        {| index := index s;
           object3D := Some {| worldPosition := initialPos; rotation := initialRot |};
           analog := publish a 0 0 0 0 false;
           initialPosition := initialPosition s;
           initialRotation := initialRotation s;
           grabbedHand := grabbedHand s;
           grabHandPosition := grabHandPosition s |}
  | _, _ => s
  end.

(** Lines 134-378: the body of [entities.forEach] for one stick, reached
    when [update] has found the input manager and the hand adapters.
    [wasGrabbed] and [justGrabbed] are the [attached] and [justAttached]
    fields of its [StickGrab]; [owner] is [attachedHands.get(idx)], the
    hand object as it is on this frame.  The registered callback only
    receives the values just published and is left out. *)
Definition update_stick (dt : R) (wasGrabbed justGrabbed : bool)
    (owner : option Hand) (s0 : Stick) : Stick :=
  match object3D s0 with
  | None => s0
  | Some mesh =>
      let currentWorldPos := worldPosition mesh in
      (* lines 147-154 *)
      let s1 :=
        match initialPosition s0 with
        | Some _ => s0
        | None =>
            {| index := index s0; object3D := object3D s0;
               analog := set_center (analog s0) currentWorldPos;
               initialPosition := Some currentWorldPos;
               initialRotation := Some (rotation mesh);
               grabbedHand := grabbedHand s0;
               grabHandPosition := grabHandPosition s0 |}
        end in
      (* lines 167-187 *)
      let grabbingHand := if wasGrabbed then owner else None in
      let s2 :=
        if wasGrabbed then
          match owner with
          | Some hand =>
              {| index := index s1; object3D := object3D s1;
                 analog := analog s1;
                 initialPosition := initialPosition s1;
                 initialRotation := initialRotation s1;
                 grabbedHand := Some (handedness hand);
                 grabHandPosition := grabHandPosition s1 |}
          | None => s1
          end
        else
          match grabbedHand s1 with
          | Some _ =>
              {| index := index s1; object3D := object3D s1;
                 analog := analog s1;
                 initialPosition := initialPosition s1;
                 initialRotation := initialRotation s1;
                 grabbedHand := None;
                 grabHandPosition := None |}
          | None => s1
          end in
      match grabbingHand with
      | Some hand =>
          match resolve_hand_position hand with
          | None => s2
          | Some handPosition =>
              (* lines 226-234 *)
              let s3 :=
                if justGrabbed then
                  {| index := index s2;
                     object3D :=
                       Some {| worldPosition := currentWorldPos;
                               rotation :=
                                 match initialRotation s2 with
                                 | Some initialRot => initialRot
                                 | None => rotation mesh
                                 end |};
                     analog := analog s2;
                     initialPosition := initialPosition s2;
                     initialRotation := initialRotation s2;
                     grabbedHand := grabbedHand s2;
                     grabHandPosition := Some handPosition |}
                else s2 in
              match grabHandPosition s3 with
              | None =>
                  {| index := index s3; object3D := object3D s3;
                     analog := analog s3;
                     initialPosition := initialPosition s3;
                     initialRotation := initialRotation s3;
                     grabbedHand := grabbedHand s3;
                     grabHandPosition := Some handPosition |}
              | Some grabHandPos =>
                  match initialPosition s3, initialRotation s3 with
                  | Some initialPos, Some initialRot =>
                      track_hand s3 mesh initialPos initialRot
                        handPosition grabHandPos
                  | _, _ => s3
                  end
              end
          end
      | None => return_to_center dt s2 mesh
      end
  end.

(** Consecutive frames of a stick nobody holds. *)
Fixpoint release_run (dts : list R) (s : Stick) : Stick :=
  match dts with
  | [] => s
  | dt :: rest => release_run rest (update_stick dt false false None s)
  end.

(** The distance of the stick from its recorded rest position. *)
Definition distance_from_center (s : Stick) : R :=
  match object3D s, initialPosition s with
  | Some mesh, Some initialPos => distanceTo (worldPosition mesh) initialPos
  | _, _ => 0
  end.

(** ** Vocabulary of the statements *)

(** A stick whose mesh and rest pose are known. *)
Definition settled (s : Stick) (c : Vector3) : Prop :=
  (exists mesh, object3D s = Some mesh)
  /\ initialPosition s = Some c
  /\ (exists r, initialRotation s = Some r).

(** Lines 147-154: a stick with a mesh and no recorded rest pose records
    the pose of the mesh. *)
Definition capture (s : Stick) : Stick :=
  match object3D s, initialPosition s with
  | Some mesh, None =>
      {| index := index s; object3D := object3D s;
         analog := set_center (analog s) (worldPosition mesh);
         initialPosition := Some (worldPosition mesh);
         initialRotation := Some (rotation mesh);
         grabbedHand := grabbedHand s;
         grabHandPosition := grabHandPosition s |}
  | _, _ => s
  end.

(** Two states of a stick with the same index, rest pose, centre,
    [maxRadius] and [returnSpeed]. *)
Definition same_setup (a b : Stick) : Prop :=
  index a = index b
  /\ initialPosition a = initialPosition b
  /\ initialRotation a = initialRotation b
  /\ centerX (analog a) = centerX (analog b)
  /\ centerY (analog a) = centerY (analog b)
  /\ centerZ (analog a) = centerZ (analog b)
  /\ maxRadius (analog a) = maxRadius (analog b)
  /\ returnSpeed (analog a) = returnSpeed (analog b).

(** The rest position and the rest rotation are recorded together. *)
Definition rest_pose_paired (s : Stick) : Prop :=
  is_Some (initialPosition s) -> is_Some (initialRotation s).

(** What one frame brings to one stick: the frame time, the [attached] and
    [justAttached] fields of its [StickGrab], and its owner. *)
Record StickInput : Type := mkStickInput {
  frame_delta : R;
  wasGrabbed : bool;
  justGrabbed : bool;
  owner : option Hand
}.

(** Consecutive frames of one stick. *)
Fixpoint stick_run (frames : list StickInput) (s : Stick) : Stick :=
  match frames with
  | [] => s
  | i :: rest =>
      stick_run rest
        (update_stick (frame_delta i) (wasGrabbed i) (justGrabbed i) (owner i) s)
  end.

End AnalogStickSystem.

(* ===================================================================== *)
(** * NESSystem: the read-out of a button *)
(* ===================================================================== *)

Module NESSystem.
Import ButtonSystem.

(** [getButtonState(buttonName)], given [buttonEntityMap.get(buttonName)]. *)
Definition getButtonState (entity : option Entity) : bool :=
  match entity with
  | None => false
  | Some e =>
      let state := currState (button e) in
      bool_decide (state = pressed) || bool_decide (state = fully_pressed)
  end.

End NESSystem.

(* ===================================================================== *)
(** * NESSystem: what the emulator is fed, and when it runs *)
(* ===================================================================== *)

Module NESInput.
Local Open Scope R_scope.

(** The object [getDpadState] returns. *)
Record DpadState : Set := mkDpadState {
  up : bool;
  down : bool;
  left : bool;
  right : bool
}.

Definition Rltb (a b : R) : bool := if Rlt_dec a b then true else false.

(** [getDpadState()], lines 495-513.  [stickEntity] is the [AnalogStick]
    data of [this.stickEntity], [None] when no stick entity is known. *)
Definition getDpadState (stickEntity : option AnalogStickSystem.AnalogStick)
    : DpadState :=
  match stickEntity with
  | None => {| up := false; down := false; left := false; right := false |}
  | Some a =>
      let stickX := AnalogStickSystem.stickX a in
      let stickY := AnalogStickSystem.stickY a in
      let magnitude := AnalogStickSystem.stickMagnitude a in
      let threshold := 0.3 in
      {| up := Rltb threshold magnitude && Rltb stickY (-0.5);
         down := Rltb threshold magnitude && Rltb 0.5 stickY;
         left := Rltb threshold magnitude && Rltb stickX (-0.5);
         right := Rltb threshold magnitude && Rltb 0.5 stickX |}
  end.

(** The eight buttons of [Controller]. *)
Inductive ControllerButton : Set :=
| BUTTON_A
| BUTTON_B
| BUTTON_SELECT
| BUTTON_START
| BUTTON_UP
| BUTTON_DOWN
| BUTTON_LEFT
| BUTTON_RIGHT.

#[global] Instance ControllerButton_eq_dec : EqDecision ControllerButton.
Proof. solve_decision. Defined.

(** A call on the emulator, always for controller 1. *)
Inductive Call : Set :=
| buttonDown (button : ControllerButton)
| buttonUp (button : ControllerButton).

#[global] Instance Call_eq_dec : EqDecision Call.
Proof. solve_decision. Defined.

(** [if (held) nes.buttonDown(1, b) else nes.buttonUp(1, b)] *)
Definition send (held : bool) (button : ControllerButton) : Call :=
  if held then buttonDown button else buttonUp button.

(** [buttonEntityMap] holds entity handles; the [Button] data is read from
    the component store at the handle's index. *)
Definition entity_at (buttons : list ButtonSystem.Entity) (idx : nat)
    : option ButtonSystem.Entity :=
  List.find (fun e => bool_decide (ButtonSystem.index e = idx)) buttons.

Definition button_down (buttonEntityMap : gmap string nat)
    (buttons : list ButtonSystem.Entity) (buttonName : string) : bool :=
  NESSystem.getButtonState
    (match buttonEntityMap !! buttonName with
     | Some idx => entity_at buttons idx
     | None => None
     end).

(** [updateNESInputs()], lines 425-482: the calls made on [this.nes], in
    order.  [nes] says whether [this.nes] is set. *)
Definition updateNESInputs (nes : bool) (buttonEntityMap : gmap string nat)
    (buttons : list ButtonSystem.Entity)
    (stickEntity : option AnalogStickSystem.AnalogStick) : list Call :=
  if negb nes then []
  else
    let buttonA := button_down buttonEntityMap buttons "button2" in
    let buttonB := button_down buttonEntityMap buttons "button1" in
    let buttonStart := button_down buttonEntityMap buttons "button4" in
    let buttonSelect := button_down buttonEntityMap buttons "button3" in
    let dpadState := getDpadState stickEntity in
    [ send buttonA BUTTON_A;
      send buttonB BUTTON_B;
      send buttonSelect BUTTON_SELECT;
      send buttonStart BUTTON_START;
      send (up dpadState) BUTTON_UP;
      send (down dpadState) BUTTON_DOWN;
      send (left dpadState) BUTTON_LEFT;
      send (right dpadState) BUTTON_RIGHT ].

(** The controller as the emulator keeps it: a button is held after a
    sequence of calls when the last call that names it is [buttonDown]. *)
Definition after_call (held : ControllerButton -> bool) (c : Call)
    : ControllerButton -> bool :=
  fun b =>
    match c with
    | buttonDown b' => if bool_decide (b = b') then true else held b
    | buttonUp b' => if bool_decide (b = b') then false else held b
    end.

Definition after_calls (held : ControllerButton -> bool) (calls : list Call)
    : ControllerButton -> bool :=
  fold_left after_call calls held.

(** ** Vocabulary of the statements *)

(** What the panel holds down: each controller button, from the panel
    button or the stick direction wired to it. *)
Definition wired (buttonEntityMap : gmap string nat)
    (buttons : list ButtonSystem.Entity)
    (stickEntity : option AnalogStickSystem.AnalogStick)
    (b : ControllerButton) : bool :=
  match b with
  | BUTTON_A => button_down buttonEntityMap buttons "button2"
  | BUTTON_B => button_down buttonEntityMap buttons "button1"
  | BUTTON_SELECT => button_down buttonEntityMap buttons "button3"
  | BUTTON_START => button_down buttonEntityMap buttons "button4"
  | BUTTON_UP => up (getDpadState stickEntity)
  | BUTTON_DOWN => down (getDpadState stickEntity)
  | BUTTON_LEFT => left (getDpadState stickEntity)
  | BUTTON_RIGHT => right (getDpadState stickEntity)
  end.

(** The buttons, in the order [updateNESInputs] goes through them. *)
Definition all_buttons : list ControllerButton :=
  [BUTTON_A; BUTTON_B; BUTTON_SELECT; BUTTON_START;
   BUTTON_UP; BUTTON_DOWN; BUTTON_LEFT; BUTTON_RIGHT].

(** A deflection beyond one half on either axis comes with a magnitude
    above the d-pad threshold. *)
Definition axis_backed (a : AnalogStickSystem.AnalogStick) : Prop :=
  (0.5 < Rabs (AnalogStickSystem.stickX a)
   \/ 0.5 < Rabs (AnalogStickSystem.stickY a))
  -> 0.3 < AnalogStickSystem.stickMagnitude a.

End NESInput.

Module NESAudio.
Local Open Scope Q_scope.

(** [AudioContext.state]; the system only ever asks whether it is
    ['suspended']. *)
Inductive AudioContextState : Set :=
| suspended
| running
| closed.

#[global] Instance AudioContextState_eq_dec : EqDecision AudioContextState.
Proof. solve_decision. Defined.

(** [audioBuffer[0]], [audioBuffer[1]] and [audioBufferSize]. *)
Record Audio : Set := mkAudio {
  audioBuffer_left : list Q;
  audioBuffer_right : list Q;
  audioBufferSize : nat
}.

(** The number of samples collected before a buffer is played. *)
Definition AUDIO_BUFFER_TARGET : nat := 4096.

(** The two channels of a buffer handed to the audio output.  An entry is
    [None] where the copy loop reads past the end of a channel array. *)
Record Played : Set := mkPlayed {
  leftChannel : list (option Q);
  rightChannel : list (option Q)
}.

(** Lines 131 and 145: [!this.audioContext || state === 'suspended']. *)
Definition muted (audioContext : option AudioContextState) : bool :=
  match audioContext with
  | None => true
  | Some state => bool_decide (state = suspended)
  end.

(** [playAudioBuffer()], lines 144-170. *)
Definition playAudioBuffer (audioContext : option AudioContextState)
    (a : Audio) : Audio * option Played :=
  if muted audioContext then (a, None)
  else if Nat.eqb (audioBufferSize a) 0 then (a, None)
  else
    ({| audioBuffer_left := []; audioBuffer_right := []; audioBufferSize := 0 |},
     Some {| leftChannel :=
               map (fun i => audioBuffer_left a !! i) (seq 0 (audioBufferSize a));
             rightChannel :=
               map (fun i => audioBuffer_right a !! i) (seq 0 (audioBufferSize a)) |}).

(** [handleAudioSample(left, right)], lines 130-142. *)
Definition handleAudioSample (audioContext : option AudioContextState)
    (left right : Q) (a : Audio) : Audio * option Played :=
  if muted audioContext then (a, None)
  else
    let a1 := {| audioBuffer_left := audioBuffer_left a ++ [left];
                 audioBuffer_right := audioBuffer_right a ++ [right];
                 audioBufferSize := S (audioBufferSize a) |} in
    if Nat.leb AUDIO_BUFFER_TARGET (audioBufferSize a1)
    then playAudioBuffer audioContext a1
    else (a1, None).

(** One sample as the emulator delivers it, with the state the audio
    context is in at that moment. *)
Record Sample : Set := mkSample {
  context : option AudioContextState;
  sample_left : Q;
  sample_right : Q
}.

(** A stream of samples: the final buffers and the buffers played, oldest
    first. *)
Fixpoint feed (samples : list Sample) (a : Audio) : Audio * list Played :=
  match samples with
  | [] => (a, [])
  | s :: rest =>
      let '(a1, played) :=
        handleAudioSample (context s) (sample_left s) (sample_right s) a in
      let '(a2, later) := feed rest a1 in
      (a2, match played with Some p => p :: later | None => later end)
  end.

Definition emptyAudio : Audio :=
  {| audioBuffer_left := []; audioBuffer_right := []; audioBufferSize := 0 |}.

(** ** Vocabulary of the statements *)

(** Both channel arrays hold [audioBufferSize] samples, fewer than the
    target. *)
Definition buffered (a : Audio) : Prop :=
  length (audioBuffer_left a) = audioBufferSize a
  /\ length (audioBuffer_right a) = audioBufferSize a
  /\ (audioBufferSize a < AUDIO_BUFFER_TARGET)%nat.

(** The samples that arrive while the context lets them through. *)
Definition heard (samples : list Sample) : list Sample :=
  filter (fun s => muted (context s) = false) samples.

End NESAudio.

Module NESVideo.
Local Open Scope Z_scope.

(** The conversion the bit operators apply to their operands. *)
Definition ToInt32 (v : Z) : Z := (v + 2 ^ 31) mod 2 ^ 32 - 2 ^ 31.

(** [(rgb >> 16) & 0xFF], [(rgb >> 8) & 0xFF], [rgb & 0xFF] *)
Definition red (rgb : Z) : Z := Z.land (Z.shiftr (ToInt32 rgb) 16) 255.
Definition green (rgb : Z) : Z := Z.land (Z.shiftr (ToInt32 rgb) 8) 255.
Definition blue (rgb : Z) : Z := Z.land (ToInt32 rgb) 255.

(** Lines 375-388, the body of the two loops of [renderFrame]: one pixel of
    the frame buffer written into [imageData.data].  A missing entry of the
    frame buffer reads as [undefined], which the bit operators take as 0. *)
Definition put_pixel (frameBuffer : list Z) (data : list Z) (y x : nat)
    : list Z :=
  let srcIndex := (y * 256 + x)%nat in
  let flippedX := (255 - x)%nat in
  let dstIndex := ((y * 256 + flippedX) * 4)%nat in
  let rgb := nth srcIndex frameBuffer 0 in
  <[(dstIndex + 3)%nat := 255]>
    (<[(dstIndex + 2)%nat := blue rgb]>
       (<[(dstIndex + 1)%nat := green rgb]>
          (<[dstIndex := red rgb]> data))).

(** [ctx.createImageData(256, 240).data]: transparent black. *)
Definition createImageData : list Z := repeat 0 (256 * 240 * 4).

(** The loop over the columns of row [y], lines 374-396. *)
Definition row (frameBuffer : list Z) (y : nat) (xs : list nat)
    (data : list Z) : list Z :=
  fold_left (fun data x => put_pixel frameBuffer data y x) xs data.

(** Lines 367-397: the image [renderFrame] puts on the canvas. *)
Definition renderFrame (frameBuffer : list Z) : list Z :=
  fold_left (fun data y => row frameBuffer y (seq 0 256) data) (seq 0 240)
    createImageData.

(** The four bytes of the image at column [x] of row [y]. *)
Definition pixel_at (data : list Z) (x y : nat) : list (option Z) :=
  let i := ((y * 256 + x) * 4)%nat in
  [data !! i; data !! (i + 1)%nat; data !! (i + 2)%nat; data !! (i + 3)%nat].

(** ** Vocabulary of the statements *)

(** The byte [c] of a pixel: red, green, blue, alpha. *)
Definition channel (c : nat) (rgb : Z) : Z :=
  match c with
  | 0%nat => red rgb
  | 1%nat => green rgb
  | 2%nat => blue rgb
  | _ => 255
  end.

End NESVideo.

Module NESScreen.
Local Open Scope R_scope.

(** The constants of [createScreenPlane]. *)
Definition curveAmount : R := -0.08.
Definition aspectRatio : R := 256 / 240.
Definition width : R := 1.5.
Definition height : R := width / aspectRatio.

(** Lines 198-206 of [createScreenPlane]: the depth given to the vertex of
    the plane at [(x, y)]. *)
Definition curveZ (x y : R) : R :=
  let normalizedX := x / (width / 2) in
  let normalizedY := y / (height / 2) in
  let distanceFromCenter :=
    sqrt (normalizedX * normalizedX + normalizedY * normalizedY) in
  curveAmount * (1 - distanceFromCenter * distanceFromCenter).

End NESScreen.

Module NESWiring.

(** An entity of a query, as the discovery loops see it: its index, and the
    name of its [object3D] when that is a [THREE.Mesh]. *)
Record QueryEntity : Set := mkQueryEntity {
  index : nat;
  meshName : option string
}.

(** [meshName && (meshName === 'button1' || ... || meshName === 'button4')] *)
Definition is_button_name (meshName : string) : bool :=
  bool_decide (meshName = "button1") || bool_decide (meshName = "button2")
  || bool_decide (meshName = "button3") || bool_decide (meshName = "button4").

(** [buttonEntityMap] and [stickEntity]. *)
Record Wiring : Set := mkWiring {
  buttonEntityMap : gmap string nat;
  stickEntity : option nat
}.

(** Lines 60-65 and 570-575: the last mesh named [stick_mesh] wins. *)
Definition find_stick (stick : list QueryEntity) (found : option nat)
    : option nat :=
  fold_left
    (fun acc entity =>
       match meshName entity with
       | Some n => if bool_decide (n = "stick_mesh") then Some (index entity) else acc
       | None => acc
       end)
    stick found.

(** [init()], lines 35-67.  [nesButtonEntities] and [nesStickEntity] are the
    fields of the world, when set. *)
Definition init (nesButtonEntities : option (gmap string nat))
    (nesStickEntity : option nat) (buttons stick : list QueryEntity) : Wiring :=
  let map0 := default ∅ nesButtonEntities in
  let map1 :=
    if Nat.eqb (size map0) 0 then
      fold_left
        (fun m entity =>
           match meshName entity with
           | Some n => if is_button_name n then <[n := index entity]> m else m
           | None => m
           end)
        buttons map0
    else map0 in
  {| buttonEntityMap := map1;
     stickEntity :=
       match nesStickEntity with
       | Some e => Some e
       | None => find_stick stick None
       end |}.

(** Line 556: [buttonEntityMap.size < 4 || !this.stickEntity]. *)
Definition searching (w : Wiring) : bool :=
  Nat.ltb (size (buttonEntityMap w)) 4
  || negb (bool_decide (is_Some (stickEntity w))).

(** Lines 556-577 of [update]: the discovery repeated while a button or the
    stick is missing. *)
Definition rediscover (w : Wiring) (buttons stick : list QueryEntity) : Wiring :=
  if searching w
  then
    {| buttonEntityMap :=
         fold_left
           (fun m entity =>
              match meshName entity with
              | Some n =>
                  if is_button_name n then
                    match m !! n with
                    | Some _ => m
                    | None => <[n := index entity]> m
                    end
                  else m
              | None => m
              end)
           buttons (buttonEntityMap w);
       stickEntity :=
         match stickEntity w with
         | Some e => Some e
         | None => find_stick stick None
         end |}
  else w.

(** ** Vocabulary of the statements *)

(** The entity is a mesh of the given name. *)
Definition named (n : string) (entity : QueryEntity) : bool :=
  bool_decide (meshName entity = Some n).

End NESWiring.

(* ===================================================================== *)
(** * index.ts: looking a mesh up in the loaded scene *)
(* ===================================================================== *)

Module Index.

(** A node of the scene graph: whether it is a [THREE.Mesh], its name and
    its children.  [id] is the number three.js gives every object. *)
#[local] Unset Elimination Schemes.
Inductive Object3D : Set :=
| mkObject3D (isMesh : bool) (name : string) (id : nat)
    (children : list Object3D).

#[local] Set Elimination Schemes.

Definition isMesh (o : Object3D) : bool :=
  match o with mkObject3D m _ _ _ => m end.
Definition name (o : Object3D) : string :=
  match o with mkObject3D _ n _ _ => n end.
Definition children (o : Object3D) : list Object3D :=
  match o with mkObject3D _ _ _ cs => cs end.

(** [findMeshByName], lines 72-81. *)
Fixpoint findMeshByName (object : Object3D) (name0 : string)
    : option Object3D :=
  match object with
  | mkObject3D m n _ cs =>
      if m && bool_decide (n = name0) then Some object
      else
        (fix search (rest : list Object3D) : option Object3D :=
           match rest with
           | [] => None
           | child :: rest' =>
               match findMeshByName child name0 with
               | Some found => Some found
               | None => search rest'
               end
           end) cs
  end.

(** Induction on a scene: a property holds of every node if it holds of a
    node whenever it holds of all its children. *)
Fixpoint Object3D_ind (P : Object3D -> Prop)
    (step : forall m n i cs, Forall P cs -> P (mkObject3D m n i cs))
    (object : Object3D) : P object :=
  match object with
  | mkObject3D m n i cs =>
      step m n i cs
        ((fix each (rest : list Object3D) : Forall P rest :=
            match rest with
            | [] => @List.Forall_nil Object3D P
            | child :: rest' =>
                @List.Forall_cons Object3D P child rest'
                  (Object3D_ind P step child) (each rest')
            end) cs)
  end.

(** ** Vocabulary of the statements *)

(** The nodes of a scene, parents before children, siblings in order. *)
Fixpoint traverse (object : Object3D) : list Object3D :=
  match object with
  | mkObject3D _ _ _ cs =>
      object ::
      (fix each (rest : list Object3D) : list Object3D :=
         match rest with
         | [] => []
         | child :: rest' => traverse child ++ each rest'
         end) cs
  end.

Definition named_mesh (name0 : string) (o : Object3D) : bool :=
  isMesh o && bool_decide (name o = name0).

End Index.

(* ===================================================================== *)
(** * Concrete scenes *)
(* ===================================================================== *)

Module Scenes.
Import ButtonSystem.
Local Open Scope Q_scope.

(** The button of the panel as index.ts registers it ([surfaceY] 0.05,
    [fullPressDistance] 0.02, [recoverySpeed] 0.4), resting at height 0. *)
Definition panelButton : Entity :=
  {| index := 0%nat;
     object3D := Some {| position_y := 0; geometryTopY := None |};
     button := {| currState := resting; prevState := resting;
                  restingY := 0; surfaceY := 5 # 100;
                  recoverySpeed := 4 # 10; fullPressDistance := 2 # 100;
                  actionTriggered := false |} |}.

Definition frame_with (hands : list Hand) : Frame :=
  {| xrInput := true; xrSession := true; handAdapters := Some hands;
     delta := 16 # 1000 |}.

(** A fingertip inside the box, at local height [y]. *)
Definition fingertip_at (y : Q) : Hand :=
  {| pointerPosition := Some (fun _ => {| isInside := true; localPos_y := y |}) |}.

(** A fingertip away from every button. *)
Definition fingertip_away : Hand :=
  {| pointerPosition := Some (fun _ => {| isInside := false; localPos_y := 1 |}) |}.

(** A hand whose index tip cannot be resolved. *)
Definition hand_without_tip : Hand := {| pointerPosition := None |}.

(** Pressing 0.03 below the surface; just touching the surface; hovering
    away; tracked hand without fingertip; no hand at all. *)
Definition press_deep : Frame := frame_with [fingertip_at (2 # 100)].
Definition touch_surface : Frame := frame_with [fingertip_at (5 # 100)].
Definition hover : Frame := frame_with [fingertip_away].
Definition tip_lost : Frame := frame_with [hand_without_tip].
Definition no_hands : Frame := frame_with [].

(** The panel button after one frame of the deep press: fully pressed, at
    its floor, its action called. *)
Definition heldButton : Entity :=
  {| index := 0%nat;
     object3D := Some {| position_y := -(2 # 100); geometryTopY := None |};
     button := {| currState := fully_pressed; prevState := resting;
                  restingY := 0; surfaceY := 5 # 100;
                  recoverySpeed := 4 # 10; fullPressDistance := 2 # 100;
                  actionTriggered := true |} |}.


(** A fingertip one millimetre above the surface; a frame of no duration
    with the finger away. *)
Definition graze : Frame := frame_with [fingertip_at (51 # 1000)].
Definition hover_still : Frame :=
  {| xrInput := true; xrSession := true; handAdapters := Some [fingertip_away];
     delta := 0 |}.

(** A button of the same make whose mesh sits a tenth below height zero,
    as a new entity: [restingY] still at its default -1. *)
Definition lowButton : Entity :=
  {| index := 0%nat;
     object3D := Some {| position_y := -(1 # 10); geometryTopY := None |};
     button := defaultButton |}.

End Scenes.

Module StickScenes.
Import XR AnalogStickSystem.
Local Open Scope R_scope.

Definition origin : Vector3 := {| vx := 0; vy := 0; vz := 0 |}.

Definition noRotation : Euler := {| ex := 0; ey := 0; ez := 0 |}.

(** The stick of the panel as index.ts registers it ([maxRadius] 0.03,
    [returnSpeed] 5.0), with rest position the origin. *)
Definition panelAnalog : AnalogStick :=
  {| centerX := 0; centerY := 0; centerZ := 0; maxRadius := 0.03;
     stickX := 0; stickY := 0; stickAngle := 0; stickMagnitude := 0;
     isActive := false; returnSpeed := 5 |}.

Definition stick_at (p : Vector3) : Stick :=
  {| index := 0%nat;
     object3D := Some {| worldPosition := p; rotation := noRotation |};
     analog := panelAnalog;
     initialPosition := Some origin;
     initialRotation := Some noRotation;
     grabbedHand := None;
     grabHandPosition := None |}.

Definition restingStick : Stick := stick_at origin.

(** The stick where a hand pulled to the rim along +X leaves it. *)
Definition rimStick : Stick := stick_at {| vx := 0.03; vy := 0; vz := 0 |}.

(** A right hand whose grip is at [p]; a right hand none of whose
    positions resolves. *)
Definition hand_at (p : Vector3) : Hand :=
  {| handedness := "right"; gripSpace := Some p; indexTip := None;
     raySpace := None |}.

Definition lostHand : Hand :=
  {| handedness := "right"; gripSpace := None; indexTip := None;
     raySpace := None |}.

(** Scenario B: grab the resting stick, then move the hand 0.05 along +X. *)
Definition pulledStick : Stick :=
  update_stick 0.016 true false
    (Some (hand_at {| vx := 0.05; vy := 0; vz := 0 |}))
    (update_stick 0.016 true true (Some (hand_at origin)) restingStick).

End StickScenes.

Module GrabScenes.
Import XR StickGrabSystem.
Local Open Scope R_scope.

(** The stick of the panel, at the origin, held by nobody. *)
Definition panelStick : Entity :=
  {| index := 0%nat;
     object3D := Some {| vx := 0; vy := 0; vz := 0 |};
     grab := {| attached := false; justAttached := false;
                justDetached := false |} |}.

Definition freshState : State :=
  {| sticks := [panelStick]; previousButtonStates := ∅; selecting := ∅;
     attachedHands := ∅ |}.


Definition hand_on (side : string) (p : Vector3) : Hand :=
  {| handedness := side; gripSpace := Some p; indexTip := None;
     raySpace := None |}.

(** The input source of a tracked hand whose select trigger is held. *)
Definition held (side : string) : InputSource :=
  {| source_handedness := side; source_hand := true; gamepad := Some [true] |}.

(** One centimetre and nine centimetres from the stick. *)
Definition near : Vector3 := {| vx := 0.01; vy := 0; vz := 0 |}.
Definition far : Vector3 := {| vx := 0.09; vy := 0; vz := 0 |}.

(** Both triggers held; the left hand is processed first. *)
Definition frame_of (left right : Vector3) : Frame :=
  {| xrInput := true;
     handAdapters := Some [hand_on "left" left; hand_on "right" right];
     xrSession := Some [held "left"; held "right"] |}.

(** Only the right hand, trigger held, one centimetre from the stick. *)
Definition grabFrame : Frame :=
  {| xrInput := true;
     handAdapters := Some [hand_on "right" near];
     xrSession := Some [held "right"] |}.

(** The right hand with its trigger held, its grip unresolved. *)
Definition gripLostFrame : Frame :=
  {| xrInput := true;
     handAdapters :=
       Some [{| handedness := "right"; gripSpace := None; indexTip := None;
                raySpace := None |}];
     xrSession := Some [held "right"] |}.

(** The same hand, after the XR session has ended. *)
Definition noSessionFrame : Frame :=
  {| xrInput := true;
     handAdapters := Some [hand_on "right" near];
     xrSession := None |}.

End GrabScenes.

(* ===================================================================== *)
(** * Properties of ButtonSystem *)
(* ===================================================================== *)

Module ButtonFacts.
Import ButtonSystem NESSystem Scenes.
Local Open Scope Q_scope.

Lemma Qltb_true (a b : Q) : Qltb a b = true <-> a < b.
Proof.
  unfold Qltb. rewrite negb_true_iff, <- not_true_iff_false, Qle_bool_iff.
  split; [apply Qnot_le_lt | apply Qlt_not_le].
Qed.

Lemma Qltb_false (a b : Q) : Qltb a b = false <-> b <= a.
Proof.
  unfold Qltb. rewrite negb_false_iff. apply Qle_bool_iff.
Qed.

Lemma Qle_bool_false (a b : Q) : Qle_bool a b = false <-> b < a.
Proof.
  rewrite <- not_true_iff_false, Qle_bool_iff.
  split; [apply Qnot_le_lt | apply Qlt_not_le].
Qed.

(** Case analysis on the comparisons of the source. *)
Ltac case_Qltb a b :=
  let H := fresh "Hcmp" in
  destruct (Qltb a b) eqn:H;
  [apply Qltb_true in H | apply Qltb_false in H].

Ltac case_Qle_bool a b :=
  let H := fresh "Hcmp" in
  destruct (Qle_bool a b) eqn:H;
  [apply Qle_bool_iff in H | apply Qle_bool_false in H].

(** ** The edge-triggered action *)

Lemma trigger_action_fired (hasAction : bool) (curr prev : ButtonState)
    (triggered : bool) :
  snd (trigger_action hasAction curr prev triggered) = true <->
  curr = fully_pressed /\ prev <> fully_pressed /\ hasAction = true
  /\ triggered = false.
Proof.
  unfold trigger_action.
  destruct curr, prev, hasAction, triggered; vm_compute; intuition congruence.
Qed.

Lemma trigger_action_flag (hasAction : bool) (curr prev : ButtonState)
    (triggered : bool) :
  (triggered = true -> prev = fully_pressed) ->
  fst (trigger_action hasAction curr prev triggered) = true ->
  curr = fully_pressed.
Proof.
  unfold trigger_action.
  destruct curr, prev, hasAction, triggered; vm_compute; intuition congruence.
Qed.


(** The shape of an entity after a frame that reaches it. *)
Lemma update_entity_eq (dt : Q) (hands : list Hand) (hasAction : bool)
    (e : Entity) (m : Object3D) :
  object3D e = Some m ->
  exists y' curr,
    let b := button e in
    let restingY1 :=
      if Qltb (restingY b) 0 then position_y m else restingY b in
    let b1 := {| currState := resting; prevState := currState b;
                 restingY := restingY1; surfaceY := surfaceY b;
                 recoverySpeed := recoverySpeed b;
                 fullPressDistance := fullPressDistance b;
                 actionTriggered := actionTriggered b |} in
    let t := trigger_action hasAction curr (currState b) (actionTriggered b) in
    press_or_recover b1 (position_y m) dt
      (pressingDistances b m (index e) hands) = (y', curr)
    /\ update_entity dt hands hasAction e =
       ({| index := index e;
           object3D := Some {| position_y := y';
                               geometryTopY := geometryTopY m |};
           button := {| currState := curr; prevState := currState b;
                        restingY := restingY1; surfaceY := surfaceY b;
                        recoverySpeed := recoverySpeed b;
                        fullPressDistance := fullPressDistance b;
                        actionTriggered := fst t |} |},
        snd t).
Proof.
  intros Hm. unfold update_entity. rewrite Hm.
  destruct (press_or_recover _ _ _ _) as [y' curr] eqn:Hp.
  exists y', curr. cbn zeta. split; [reflexivity|].
  destruct (trigger_action _ _ _ _); reflexivity.
Qed.

(** [update] treats every button of the query by [step], with the action
    registered for its index. *)
Lemma update_pointwise (buttonActions : nat -> bool) (f : Frame)
    (es : list Entity) :
  fst (update buttonActions f es)
  = map (fun e => fst (step (buttonActions (index e)) f e)) es.
Proof. unfold update. cbn [fst]. rewrite map_map. reflexivity. Qed.

(** A frame that is skipped leaves the button as it is and calls nothing. *)
Lemma step_skipped (hasAction : bool) (f : Frame) (e : Entity) :
  tracked_hands f = None -> step hasAction f e = (e, false).
Proof. intros H. unfold step. rewrite H. reflexivity. Qed.

Lemma step_fired (hasAction : bool) (f : Frame) (e : Entity) :
  snd (step hasAction f e) = true ->
  state_of (fst (step hasAction f e)) = fully_pressed
  /\ state_of e <> fully_pressed /\ hasAction = true.
Proof.
  unfold step. destruct (tracked_hands f) as [hands|]; [|discriminate].
  destruct (object3D e) as [m|] eqn:Hm.
  - destruct (update_entity_eq (delta f) hands hasAction e m Hm)
      as (y' & curr & _ & ->).
    cbn. intros H. apply trigger_action_fired in H. tauto.
  - unfold update_entity. rewrite Hm. discriminate.
Qed.

Lemma step_rising_edge_fires (f : Frame) (e : Entity) :
  flag_sound e ->
  state_of e <> fully_pressed ->
  state_of (fst (step true f e)) = fully_pressed ->
  snd (step true f e) = true.
Proof.
  unfold step, flag_sound, state_of.
  destruct (tracked_hands f) as [hands|]; [|cbn; congruence].
  destruct (object3D e) as [m|] eqn:Hm.
  - destruct (update_entity_eq (delta f) hands true e m Hm)
      as (y' & curr & _ & ->).
    cbn. intros Hs Hne Hc. apply trigger_action_fired.
    destruct (actionTriggered (button e)); intuition congruence.
  - unfold update_entity. rewrite Hm. cbn. congruence.
Qed.

Lemma step_flag_sound (hasAction : bool) (f : Frame) (e : Entity) :
  flag_sound e -> flag_sound (fst (step hasAction f e)).
Proof.
  unfold step, flag_sound, state_of.
  destruct (tracked_hands f) as [hands|]; [|cbn; tauto].
  destruct (object3D e) as [m|] eqn:Hm.
  - destruct (update_entity_eq (delta f) hands hasAction e m Hm)
      as (y' & curr & _ & ->).
    cbn. intros Hs. apply trigger_action_flag.
    intros Ht. exact (Hs Ht).
  - unfold update_entity. rewrite Hm. cbn. tauto.
Qed.


Lemma run_cons (hasAction : bool) (f : Frame) (fs : list Frame) (e : Entity) :
  run hasAction (f :: fs) e =
  (fst (run hasAction fs (fst (step hasAction f e))),
   snd (step hasAction f e) :: snd (run hasAction fs (fst (step hasAction f e)))).
Proof.
  cbn. destruct (step hasAction f e) as [e1 fired]. cbn.
  destruct (run hasAction fs e1); reflexivity.
Qed.




(** ** The range of the offset *)








(** ** Frames without a fingertip *)

Lemma pressingDistances_unresolved (b : Button) (m : Object3D) (idx : nat)
    (hands : list Hand) :
  unresolved hands -> pressingDistances b m idx hands = [].
Proof.
  induction 1 as [|h hands Hh _ IH]; [reflexivity|].
  cbn. unfold pressingDistance_of. rewrite Hh. exact IH.
Qed.

(** What a quiet frame does to a button. *)
Lemma step_quiet (hasAction : bool) (f : Frame) (e : Entity) (m : Object3D) :
  object3D e = Some m -> quiet f ->
  let b := button e in
  let y := position_y m in
  let r1 := if Qltb (restingY b) 0 then y else restingY b in
  let e' := fst (step hasAction f e) in
  snd (step hasAction f e) = false
  /\ recoverySpeed (button e') = recoverySpeed b
  /\ restingY (button e') = r1
  /\ (if Qltb y r1
      then state_of e' = recovering
           /\ object3D e' = Some {| position_y := y + recoverySpeed b * delta f;
                                    geometryTopY := geometryTopY m |}
      else state_of e' = resting
           /\ object3D e' = Some {| position_y := r1;
                                    geometryTopY := geometryTopY m |}).
Proof.
  intros Hm (hands & Hh & Hq). cbv zeta. unfold step. rewrite Hh.
  destruct (update_entity_eq (delta f) hands hasAction e m Hm)
    as (y' & curr & Hp & ->).
  cbn zeta in Hp. rewrite (pressingDistances_unresolved _ _ _ _ Hq) in Hp.
  unfold press_or_recover in Hp. cbn [restingY recoverySpeed] in Hp.
  cbn [fst snd button restingY recoverySpeed state_of currState object3D].
  destruct (Qltb (position_y m) _); inversion Hp; subst y' curr;
    (split; [|split; [reflexivity|split; [reflexivity|split; reflexivity]]]);
    unfold trigger_action;
    destruct (currState (button e)), hasAction, (actionTriggered (button e));
    reflexivity.
Qed.

(** A button at its resting height stays there over quiet frames. *)
Lemma rest_is_stable (hasAction : bool) (fs : list Frame) (e : Entity)
    (m : Object3D) :
  object3D e = Some m ->
  state_of e = resting ->
  position_y m == restingY (button e) ->
  Forall quiet fs ->
  state_of (fst (run hasAction fs e)) = resting
  /\ offset_of (fst (run hasAction fs e))
     == restingY (button (fst (run hasAction fs e))).
Proof.
  revert e m. induction fs as [|f fs IH]; intros e m Hm Hs Hy Hall.
  - cbn. unfold offset_of. rewrite Hm. tauto.
  - rewrite run_cons. cbn [fst].
    inversion Hall as [|f0 fs0 Hf Hfs]; subst.
    destruct (step_quiet hasAction f e m Hm Hf) as (_ & _ & Er & Hcase).
    cbv zeta in Er, Hcase.
    set (r1 := if Qltb (restingY (button e)) 0 then position_y m
               else restingY (button e)) in *.
    assert (Hr1 : position_y m == r1).
    { subst r1. destruct (Qltb (restingY (button e)) 0); [reflexivity|exact Hy]. }
    case_Qltb (position_y m) r1; [lra|].
    destruct Hcase as [Hs' Hm'].
    apply (IH _ _ Hm' Hs'); [|exact Hfs].
    rewrite Er. reflexivity.
Qed.

(** A button at most [n] recovery steps of size [s] below its resting
    height is at rest after more than [n] quiet frames. *)
Lemma recovers_within (hasAction : bool) (s : Q) (n : nat) :
  forall (fs : list Frame) (e : Entity) (m : Object3D),
  object3D e = Some m ->
  Forall (fun f => quiet f /\ s <= recoverySpeed (button e) * delta f) fs ->
  restingY (button e) - position_y m <= inject_Z (Z.of_nat n) * s ->
  (n < length fs)%nat ->
  state_of (fst (run hasAction fs e)) = resting
  /\ offset_of (fst (run hasAction fs e))
     == restingY (button (fst (run hasAction fs e))).
Proof.
  induction n as [|n IH]; intros fs e m Hm Hall Hgap Hlen;
    (destruct fs as [|f fs]; [cbn in Hlen; lia|]);
    inversion Hall as [|f0 fs0 [Hq Hs] Hfs]; subst;
    rewrite run_cons; cbn [fst];
    destruct (step_quiet hasAction f e m Hm Hq) as (_ & Ers & Er & Hcase);
    cbv zeta in Ers, Er, Hcase;
    set (r1 := if Qltb (restingY (button e)) 0 then position_y m
               else restingY (button e)) in *;
    assert (Hquiet : Forall quiet fs)
      by (eapply List.Forall_impl; [|exact Hfs]; cbn; tauto).
  - (* no step is missing: the frame snaps the button to rest *)
    assert (Hge : r1 <= position_y m).
    { subst r1. case_Qltb (restingY (button e)) 0; [lra|].
      change (inject_Z (Z.of_nat 0)) with 0 in Hgap. lra. }
    case_Qltb (position_y m) r1; [lra|].
    destruct Hcase as [Hs' Hm'].
    apply (rest_is_stable hasAction fs _ _ Hm' Hs'); [|exact Hquiet].
    rewrite Er. reflexivity.
  - case_Qltb (position_y m) r1.
    + destruct Hcase as [_ Hm'].
      apply (IH fs _ _ Hm').
      * rewrite Ers. exact Hfs.
      * rewrite Er. cbn [position_y].
        assert (Hr1 : r1 == restingY (button e)).
        { subst r1. case_Qltb (restingY (button e)) 0; [lra|reflexivity]. }
        rewrite Nat2Z.inj_succ, <- Z.add_1_r, inject_Z_plus in Hgap.
        change (inject_Z 1) with 1 in Hgap. lra.
      * cbn in Hlen. lia.
    + destruct Hcase as [Hs' Hm'].
      apply (rest_is_stable hasAction fs _ _ Hm' Hs'); [|exact Hquiet].
      rewrite Er. reflexivity.
Qed.

Lemma enough_steps (g s : Q) :
  0 < s -> exists n : nat, g <= inject_Z (Z.of_nat n) * s.
Proof.
  intros Hs. destruct (Qarchimedean (g / s)) as [p Hp].
  exists (Pos.to_nat p). rewrite positive_nat_Z.
  change (inject_Z (Z.pos p)) with (Z.pos p # 1).
  apply Qlt_le_weak.
  assert (E : g == g / s * s) by (field; lra).
  rewrite E. apply Qmult_lt_compat_r; assumption.
Qed.

(** A resting height that is set is kept by frames without a fingertip. *)
Lemma quiet_keeps_restingY (hasAction : bool) (fs : list Frame) :
  forall (e : Entity) (m : Object3D),
  object3D e = Some m ->
  0 <= restingY (button e) ->
  Forall quiet fs ->
  restingY (button (fst (run hasAction fs e))) = restingY (button e).
Proof.
  induction fs as [|f fs IH]; intros e m Hm Hr Hall; [reflexivity|].
  inversion Hall as [|f0 fs0 Hf Hfs]; subst.
  rewrite run_cons. cbn [fst].
  destruct (step_quiet hasAction f e m Hm Hf) as (_ & _ & Er & Hcase).
  cbv zeta in Er, Hcase.
  assert (Er' : restingY (button (fst (step hasAction f e)))
                = restingY (button e)).
  { rewrite Er. case_Qltb (restingY (button e)) 0; [lra|reflexivity]. }
  destruct (Qltb (position_y m) _); destruct Hcase as [_ Hm'];
    rewrite (IH _ _ Hm'); try exact Er'; try exact Hfs; rewrite Er'; exact Hr.
Qed.

(** A button whose mesh is below height 0 and whose [restingY] is unset has
    its resting height taken anew from its offset on every frame: frames
    without a fingertip leave it where it is, in state [resting]. *)
Lemma below_zero_never_recovers (hasAction : bool) (fs : list Frame) :
  forall (e : Entity) (m : Object3D),
  object3D e = Some m ->
  restingY (button e) < 0 ->
  position_y m < 0 ->
  Forall quiet fs ->
  let e' := fst (run hasAction fs e) in
  offset_of e' = position_y m
  /\ (fs <> [] -> state_of e' = resting).
Proof.
  induction fs as [|f fs IH]; intros e m Hm Hr Hy Hall; cbv zeta.
  - cbn. unfold offset_of. rewrite Hm. split; [reflexivity|congruence].
  - inversion Hall as [|f0 fs0 Hf Hfs]; subst.
    rewrite run_cons. cbn [fst].
    destruct (step_quiet hasAction f e m Hm Hf) as (_ & _ & Er & Hcase).
    cbv zeta in Er, Hcase.
    apply Qltb_true in Hr. rewrite Hr in Er, Hcase.
    case_Qltb (position_y m) (position_y m); [lra|].
    destruct Hcase as [Hs' Hm'].
    destruct (IH _ _ Hm') as [Hoff Hst]; [rewrite Er; exact Hy|exact Hy|exact Hfs|].
    cbv zeta in Hoff, Hst. split; [exact Hoff|].
    intros _. destruct fs as [|f1 fs']; [exact Hs'|].
    apply Hst. discriminate.
Qed.

(** C6, amended.  Take a button whose resting height is set ([restingY] is
    not negative).  On a frame where hands are tracked but no fingertip
    position resolves, no intrusion is counted, no action is called and the
    resting height is kept; a button below its resting height moves up by
    [recoverySpeed * dt] and is [recovering], any other is put on its
    resting height and is [resting]; and when every such frame advances by
    at least [s > 0], the button is [resting] at its resting height after
    finitely many of them. *)
Theorem unresolved_fingertip_is_release (hasAction : bool) (e : Entity)
    (m : Object3D) (s : Q) :
  object3D e = Some m ->
  0 <= restingY (button e) ->
  0 < s ->
  (forall hands, unresolved hands ->
     pressingDistances (button e) m (index e) hands = [])
  /\ (forall f, quiet f ->
       let e' := fst (step hasAction f e) in
       snd (step hasAction f e) = false
       /\ restingY (button e') = restingY (button e)
       /\ (position_y m < restingY (button e) ->
           state_of e' = recovering
           /\ offset_of e' = position_y m + recoverySpeed (button e) * delta f)
       /\ (restingY (button e) <= position_y m ->
           state_of e' = resting /\ offset_of e' = restingY (button e)))
  /\ exists N : nat, forall fs : list Frame,
       Forall (fun f => quiet f /\ s <= recoverySpeed (button e) * delta f) fs ->
       (N < length fs)%nat ->
       state_of (fst (run hasAction fs e)) = resting
       /\ offset_of (fst (run hasAction fs e)) == restingY (button e).
Proof.
  intros Hm Hr Hs. split; [|split].
  - intros hands Hq. apply pressingDistances_unresolved, Hq.
  - intros f Hq e'. subst e'.
    destruct (step_quiet hasAction f e m Hm Hq) as (Hfired & _ & Er & Hcase).
    cbv zeta in Er, Hcase.
    assert (Hoff : Qltb (restingY (button e)) 0 = false)
      by (apply Qltb_false; exact Hr).
    rewrite Hoff in Er, Hcase.
    split; [exact Hfired|]. split; [exact Er|].
    unfold offset_of.
    case_Qltb (position_y m) (restingY (button e));
      destruct Hcase as [Hs' Hm']; rewrite Hm'; cbn [position_y];
      split; intros H; try (split; [exact Hs'|reflexivity]); lra.
  - destruct (enough_steps (restingY (button e) - position_y m) s Hs)
      as [N HN].
    exists N. intros fs Hall Hlen.
    destruct (recovers_within hasAction s N fs e m Hm Hall HN Hlen)
      as [Hst Hoff].
    split; [exact Hst|].
    rewrite Hoff, (quiet_keeps_restingY hasAction fs e m Hm Hr); [reflexivity|].
    eapply List.Forall_impl; [|exact Hall]. cbn. tauto.
Qed.

(** The fully pressed panel button, with frames whose fingertip is lost. *)
Lemma unresolved_fingertip_is_release_witness :
  exists N : nat, forall fs : list Frame,
    Forall (fun f => quiet f
                     /\ (1 # 1000) <= recoverySpeed (button heldButton) * delta f)
           fs ->
    (N < length fs)%nat ->
    state_of (fst (run true fs heldButton)) = resting
    /\ offset_of (fst (run true fs heldButton)) == 0.
Proof.
  refine (proj2 (proj2 (unresolved_fingertip_is_release true heldButton
                          {| position_y := -(2 # 100); geometryTopY := None |}
                          (1 # 1000) eq_refl _ eq_refl))).
  vm_compute. discriminate.
Defined.

(** C6 as stated fails when no hand is present: [update] returns before it
    reaches the buttons, so the fully pressed panel button stays fully
    pressed at its floor, and is read as held down, for any number of such
    frames. *)
Lemma no_hands_freezes_held_button :
  state_of heldButton = fully_pressed
  /\ offset_of heldButton < restingY (button heldButton)
  /\ forall n : nat,
       fst (run true (repeat no_hands n) heldButton) = heldButton
       /\ getButtonState (Some (fst (run true (repeat no_hands n) heldButton)))
          = true.
Proof.
  split; [reflexivity|]. split; [reflexivity|].
  assert (H : forall n, fst (run true (repeat no_hands n) heldButton) = heldButton).
  { induction n as [|n IH]; [reflexivity|].
    cbn [repeat]. rewrite run_cons. cbn [fst].
    rewrite step_skipped by reflexivity. exact IH. }
  intros n. rewrite H. split; reflexivity.
Qed.

Lemma heldButton_reached : fst (run true [press_deep] panelButton) = heldButton.
Proof. vm_compute. reflexivity. Qed.

(** ** Touching the surface *)

Lemma zero_depth_touch_counts (b : Button) (m : Object3D) (idx : nat)
    (h : Hand) :
  zero_depth_touch b m idx h ->
  exists d, pressingDistance_of b m idx h = Some d /\ d == 0.
Proof.
  intros (contact & Hc & Hin & Hlo & Hhi).
  unfold pressingDistance_of. rewrite Hc. cbv zeta. rewrite Hin.
  apply Qltb_true in Hlo. rewrite Hlo.
  eexists. split; [reflexivity|].
  destruct (Q.max_spec 0 (buttonSurfaceY b m - localPos_y (contact idx)))
    as [[Hlt _]|[_ E]]; [lra|exact E].
Qed.

Lemma pressingDistances_all_zero (b : Button) (m : Object3D) (idx : nat)
    (hands : list Hand) :
  Forall (fun h => zero_depth_touch b m idx h
                   \/ pressingDistance_of b m idx h = None) hands ->
  Forall (fun d => d == 0) (pressingDistances b m idx hands).
Proof.
  induction 1 as [|h hands Hh _ IH]; [constructor|].
  cbn. destruct Hh as [Hz|Hn].
  - destruct (zero_depth_touch_counts b m idx h Hz) as (d & -> & Hd).
    constructor; assumption.
  - rewrite Hn. exact IH.
Qed.

Lemma pressingDistances_touched (b : Button) (m : Object3D) (idx : nat)
    (hands : list Hand) :
  Exists (zero_depth_touch b m idx) hands ->
  pressingDistances b m idx hands <> [].
Proof.
  induction 1 as [h hands Hz|h hands _ IH]; cbn.
  - destruct (zero_depth_touch_counts b m idx h Hz) as (d & -> & _).
    discriminate.
  - destruct (pressingDistance_of b m idx h); [discriminate|exact IH].
Qed.

Lemma Math_max_zero (ds : list Q) :
  forall x, x == 0 -> Forall (fun d => d == 0) ds -> Math_max x ds == 0.
Proof.
  unfold Math_max. induction ds as [|d ds IH]; intros x Hx Hall; [exact Hx|].
  inversion Hall as [|d0 ds0 Hd Hds]; subst. cbn. apply IH; [|exact Hds].
  destruct (Q.max_spec x d) as [[_ E]|[_ E]]; rewrite E; assumption.
Qed.

(** C9, amended.  On a frame where some fingertip touches the button within
    the tolerance band and no fingertip presses deeper, every recorded
    pressing distance is 0 and [getButtonState] reports the button as held
    down.  A button above its floor (its resting height less
    [fullPressDistance]) is set to [pressed] with its offset unchanged, and
    no action is called.  A button at or below its floor is set to
    [fully_pressed] and put on its floor, and its action is called if it
    has one, it was not [fully_pressed] before and its flag is clear. *)
Theorem zero_depth_touch_reads_as_down (hasAction : bool) (f : Frame)
    (e : Entity) (m : Object3D) (hands : list Hand) :
  object3D e = Some m ->
  tracked_hands f = Some hands ->
  Exists (zero_depth_touch (button e) m (index e)) hands ->
  Forall (fun h => zero_depth_touch (button e) m (index e) h
                   \/ pressingDistance_of (button e) m (index e) h = None)
         hands ->
  let floorY := resting_height (button e) m - fullPressDistance (button e) in
  let e' := fst (step hasAction f e) in
  Forall (fun d => d == 0) (pressingDistances (button e) m (index e) hands)
  /\ getButtonState (Some e') = true
  /\ (floorY < position_y m ->
      state_of e' = pressed
      /\ offset_of e' = position_y m
      /\ snd (step hasAction f e) = false)
  /\ (position_y m <= floorY ->
      state_of e' = fully_pressed
      /\ offset_of e' = floorY
      /\ (snd (step hasAction f e) = true <->
          hasAction = true /\ state_of e <> fully_pressed
          /\ actionTriggered (button e) = false)).
Proof.
  intros Hm Hh Hex Hall floorY e'. subst e' floorY.
  pose proof (pressingDistances_all_zero _ _ _ _ Hall) as Hzero.
  pose proof (pressingDistances_touched _ _ _ _ Hex) as Hne.
  split; [exact Hzero|].
  unfold step. rewrite Hh.
  destruct (update_entity_eq (delta f) hands hasAction e m Hm)
    as (y' & curr & Hp & ->).
  cbn zeta in Hp.
  destruct (pressingDistances (button e) m (index e) hands) as [|d ds];
    [congruence|].
  inversion Hzero as [|d0 ds0 Hd Hds]; subst.
  pose proof (Math_max_zero ds d Hd Hds) as Hmax.
  unfold press_or_recover in Hp. cbv zeta in Hp.
  cbn [restingY fullPressDistance] in Hp.
  assert (H0 : Qltb 0 (Math_max d ds) = false) by (apply Qltb_false; lra).
  rewrite H0 in Hp.
  fold (resting_height (button e) m) in Hp.
  unfold state_of, offset_of, getButtonState.
  cbn [fst snd object3D button currState position_y].
  case_Qle_bool (position_y m)
    (resting_height (button e) m - fullPressDistance (button e));
    inversion Hp; subst y' curr.
  - split; [reflexivity|]. split; [intros H; lra|]. intros _.
    split; [reflexivity|]. split; [reflexivity|].
    rewrite trigger_action_fired. unfold state_of. tauto.
  - split; [reflexivity|]. split; [|intros H; lra]. intros _.
    split; [reflexivity|]. split; [reflexivity|].
    destruct (snd (trigger_action hasAction pressed (currState (button e))
                     (actionTriggered (button e)))) eqn:Hf; [|reflexivity].
    apply trigger_action_fired in Hf. destruct Hf as [Hf _]. discriminate Hf.
Qed.

(** The resting panel button with a fingertip one millimetre above its
    surface. *)
Lemma zero_depth_touch_reads_as_down_witness :
  let e' := fst (step true graze panelButton) in
  Forall (fun d => d == 0)
    (pressingDistances (button panelButton)
       {| position_y := 0; geometryTopY := None |} (index panelButton)
       [fingertip_at (51 # 1000)])
  /\ getButtonState (Some e') = true
  /\ state_of e' = pressed
  /\ offset_of e' = 0
  /\ snd (step true graze panelButton) = false.
Proof.
  assert (Hz : zero_depth_touch (button panelButton)
                 {| position_y := 0; geometryTopY := None |}
                 (index panelButton) (fingertip_at (51 # 1000))).
  { eexists. split; [reflexivity|]. split; [reflexivity|].
    split; vm_compute; [reflexivity|discriminate]. }
  destruct (zero_depth_touch_reads_as_down true graze panelButton
              {| position_y := 0; geometryTopY := None |}
              [fingertip_at (51 # 1000)] eq_refl eq_refl)
    as (Hzero & Hdown & Habove & _).
  - constructor. exact Hz.
  - constructor; [left; exact Hz|constructor].
  - split; [exact Hzero|]. split; [exact Hdown|].
    apply Habove. vm_compute. reflexivity.
Defined.

(** C9 as stated fails for a button at its floor.  The fully pressed panel
    button, touched one millimetre above its surface, is set to
    [fully_pressed], not to [pressed]; and after a frame of no duration
    with the finger away, which leaves the button [recovering] at its
    floor, the same touch calls the action again. *)
Lemma touch_at_floor_is_full_press :
  zero_depth_touch (button heldButton)
    {| position_y := -(2 # 100); geometryTopY := None |} (index heldButton)
    (fingertip_at (51 # 1000))
  /\ state_of (fst (step true graze heldButton)) = fully_pressed
  /\ state_of (fst (step true graze heldButton)) <> pressed
  /\ state_of (fst (run true [press_deep; hover_still] panelButton))
     = recovering
  /\ snd (run true [press_deep; hover_still; graze] panelButton)
     = [true; false; true].
Proof.
  split.
  { eexists. split; [reflexivity|]. split; [reflexivity|].
    split; vm_compute; [reflexivity|discriminate]. }
  vm_compute. repeat split; try reflexivity. discriminate.
Qed.

(** ** The press of the specification, and the read-out *)

(** Scenario A of the specification: pressed 0.03 deep, the panel button is
    fully pressed at its floor -0.02 and its action is called once; with
    the finger withdrawn it is recovering, then resting at height 0. *)
Lemma scenario_A :
  let pressed1 := run true [press_deep; press_deep] panelButton in
  let released1 := run true [press_deep; press_deep; hover] panelButton in
  let released5 :=
    run true [press_deep; press_deep; hover; hover; hover; hover; hover]
      panelButton in
  state_of (fst pressed1) = fully_pressed
  /\ offset_of (fst pressed1) == -(2 # 100)
  /\ snd pressed1 = [true; false]
  /\ state_of (fst released1) = recovering
  /\ state_of (fst released5) = resting
  /\ offset_of (fst released5) == 0
  /\ snd released5 = [true; false; false; false; false; false; false].
Proof. vm_compute. repeat split; reflexivity. Qed.

(** The fully pressed panel button over frames whose hand has no
    resolvable fingertip: recovering, then resting at height 0. *)
Lemma lost_fingertip_releases_held_button :
  state_of (fst (run true [tip_lost] heldButton)) = recovering
  /\ state_of (fst (run true [tip_lost; tip_lost; tip_lost; tip_lost; tip_lost]
                      heldButton)) = resting
  /\ offset_of (fst (run true [tip_lost; tip_lost; tip_lost; tip_lost; tip_lost]
                       heldButton)) == 0.
Proof. vm_compute. repeat split; reflexivity. Qed.

(** The read-out of the emulator: a button is down exactly in the states
    [pressed] and [fully_pressed]. *)
Lemma getButtonState_down (e : Entity) :
  getButtonState (Some e) = true <->
  state_of e = pressed \/ state_of e = fully_pressed.
Proof.
  unfold getButtonState, state_of.
  destruct (currState (button e)); vm_compute; intuition congruence.
Qed.

(** X3.  The flag that blocks repeated calls is set only while the button is
    fully pressed, on every frame of every run. *)
Lemma run_flag_sound (hasAction : bool) (fs : list Frame) (e : Entity) :
  flag_sound e -> flag_sound (fst (run hasAction fs e)).
Proof.
  revert e. induction fs as [|f fs IH]; intros e He; [exact He|].
  rewrite run_cons. cbn [fst]. apply IH, step_flag_sound, He.
Qed.

Lemma run_flag_sound_witness :
  flag_sound (fst (run true [press_deep; hover; press_deep] panelButton)).
Proof.
  apply (run_flag_sound true [press_deep; hover; press_deep] panelButton).
  intros H. discriminate H.
Defined.

(** ** A press that goes all the way *)

Lemma Math_max_lower (xs : list Q) :
  forall x, x <= Math_max x xs /\ Forall (fun d => d <= Math_max x xs) xs.
Proof.
  unfold Math_max. induction xs as [|d xs IH]; intros x; cbn.
  - split; [lra|constructor].
  - destruct (IH (Qmax x d)) as [H1 H2].
    pose proof (Q.le_max_l x d). pose proof (Q.le_max_r x d).
    split; [lra|]. constructor; [lra|exact H2].
Qed.

Lemma pressingDistances_elem (b : Button) (m : Object3D) (idx : nat)
    (hands : list Hand) (h : Hand) (d : Q) :
  h ∈ hands ->
  pressingDistance_of b m idx h = Some d ->
  In d (pressingDistances b m idx hands).
Proof.
  induction hands as [|h' hands IH]; intros Hin Hd.
  - inversion Hin.
  - cbn. apply elem_of_cons in Hin as [->|Hin].
    + rewrite Hd. now left.
    + destruct (pressingDistance_of b m idx h'); [right|]; apply IH; assumption.
Qed.

(** A counted depth of [fullPressDistance] or more puts the button at its
    floor, fully pressed. *)
Lemma press_or_recover_home (b : Button) (y dt : Q) (ds : list Q) (d : Q) :
  0 < fullPressDistance b ->
  In d ds ->
  fullPressDistance b <= d ->
  press_or_recover b y dt ds
  = (restingY b - fullPressDistance b, fully_pressed).
Proof.
  intros Hfpd Hin Hd. unfold press_or_recover.
  destruct ds as [|d0 ds']; [inversion Hin|]. cbv zeta.
  destruct (Math_max_lower ds' d0) as [H0 Hall].
  assert (Hmax : d <= Math_max d0 ds').
  { destruct Hin as [->|Hin]; [exact H0|].
    rewrite List.Forall_forall in Hall. apply Hall. exact Hin. }
  case_Qltb 0 (Math_max d0 ds'); [|lra].
  pose proof (Q.max_r (restingY b - Math_max d0 ds')
                (restingY b - fullPressDistance b) ltac:(lra)) as E.
  case_Qle_bool (Qmax (restingY b - Math_max d0 ds')
                   (restingY b - fullPressDistance b))
                (restingY b - fullPressDistance b); [reflexivity|lra].
Qed.

(** What a press that goes all the way leaves behind. *)
Lemma deep_press_home_step (hasAction : bool) (f : Frame) (e : Entity)
    (m : Object3D) :
  object3D e = Some m ->
  0 < fullPressDistance (button e) ->
  pressed_home e m f ->
  let e' := fst (step hasAction f e) in
  state_of e' = fully_pressed
  /\ object3D e'
     = Some {| position_y := resting_height (button e) m
                             - fullPressDistance (button e);
               geometryTopY := geometryTopY m |}
  /\ restingY (button e') = resting_height (button e) m
  /\ index e' = index e
  /\ surfaceY (button e') = surfaceY (button e)
  /\ fullPressDistance (button e') = fullPressDistance (button e).
Proof.
  intros Hm Hfpd (hands & h & d & Hf & Hin & Hd & Hdeep). cbv zeta.
  unfold step. rewrite Hf.
  destruct (update_entity_eq (delta f) hands hasAction e m Hm)
    as (y' & curr & Hp & ->).
  cbv zeta in Hp.
  rewrite (press_or_recover_home _ _ _ _ d) in Hp;
    [|exact Hfpd|apply (pressingDistances_elem _ _ _ _ h); assumption
     |exact Hdeep].
  inversion Hp; subst y' curr. clear Hp.
  cbn. unfold resting_height. repeat split; reflexivity.
Qed.

(** X1.  A press that goes all the way.  On a frame that reaches the buttons, if
    some fingertip is counted on a button at a depth of [fullPressDistance]
    or more (with [fullPressDistance > 0]), the button is [fully_pressed]
    and sits exactly [fullPressDistance] below the resting height the frame
    works with, however deep the finger is; and the action is called on
    that frame exactly when one is registered, the button was not
    [fully_pressed] before and its flag is clear. *)
Theorem deep_press_bottoms_out (hasAction : bool) (f : Frame) (e : Entity)
    (m : Object3D) :
  object3D e = Some m ->
  0 < fullPressDistance (button e) ->
  pressed_home e m f ->
  let e' := fst (step hasAction f e) in
  state_of e' = fully_pressed
  /\ object3D e'
     = Some {| position_y := resting_height (button e) m
                             - fullPressDistance (button e);
               geometryTopY := geometryTopY m |}
  /\ restingY (button e') = resting_height (button e) m
  /\ (snd (step hasAction f e) = true <->
      hasAction = true /\ state_of e <> fully_pressed
      /\ actionTriggered (button e) = false).
Proof.
  intros Hm Hfpd (hands & h & d & Hf & Hin & Hd & Hdeep). cbv zeta.
  unfold step. rewrite Hf.
  destruct (update_entity_eq (delta f) hands hasAction e m Hm)
    as (y' & curr & Hp & ->).
  cbv zeta in Hp.
  rewrite (press_or_recover_home _ _ _ _ d) in Hp;
    [|exact Hfpd|apply (pressingDistances_elem _ _ _ _ h); assumption
     |exact Hdeep].
  inversion Hp; subst y' curr. clear Hp.
  cbn [fst snd state_of button currState object3D restingY].
  unfold resting_height.
  split; [reflexivity|]. split; [reflexivity|]. split; [reflexivity|].
  rewrite trigger_action_fired. unfold state_of. intuition congruence.
Qed.

Lemma press_deep_home :
  pressed_home panelButton {| position_y := 0; geometryTopY := None |}
    press_deep.
Proof.
  exists [fingertip_at (2 # 100)], (fingertip_at (2 # 100)), (300 # 10000).
  split; [reflexivity|]. split; [apply list_elem_of_singleton; reflexivity|].
  split; [vm_compute; reflexivity|]. cbn. lra.
Qed.

Lemma deep_press_bottoms_out_witness :
  let e' := fst (step true press_deep panelButton) in
  state_of e' = fully_pressed
  /\ object3D e'
     = Some {| position_y :=
                 resting_height (button panelButton)
                   {| position_y := 0; geometryTopY := None |}
                 - fullPressDistance (button panelButton);
               geometryTopY := None |}
  /\ restingY (button e')
     = resting_height (button panelButton)
         {| position_y := 0; geometryTopY := None |}
  /\ (snd (step true press_deep panelButton) = true <->
      true = true /\ state_of panelButton <> fully_pressed
      /\ actionTriggered (button panelButton) = false).
Proof.
  apply (deep_press_bottoms_out true press_deep panelButton
           {| position_y := 0; geometryTopY := None |}).
  - reflexivity.
  - cbn. lra.
  - exact press_deep_home.
Defined.

(** ** One call per press *)

Lemma calls_cons (fired : bool) (log : list bool) :
  calls (fired :: log) = ((if fired then 1 else 0) + calls log)%nat.
Proof.
  unfold calls. rewrite filter_cons.
  destruct fired; [rewrite decide_True by reflexivity
                  |rewrite decide_False by discriminate]; reflexivity.
Qed.

(** X2.  One call per press.  For a button whose flag is sound (as that of a new
    button is), over any sequence of frames, the number of calls of a
    registered action is the number of frames on which the button enters
    [fully_pressed]; without a registered action nothing is called. *)
Theorem one_call_per_press (hasAction : bool) (fs : list Frame) (e : Entity) :
  flag_sound e ->
  calls (snd (run hasAction fs e))
  = if hasAction then entries hasAction fs e else 0%nat.
Proof.
  revert e. induction fs as [|f fs IH]; intros e He.
  - cbn. destruct hasAction; reflexivity.
  - rewrite run_cons. cbn [snd entries]. rewrite calls_cons.
    rewrite (IH _ (step_flag_sound hasAction f e He)).
    destruct hasAction.
    + f_equal.
      destruct (snd (step true f e)) eqn:Hfired.
      * apply step_fired in Hfired as (H1 & H2 & _).
        rewrite bool_decide_eq_true_2 by (split; assumption). reflexivity.
      * case_bool_decide as Hentry; [|reflexivity].
        destruct Hentry as [H1 H2].
        rewrite (step_rising_edge_fires f e He H1 H2) in Hfired. discriminate.
    + destruct (snd (step false f e)) eqn:Hfired; [|reflexivity].
      apply step_fired in Hfired as (_ & _ & H). discriminate.
Qed.

Lemma one_call_per_press_witness :
  calls (snd (run true [press_deep; press_deep; hover; press_deep] panelButton))
  = entries true [press_deep; press_deep; hover; press_deep] panelButton.
Proof.
  apply (one_call_per_press true
           [press_deep; press_deep; hover; press_deep] panelButton).
  intros H. discriminate H.
Defined.

(** ** A button below height zero *)

Lemma pressed_home_same (e e1 : Entity) (m m1 : Object3D) (f : Frame) :
  index e1 = index e ->
  surfaceY (button e1) = surfaceY (button e) ->
  fullPressDistance (button e1) = fullPressDistance (button e) ->
  geometryTopY m1 = geometryTopY m ->
  pressed_home e m f -> pressed_home e1 m1 f.
Proof.
  intros Hi Hs Hfpd Hg (hands & h & d & Hf & Hin & Hd & Hdeep).
  exists hands, h, d. split; [exact Hf|]. split; [exact Hin|].
  rewrite Hfpd. split; [|exact Hdeep].
  unfold pressingDistance_of, buttonSurfaceY in *. rewrite Hi, Hs, Hg.
  exact Hd.
Qed.

(** X8.  A button below height zero sinks.  A negative [restingY] reads as "not
    initialised", so for a button whose mesh sits at a negative height the
    resting height is taken anew from the current offset on every frame.
    Pressed all the way on consecutive frames, such a button moves down by
    [fullPressDistance] on each of them, without bound. *)
Theorem negative_rest_height_sinks (hasAction : bool) (fs : list Frame) :
  forall (e : Entity) (m : Object3D),
    object3D e = Some m ->
    restingY (button e) < 0 ->
    position_y m < 0 ->
    0 < fullPressDistance (button e) ->
    Forall (pressed_home e m) fs ->
    let e' := fst (run hasAction fs e) in
    offset_of e'
    == position_y m
       - inject_Z (Z.of_nat (length fs)) * fullPressDistance (button e)
    /\ restingY (button e') < 0
    /\ (fs <> [] -> state_of e' = fully_pressed).
Proof.
  induction fs as [|f fs IH]; intros e m Hm Hr Hy Hfpd Hall; cbv zeta.
  - cbn [run fst length]. unfold offset_of. rewrite Hm.
    change (inject_Z (Z.of_nat 0)) with 0. split; [lra|]. split; [exact Hr|].
    intros H. contradiction.
  - inversion Hall as [|? ? Hf Hrest]; subst.
    rewrite run_cons. cbn [fst].
    destruct (deep_press_home_step hasAction f e m Hm Hfpd Hf)
      as (Hstate & Hobj & Hrest' & Hidx & Hsurf & Hfpd').
    unfold resting_height in Hobj, Hrest'.
    apply Qltb_true in Hr. rewrite Hr in Hobj, Hrest'.
    apply Qltb_true in Hr.
    set (e1 := fst (step hasAction f e)) in *.
    set (m1 := {| position_y := position_y m - fullPressDistance (button e);
                  geometryTopY := geometryTopY m |}) in *.
    assert (Hall1 : Forall (pressed_home e1 m1) fs).
    { eapply List.Forall_impl; [|exact Hrest]. intros f0.
      apply pressed_home_same; try assumption. reflexivity. }
    destruct (IH e1 m1 Hobj) as (Hoff & Hneg & Hst); try assumption.
    + rewrite Hrest'. exact Hy.
    + cbn. lra.
    + rewrite Hfpd'. exact Hfpd.
    + cbv zeta in Hoff, Hneg, Hst. split; [|split].
      * rewrite Hoff, Hfpd'. cbn [position_y m1 length].
        rewrite Nat2Z.inj_succ, <- Z.add_1_r, inject_Z_plus.
        change (inject_Z 1) with 1. ring.
      * exact Hneg.
      * intros _. destruct fs as [|f1 fs']; [exact Hstate|].
        apply Hst. discriminate.
Qed.

Lemma lowButton_pressed_home :
  pressed_home lowButton {| position_y := -(1 # 10); geometryTopY := None |}
    press_deep.
Proof.
  exists [fingertip_at (2 # 100)], (fingertip_at (2 # 100)), (300 # 10000).
  split; [reflexivity|]. split; [apply list_elem_of_singleton; reflexivity|].
  split; [vm_compute; reflexivity|]. cbn. lra.
Qed.

Lemma negative_rest_height_sinks_witness :
  let e' := fst (run true [press_deep; press_deep; press_deep] lowButton) in
  offset_of e'
  == -(1 # 10)
     - inject_Z (Z.of_nat (length [press_deep; press_deep; press_deep]))
       * fullPressDistance (button lowButton)
  /\ restingY (button e') < 0
  /\ ([press_deep; press_deep; press_deep] <> [] -> state_of e' = fully_pressed).
Proof.
  apply (negative_rest_height_sinks true [press_deep; press_deep; press_deep]
           lowButton {| position_y := -(1 # 10); geometryTopY := None |}).
  - reflexivity.
  - reflexivity.
  - reflexivity.
  - reflexivity.
  - repeat constructor; exact lowButton_pressed_home.
Defined.

(** ** The resting height *)

(** What a frame does to the resting height and to the configuration. *)
Lemma step_resting (hasAction : bool) (f : Frame) (e : Entity) (m : Object3D) :
  object3D e = Some m ->
  let e' := fst (step hasAction f e) in
  (exists m', object3D e' = Some m')
  /\ index e' = index e
  /\ surfaceY (button e') = surfaceY (button e)
  /\ recoverySpeed (button e') = recoverySpeed (button e)
  /\ fullPressDistance (button e') = fullPressDistance (button e)
  /\ restingY (button e')
     = (if reached f then resting_height (button e) m else restingY (button e)).
Proof.
  intros Hm. cbv zeta. unfold step, reached.
  destruct (tracked_hands f) as [hands|].
  - destruct (update_entity_eq (delta f) hands hasAction e m Hm)
      as (y' & curr & _ & ->).
    cbn. unfold resting_height. repeat split. eauto.
  - cbn. repeat split. eauto.
Qed.

(** X29.  The resting height is captured once.  For a button with an object
    whose resting height, as the first frame would take it, is not
    negative (its [restingY] is set, or its mesh is at height 0 or above),
    [restingY] after any sequence of frames is that height as soon as one
    frame has reached the buttons, and is untouched before; the index,
    [surfaceY], [recoverySpeed] and [fullPressDistance] never change. *)
Theorem resting_height_is_captured_once (hasAction : bool) (fs : list Frame) :
  forall (e : Entity) (m : Object3D),
    object3D e = Some m ->
    0 <= resting_height (button e) m ->
    let e' := fst (run hasAction fs e) in
    restingY (button e')
    = (if existsb reached fs then resting_height (button e) m
       else restingY (button e))
    /\ index e' = index e
    /\ surfaceY (button e') = surfaceY (button e)
    /\ recoverySpeed (button e') = recoverySpeed (button e)
    /\ fullPressDistance (button e') = fullPressDistance (button e).
Proof.
  induction fs as [|f fs IH]; intros e m Hm Hrh; cbv zeta.
  - cbn. repeat split.
  - rewrite run_cons. cbn [fst existsb].
    destruct (step_resting hasAction f e m Hm)
      as ([m1 Hm1] & Hi & Hs & Hr & Hd & Hrest).
    cbv zeta in Hm1, Hi, Hs, Hr, Hd, Hrest.
    set (e1 := fst (step hasAction f e)) in *.
    assert (Hrh1 : resting_height (button e1) m1
                   = (if reached f then resting_height (button e) m
                      else resting_height (button e1) m1)
                   /\ 0 <= resting_height (button e1) m1).
    { unfold resting_height at 1 3 4. rewrite Hrest.
      destruct (reached f) eqn:Hreach.
      - case_Qltb (resting_height (button e) m) 0; [lra|].
        split; [reflexivity|exact Hrh].
      - split; [reflexivity|].
        assert (E : e1 = e).
        { subst e1. unfold step, reached in *.
          destruct (tracked_hands f); [discriminate|reflexivity]. }
        rewrite E in Hm1. rewrite Hm in Hm1. inversion Hm1; subst m1.
        exact Hrh. }
    destruct Hrh1 as [Erh Hpos].
    destruct (IH e1 m1 Hm1 Hpos) as (Gr & Gi & Gs & Gv & Gd).
    cbv zeta in Gr, Gi, Gs, Gv, Gd.
    split; [|repeat split; congruence].
    rewrite Gr. destruct (reached f) eqn:Hreach; cbn [orb].
    + rewrite Erh, Hrest. destruct (existsb reached fs); reflexivity.
    + assert (E : e1 = e).
      { subst e1. unfold step, reached in *.
        destruct (tracked_hands f); [discriminate|reflexivity]. }
      rewrite E in Hm1. rewrite Hm in Hm1. inversion Hm1; subst m1.
      rewrite E. reflexivity.
Qed.

Lemma resting_height_is_captured_once_witness :
  let e' := fst (run true [no_hands; press_deep; hover]
                   {| index := 0%nat;
                      object3D := Some {| position_y := 3 # 10;
                                          geometryTopY := None |};
                      button := defaultButton |}) in
  restingY (button e')
  = (if existsb reached [no_hands; press_deep; hover]
     then resting_height defaultButton
            {| position_y := 3 # 10; geometryTopY := None |}
     else restingY defaultButton)
  /\ index e' = 0%nat
  /\ surfaceY (button e') = surfaceY defaultButton
  /\ recoverySpeed (button e') = recoverySpeed defaultButton
  /\ fullPressDistance (button e') = fullPressDistance defaultButton.
Proof.
  apply (resting_height_is_captured_once true [no_hands; press_deep; hover]
           {| index := 0%nat;
              object3D := Some {| position_y := 3 # 10;
                                  geometryTopY := None |};
              button := defaultButton |}
           {| position_y := 3 # 10; geometryTopY := None |}).
  - reflexivity.
  - vm_compute. discriminate.
Defined.

End ButtonFacts.

(* ===================================================================== *)
(** * Properties of distances *)
(* ===================================================================== *)

Module VectorFacts.
Import XR.
Local Open Scope R_scope.

Lemma sum_of_squares_nonneg (a b c : R) : 0 <= a * a + b * b + c * c.
Proof. nra. Qed.

Lemma distanceTo_nonneg (a b : Vector3) : 0 <= distanceTo a b.
Proof. unfold distanceTo. apply sqrt_pos. Qed.

Lemma distanceTo_self (c : Vector3) : distanceTo c c = 0.
Proof.
  unfold distanceTo. cbv zeta.
  replace ((vx c - vx c) * (vx c - vx c) + (vy c - vy c) * (vy c - vy c)
           + (vz c - vz c) * (vz c - vz c)) with 0 by ring.
  apply sqrt_0.
Qed.

(** [lerp] towards [c] scales the distance to [c] by [|1 - alpha|]. *)
Lemma distanceTo_lerp (p c : Vector3) (alpha : R) :
  distanceTo (lerp p c alpha) c = Rabs (1 - alpha) * distanceTo p c.
Proof.
  unfold distanceTo, lerp. cbn [vx vy vz]. cbv zeta.
  set (sq := (vx p - vx c) * (vx p - vx c) + (vy p - vy c) * (vy p - vy c)
            + (vz p - vz c) * (vz p - vz c)).
  assert (HS : 0 <= sq) by apply sum_of_squares_nonneg.
  replace (_ + _ + _) with (Rsqr (1 - alpha) * sq)
    by (subst sq; unfold Rsqr; ring).
  rewrite sqrt_mult by (try apply Rle_0_sqr; assumption).
  rewrite sqrt_Rsqr_abs. reflexivity.
Qed.

(** Along the x axis the distance is the absolute difference. *)
Lemma distanceTo_x (a b y z : R) :
  distanceTo {| vx := a; vy := y; vz := z |} {| vx := b; vy := y; vz := z |}
  = Rabs (a - b).
Proof.
  unfold distanceTo. cbn [vx vy vz]. cbv zeta.
  replace (_ + _ + _) with (Rsqr (a - b)) by (unfold Rsqr; ring).
  apply sqrt_Rsqr_abs.
Qed.

End VectorFacts.

(* ===================================================================== *)
(** * Properties of StickGrabSystem *)
(* ===================================================================== *)

Module StickGrabFacts.
Import XR StickGrabSystem GrabScenes VectorFacts.
Local Open Scope R_scope.

(** ** The nearest candidate *)

Lemma insert_by_distance_elem (c x : Candidate) (l : list Candidate) :
  x ∈ insert_by_distance c l <-> x = c \/ x ∈ l.
Proof.
  induction l as [|d l IH]; cbn.
  - rewrite list_elem_of_singleton, elem_of_nil. tauto.
  - destruct (Rle_dec (distance c) (distance d)).
    + rewrite !elem_of_cons. tauto.
    + rewrite !elem_of_cons, IH. tauto.
Qed.

Lemma sort_by_distance_elem (x : Candidate) (l : list Candidate) :
  x ∈ sort_by_distance l <-> x ∈ l.
Proof.
  induction l as [|c l IH]; cbn; [tauto|].
  rewrite insert_by_distance_elem, elem_of_cons, IH. tauto.
Qed.

Lemma insert_by_distance_head (c : Candidate) (l : list Candidate) :
  head_nearest l -> head_nearest (insert_by_distance c l).
Proof.
  destruct l as [|d l]; cbn.
  - intros _ x Hx. apply list_elem_of_singleton in Hx. subst x. lra.
  - intros Hd. destruct (Rle_dec (distance c) (distance d)) as [Hle|Hgt].
    + intros x Hx. apply elem_of_cons in Hx as [->|Hx]; [lra|].
      specialize (Hd x Hx). cbn in *. lra.
    + intros x Hx. cbn. apply elem_of_cons in Hx as [->|Hx]; [lra|].
      apply insert_by_distance_elem in Hx as [->|Hx]; [lra|].
      apply Hd. apply elem_of_cons. tauto.
Qed.

Lemma sort_by_distance_head (l : list Candidate) :
  head_nearest (sort_by_distance l).
Proof.
  induction l as [|c l IH]; cbn; [exact I|].
  apply insert_by_distance_head, IH.
Qed.

Lemma candidate_of_Some (p : Vector3) (e : Entity) (c : Candidate) :
  candidate_of p e = Some c <->
  attached (grab e) = false
  /\ exists q, object3D e = Some q
               /\ c = {| entity := e; distance := distanceTo q p |}.
Proof.
  unfold candidate_of. destruct (attached (grab e)).
  - split; [discriminate|]. intros [H _]. discriminate H.
  - destruct (object3D e) as [q|].
    + split.
      * intros [= <-]. eauto.
      * intros (_ & q' & [= <-] & ->). reflexivity.
    + split; [discriminate|]. intros (_ & q' & H & _). discriminate H.
Qed.

Lemma availableSticks_head (p : Vector3) (es : list Entity) (c : Candidate)
    (rest : list Candidate) :
  availableSticks p es = c :: rest ->
  entity c ∈ es
  /\ nearest_unattached p es (entity c)
  /\ exists q, object3D (entity c) = Some q /\ distance c = distanceTo q p.
Proof.
  intros Heq. unfold availableSticks in Heq.
  pose proof (sort_by_distance_head (omap (candidate_of p) es)) as Hhead.
  rewrite Heq in Hhead. cbn in Hhead.
  assert (Hc : c ∈ omap (candidate_of p) es).
  { apply sort_by_distance_elem. rewrite Heq. apply elem_of_cons. tauto. }
  apply list_elem_of_omap in Hc as (e & He & Hce).
  apply candidate_of_Some in Hce as (Ha & q & Hq & ->). cbn.
  split; [exact He|]. split; [|eauto].
  split; [exact Ha|]. exists q. split; [exact Hq|].
  intros e' q' He' Ha' Hq'.
  specialize (Hhead {| entity := e'; distance := distanceTo q' p |}).
  cbn in Hhead. apply Hhead.
  rewrite <- Heq. apply sort_by_distance_elem, list_elem_of_omap.
  exists e'. split; [exact He'|]. apply candidate_of_Some. eauto.
Qed.

(** ** The loop over the hands *)

Lemma read_select_spec (sources : list InputSource) (side : string)
    (prev : gmap string bool) :
  exists justStopped prev',
    read_select sources side prev
    = (stillSelecting sources side, rising sources prev side, justStopped, prev')
    /\ forall side', side' <> side -> prev' !! side' = prev !! side'.
Proof.
  unfold read_select, rising, stillSelecting.
  destruct (find_source side sources) as [src|]; [destruct (gamepad src)|];
    eexists _, _; (split; [reflexivity|]); intros side' Hne;
    rewrite ?lookup_insert_ne by congruence; reflexivity.
Qed.

Lemma hand_pass_attachMap (sources : list InputSource) (es : list Entity)
    (acc : HandLoop) (h : Hand) :
  attachMap (hand_pass sources es acc h) =
  match claims sources es h with
  | Some idx => <[idx := handedness h]> (attachMap acc)
  | None => attachMap acc
  end.
Proof.
  unfold hand_pass, claims. destruct (gripSpace h) as [p|]; [|reflexivity].
  destruct (read_select_spec sources (handedness h) (loop_previous acc))
    as (js & prev' & -> & _).
  cbn [attachMap]. unfold rising.
  destruct (availableSticks p es) as [|closest rest]; [reflexivity|].
  destruct (stillSelecting sources (handedness h)); cbn; [|reflexivity].
  rewrite orb_true_r.
  destruct (Rlt_dec (distance closest) captureRadius); reflexivity.
Qed.

Lemma hand_pass_other_side (sources : list InputSource) (es : list Entity)
    (acc : HandLoop) (h : Hand) (side : string) :
  side <> handedness h ->
  loop_previous (hand_pass sources es acc h) !! side = loop_previous acc !! side
  /\ loop_selecting (hand_pass sources es acc h) !! side
     = loop_selecting acc !! side.
Proof.
  intros Hne. unfold hand_pass. destruct (gripSpace h) as [p|]; [|tauto].
  destruct (read_select_spec sources (handedness h) (loop_previous acc))
    as (js & prev' & -> & Hprev).
  cbn. rewrite lookup_insert_ne by congruence. split; [|reflexivity].
  apply Hprev, Hne.
Qed.

Lemma hand_pass_own_side (sources : list InputSource) (es : list Entity)
    (acc : HandLoop) (h : Hand) (p : Vector3) :
  gripSpace h = Some p ->
  exists justStopped,
    loop_selecting (hand_pass sources es acc h) !! handedness h
    = Some (rising sources (loop_previous acc) (handedness h), justStopped).
Proof.
  intros Hp. unfold hand_pass. rewrite Hp.
  destruct (read_select_spec sources (handedness h) (loop_previous acc))
    as (js & prev' & -> & _).
  cbn. exists js. apply lookup_insert_eq.
Qed.

Lemma hands_fold_other_sides (sources : list InputSource) (es : list Entity)
    (hands : list Hand) (acc : HandLoop) (side : string) :
  Forall (fun h => handedness h <> side) hands ->
  loop_previous (fold_left (hand_pass sources es) hands acc) !! side
  = loop_previous acc !! side
  /\ loop_selecting (fold_left (hand_pass sources es) hands acc) !! side
     = loop_selecting acc !! side.
Proof.
  revert acc. induction hands as [|h hands IH]; intros acc Hall; [tauto|].
  inversion Hall as [|h0 l0 Hh Hrest]; subst. cbn.
  destruct (IH (hand_pass sources es acc h) Hrest) as [-> ->].
  apply hand_pass_other_side. congruence.
Qed.

(** With one hand per side, the flags stored on a hand whose grip resolves
    are those of this frame, computed against the stored trigger states. *)
Lemma hands_fold_flags (sources : list InputSource) (es : list Entity)
    (hands : list Hand) (acc : HandLoop) (h : Hand) (p : Vector3) :
  NoDup (handedness <$> hands) ->
  h ∈ hands ->
  gripSpace h = Some p ->
  exists justStopped,
    loop_selecting (fold_left (hand_pass sources es) hands acc) !! handedness h
    = Some (rising sources (loop_previous acc) (handedness h), justStopped).
Proof.
  revert acc. induction hands as [|a hands IH]; intros acc Hnd Hin Hp.
  - apply elem_of_nil in Hin. contradiction.
  - rewrite fmap_cons in Hnd. apply NoDup_cons in Hnd as [Hfresh Hnd].
    cbn [fold_left]. apply elem_of_cons in Hin as [->|Hin].
    + assert (Hothers : Forall (fun h => handedness h <> handedness a) hands).
      { apply Forall_forall. intros h' Hh' Heq. apply Hfresh.
        rewrite <- Heq. apply list_elem_of_fmap. eauto. }
      destruct (hands_fold_other_sides sources es hands
                  (hand_pass sources es acc a) _ Hothers) as [_ ->].
      apply (hand_pass_own_side sources es acc a p Hp).
    + assert (Hne : handedness h <> handedness a).
      { intros Heq. apply Hfresh. rewrite <- Heq.
        apply list_elem_of_fmap. eauto. }
      destruct (IH (hand_pass sources es acc a) Hnd Hin Hp) as [js Hjs].
      exists js. rewrite Hjs. unfold rising.
      destruct (hand_pass_other_side sources es acc a _ Hne) as [-> _].
      reflexivity.
Qed.

(** [attachMap] holds, for each stick, the side of the last hand that
    claimed it: a later claim overwrites an earlier one. *)
Lemma hands_fold_attachMap (sources : list InputSource) (es : list Entity)
    (idx : nat) (hands : list Hand) (acc : HandLoop) (side : string) :
  attachMap (fold_left (hand_pass sources es) hands acc) !! idx = Some side <->
  (exists h, last_claimant sources es idx hands h /\ handedness h = side)
  \/ (Forall (fun h' => claims sources es h' <> Some idx) hands
      /\ attachMap acc !! idx = Some side).
Proof.
  revert acc. induction hands as [|a hands IH]; intros acc.
  - cbn. split.
    + intros H. right. split; [constructor|exact H].
    + intros [(h & (pre & post & Heq & _) & _)|[_ H]]; [|exact H].
      destruct pre; discriminate Heq.
  - cbn [fold_left]. rewrite IH. rewrite hand_pass_attachMap. split.
    + intros [(h & (pre & post & -> & Hc & Hpost) & Hs)|[Hnone Hacc]].
      * left. exists h. split; [|exact Hs].
        exists (a :: pre), post. tauto.
      * destruct (claims sources es a) as [j|] eqn:Hca.
        -- destruct (decide (j = idx)) as [->|Hne].
           ++ rewrite lookup_insert_eq in Hacc. left. exists a.
              split; [|congruence]. exists [], hands. tauto.
           ++ rewrite lookup_insert_ne in Hacc by exact Hne. right.
              split; [|exact Hacc]. constructor; [congruence|exact Hnone].
        -- right. split; [|exact Hacc]. constructor; [congruence|exact Hnone].
    + intros [(h & (pre & post & Heq & Hc & Hpost) & Hs)|[Hnone Hacc]].
      * destruct pre as [|a' pre]; cbn in Heq; injection Heq as -> ->.
        -- right. split; [exact Hpost|]. rewrite Hc.
           rewrite lookup_insert_eq. congruence.
        -- left. exists h. split; [|exact Hs]. exists pre, post. tauto.
      * inversion Hnone as [|h0 l0 Ha Hrest]; subst. right.
        split; [exact Hrest|].
        destruct (claims sources es a) as [j|]; [|exact Hacc].
        rewrite lookup_insert_ne by congruence. exact Hacc.
Qed.

(** ** The loop over the sticks *)

Lemma stick_pass_index (sources : list InputSource)
    (flags : gmap string (bool * bool)) (attach owners : gmap nat string)
    (e : Entity) :
  index (fst (stick_pass sources flags attach owners e)) = index e
  /\ object3D (fst (stick_pass sources flags attach owners e)) = object3D e.
Proof.
  unfold stick_pass. destruct (object3D e) as [q|] eqn:Hq;
    [|split; [reflexivity|exact Hq]].
  destruct (attached (grab e)); cbn [negb].
  - destruct (owners !! index e); [destruct (_ || _)|]; split; reflexivity.
  - destruct (attach !! index e) as [hand|];
      [destruct (fst (default (false, false) (flags !! hand)))|]; split; reflexivity.
Qed.

Lemma stick_pass_other_owner (sources : list InputSource)
    (flags : gmap string (bool * bool)) (attach owners : gmap nat string)
    (e : Entity) (j : nat) :
  j <> index e ->
  snd (stick_pass sources flags attach owners e) !! j = owners !! j.
Proof.
  intros Hne. unfold stick_pass. destruct (object3D e); [|reflexivity].
  destruct (attached (grab e)); cbn [negb].
  - destruct (owners !! index e); [|reflexivity].
    destruct (_ || _); cbn; [|reflexivity].
    apply lookup_delete_ne. congruence.
  - destruct (attach !! index e) as [hand|]; [|reflexivity].
    destruct (fst (default (false, false) (flags !! hand))); cbn;
      [|reflexivity].
    apply lookup_insert_ne. congruence.
Qed.

(** An unattached stick with an object is attached exactly when
    [attachMap] names a hand for it whose stored [justStartedSelecting] is
    true; the hand is then recorded as its owner. *)
Lemma stick_pass_unattached (sources : list InputSource)
    (flags : gmap string (bool * bool)) (attach owners : gmap nat string)
    (e : Entity) (q : Vector3) :
  object3D e = Some q ->
  attached (grab e) = false ->
  let r := stick_pass sources flags attach owners e in
  let started :=
    match attach !! index e with
    | Some hand => fst (default (false, false) (flags !! hand))
    | None => false
    end in
  grab (fst r)
  = {| attached := started; justAttached := started; justDetached := false |}
  /\ snd r !! index e
     = (if started then attach !! index e else owners !! index e).
Proof.
  intros Hq Ha. cbv zeta. unfold stick_pass. rewrite Hq, Ha. cbn [negb].
  destruct (attach !! index e) as [hand|]; [|split; reflexivity].
  destruct (fst (default (false, false) (flags !! hand))); cbn;
    [|split; reflexivity].
  rewrite lookup_insert_eq. split; reflexivity.
Qed.

(** Both pulses are cleared and at most one is set again, on the frame of
    the transition it reports. *)
Lemma stick_pass_pulses (sources : list InputSource)
    (flags : gmap string (bool * bool)) (attach owners : gmap nat string)
    (e : Entity) (q : Vector3) :
  object3D e = Some q ->
  let e' := fst (stick_pass sources flags attach owners e) in
  (justAttached (grab e') = true <->
     attached (grab e) = false /\ attached (grab e') = true)
  /\ (justDetached (grab e') = true <->
       attached (grab e) = true /\ attached (grab e') = false).
Proof.
  intros Hq. cbv zeta. unfold stick_pass. rewrite Hq.
  destruct (attached (grab e)); cbn [negb].
  - destruct (owners !! index e); [destruct (_ || _)|]; cbn;
      intuition congruence.
  - destruct (attach !! index e) as [hand|];
      [destruct (fst (default (false, false) (flags !! hand)))|]; cbn;
      intuition congruence.
Qed.

Lemma stick_pass_no_object (sources : list InputSource)
    (flags : gmap string (bool * bool)) (attach owners : gmap nat string)
    (e : Entity) :
  object3D e = None ->
  stick_pass sources flags attach owners e = (e, owners).
Proof. intros Hq. unfold stick_pass. rewrite Hq. reflexivity. Qed.

Lemma sticks_loop_cons (sources : list InputSource)
    (flags : gmap string (bool * bool)) (attach owners : gmap nat string)
    (e : Entity) (es : list Entity) :
  sticks_loop sources flags attach owners (e :: es) =
  let r := stick_pass sources flags attach owners e in
  let rs := sticks_loop sources flags attach (snd r) es in
  (fst r :: fst rs, snd rs).
Proof.
  cbn. destruct (stick_pass _ _ _ _ e) as [e' o1]. cbn.
  destruct (sticks_loop _ _ _ o1 es). reflexivity.
Qed.

(** The loop treats the sticks one by one, in place. *)
Lemma sticks_loop_pointwise (P : Entity -> Entity -> Prop)
    (sources : list InputSource) (flags : gmap string (bool * bool))
    (attach : gmap nat string) (es : list Entity) :
  (forall owners e, P e (fst (stick_pass sources flags attach owners e))) ->
  forall owners,
    Forall2 P es (fst (sticks_loop sources flags attach owners es)).
Proof.
  intros HP. induction es as [|e es IH]; intros owners.
  - constructor.
  - rewrite sticks_loop_cons. cbn. constructor; [apply HP|apply IH].
Qed.

Lemma sticks_loop_other_owner (sources : list InputSource)
    (flags : gmap string (bool * bool)) (attach : gmap nat string)
    (es : list Entity) (j : nat) :
  Forall (fun e => index e <> j) es ->
  forall owners,
    snd (sticks_loop sources flags attach owners es) !! j = owners !! j.
Proof.
  induction 1 as [|e es He _ IH]; intros owners; [reflexivity|].
  rewrite sticks_loop_cons. cbn. rewrite IH.
  apply stick_pass_other_owner. congruence.
Qed.

(** With distinct indices, the stick of a given index after the loop is the
    result of its own pass, run on an owner table that agrees with the
    initial one at that index. *)
Lemma sticks_loop_lookup (sources : list InputSource)
    (flags : gmap string (bool * bool)) (attach : gmap nat string)
    (es : list Entity) (e : Entity) :
  NoDup (index <$> es) ->
  e ∈ es ->
  forall owners, exists owners_e,
    owners_e !! index e = owners !! index e
    /\ List.find (fun x => bool_decide (index x = index e))
         (fst (sticks_loop sources flags attach owners es))
       = Some (fst (stick_pass sources flags attach owners_e e))
    /\ snd (sticks_loop sources flags attach owners es) !! index e
       = snd (stick_pass sources flags attach owners_e e) !! index e.
Proof.
  induction es as [|a es IH]; intros Hnd Hin owners.
  - apply elem_of_nil in Hin. contradiction.
  - rewrite fmap_cons in Hnd. apply NoDup_cons in Hnd as [Hfresh Hnd].
    rewrite sticks_loop_cons. cbn [fst snd].
    apply elem_of_cons in Hin as [->|Hin].
    + exists owners. split; [reflexivity|]. split.
      * cbn [List.find].
        destruct (stick_pass_index sources flags attach owners a) as [-> _].
        rewrite bool_decide_eq_true_2 by reflexivity. reflexivity.
      * apply sticks_loop_other_owner. apply Forall_forall.
        intros x Hx Heq. apply Hfresh. rewrite <- Heq.
        apply list_elem_of_fmap. eauto.
    + assert (Hne : index e <> index a).
      { intros Heq. apply Hfresh. rewrite <- Heq.
        apply list_elem_of_fmap. eauto. }
      destruct (IH Hnd Hin (snd (stick_pass sources flags attach owners a)))
        as (owners_e & Ho & Hfind & Hown).
      exists owners_e. split; [|split].
      * rewrite Ho. apply stick_pass_other_owner, Hne.
      * cbn [List.find].
        destruct (stick_pass_index sources flags attach owners a) as [-> _].
        rewrite bool_decide_eq_false_2 by congruence. exact Hfind.
      * exact Hown.
Qed.

(** ** One frame *)

Lemma update_reached (f : Frame) (st : State) (hands : list Hand)
    (sources : list InputSource) :
  xrInput f = true ->
  handAdapters f = Some hands ->
  xrSession f = Some sources ->
  let hl := hands_loop sources st hands in
  let r := sticks_loop sources (loop_selecting hl) (attachMap hl)
             (attachedHands st) (sticks st) in
  update f st =
  {| sticks := fst r; previousButtonStates := loop_previous hl;
     selecting := loop_selecting hl; attachedHands := snd r |}.
Proof.
  intros Hx Hh Hs. unfold update. rewrite Hx, Hh, Hs. cbn.
  destruct (sticks_loop _ _ _ _ _). reflexivity.
Qed.

Lemma update_skipped (f : Frame) (st : State) : skipped f -> update f st = st.
Proof.
  unfold update. intros [->|[H|H]]; [reflexivity| |].
  - destruct (xrInput f); cbn; [|reflexivity]. rewrite H. reflexivity.
  - destruct (xrInput f); cbn; [|reflexivity].
    destruct (handAdapters f); [|reflexivity]. rewrite H. reflexivity.
Qed.

Lemma skipped_or_reached (f : Frame) :
  skipped f \/ exists hands sources,
    xrInput f = true /\ handAdapters f = Some hands
    /\ xrSession f = Some sources.
Proof.
  unfold skipped. destruct (xrInput f); [|tauto].
  destruct (handAdapters f) as [hands|]; [|tauto].
  destruct (xrSession f) as [sources|]; [|tauto].
  right. eauto.
Qed.

(** ** The stored trigger states *)




(** The heart of the arbiter: an unattached stick becomes attached exactly
    when the last hand that claimed it has [justStartedSelecting], and that
    hand is recorded as its owner. *)
Lemma becomes_attached (f : Frame) (st : State) (hands : list Hand)
    (sources : list InputSource) (e : Entity) (q : Vector3) :
  xrInput f = true ->
  handAdapters f = Some hands ->
  xrSession f = Some sources ->
  NoDup (handedness <$> hands) ->
  NoDup (index <$> sticks st) ->
  e ∈ sticks st ->
  object3D e = Some q ->
  attached (grab e) = false ->
  exists started : bool,
    grab_of (update f st) (index e)
    = Some {| attached := started; justAttached := started;
              justDetached := false |}
    /\ (started = true <->
        exists h, last_claimant sources (sticks st) (index e) hands h
                  /\ rising sources (previousButtonStates st) (handedness h)
                     = true)
    /\ (forall h, last_claimant sources (sticks st) (index e) hands h ->
          started = true ->
          attachedHands (update f st) !! index e = Some (handedness h)).
Proof.
  intros Hx Hh Hs Hsides Hidx Hin Hq Ha.
  rewrite (update_reached f st hands sources Hx Hh Hs). cbv zeta.
  set (hl := hands_loop sources st hands).
  destruct (sticks_loop_lookup sources (loop_selecting hl) (attachMap hl)
              (sticks st) e Hidx Hin (attachedHands st))
    as (owners_e & _ & Hfind & Hown).
  destruct (stick_pass_unattached sources (loop_selecting hl) (attachMap hl)
              owners_e e q Hq Ha) as [Hgrab Howner].
  cbv zeta in Hgrab, Howner.
  set (started := match attachMap hl !! index e with
                  | Some hand =>
                      fst (default (false, false) (loop_selecting hl !! hand))
                  | None => false
                  end) in *.
  exists started.
  assert (Hclaim : forall h,
            last_claimant sources (sticks st) (index e) hands h ->
            attachMap hl !! index e = Some (handedness h)
            /\ fst (default (false, false)
                      (loop_selecting hl !! handedness h))
               = rising sources (previousButtonStates st) (handedness h)).
  { intros h Hlast. split.
    - apply hands_fold_attachMap. left. eauto.
    - destruct Hlast as (pre & post & Heq & Hc & _).
      assert (Hgrip : exists p, gripSpace h = Some p).
      { unfold claims in Hc. destruct (gripSpace h); [eauto|discriminate]. }
      destruct Hgrip as [p Hp].
      destruct (hands_fold_flags sources (sticks st) hands
                  {| loop_previous := previousButtonStates st;
                     loop_selecting := selecting st; attachMap := ∅ |}
                  h p Hsides) as [js Hjs]; [|exact Hp|].
      + rewrite Heq. apply elem_of_app. right. apply elem_of_cons. tauto.
      + unfold hl, hands_loop. rewrite Hjs. reflexivity. }
  split; [|split].
  - unfold grab_of. cbn [sticks]. rewrite Hfind. cbn. rewrite Hgrab.
    reflexivity.
  - split.
    + intros Hst. subst started.
      destruct (attachMap hl !! index e) as [side|] eqn:Hat; [|discriminate].
      apply hands_fold_attachMap in Hat as [(h & Hlast & <-)|[_ Hnone]].
      * exists h. split; [exact Hlast|].
        destruct (Hclaim h Hlast) as [_ <-]. exact Hst.
      * cbn in Hnone. rewrite lookup_empty in Hnone. discriminate.
    + intros (h & Hlast & Hr). subst started.
      destruct (Hclaim h Hlast) as [-> ->]. exact Hr.
  - intros h Hlast Hst. cbn [attachedHands]. rewrite Hown, Howner, Hst.
    apply (Hclaim h Hlast).
Qed.


Lemma entity_of_index (es : list Entity) (a b : Entity) :
  NoDup (index <$> es) -> a ∈ es -> b ∈ es -> index a = index b -> a = b.
Proof.
  induction es as [|x es IH]; intros Hnd Ha Hb Heq.
  - apply elem_of_nil in Ha. contradiction.
  - rewrite fmap_cons in Hnd. apply NoDup_cons in Hnd as [Hfresh Hnd].
    apply elem_of_cons in Ha as [->|Ha]; apply elem_of_cons in Hb as [->|Hb].
    + reflexivity.
    + exfalso. apply Hfresh. rewrite Heq. apply list_elem_of_fmap. eauto.
    + exfalso. apply Hfresh. rewrite <- Heq. apply list_elem_of_fmap. eauto.
    + apply IH; assumption.
Qed.

(** What a claim means: the hand's grip resolves, its trigger is held, and
    the claimed stick is its nearest unattached stick, closer than the
    capture radius. *)
Lemma claims_nearest (sources : list InputSource) (es : list Entity)
    (h : Hand) (idx : nat) :
  claims sources es h = Some idx ->
  exists p e q,
    gripSpace h = Some p
    /\ stillSelecting sources (handedness h) = true
    /\ e ∈ es /\ index e = idx /\ object3D e = Some q
    /\ nearest_unattached p es e
    /\ distanceTo q p < captureRadius.
Proof.
  unfold claims. destruct (gripSpace h) as [p|]; [|discriminate].
  destruct (availableSticks p es) as [|c rest] eqn:Hav; [discriminate|].
  destruct (stillSelecting sources (handedness h)); [|discriminate].
  destruct (Rlt_dec (distance c) captureRadius) as [Hlt|]; [|discriminate].
  intros [= <-].
  destruct (availableSticks_head p es c rest Hav) as (Hin & Hnear & q & Hq & Hd).
  exists p, (entity c), q. rewrite <- Hd. tauto.
Qed.


(** ** The panel stick and two hands *)

Lemma near_distance :
  distanceTo {| vx := 0; vy := 0; vz := 0 |} near = 0.01.
Proof.
  unfold near. rewrite distanceTo_x.
  unfold Rabs. destruct (Rcase_abs (0 - 0.01)); lra.
Qed.


Lemma panelStick_claimed (sources : list InputSource) (side : string)
    (p : Vector3) :
  stillSelecting sources side = true ->
  distanceTo {| vx := 0; vy := 0; vz := 0 |} p < captureRadius ->
  claims sources [panelStick] (hand_on side p) = Some 0%nat.
Proof.
  intros Hs Hd. unfold claims. cbn [gripSpace handedness hand_on].
  change (availableSticks p [panelStick])
    with [{| entity := panelStick;
             distance := distanceTo {| vx := 0; vy := 0; vz := 0 |} p |}].
  rewrite Hs. cbn [distance].
  destruct (Rlt_dec _ captureRadius); [reflexivity|contradiction].
Qed.



Lemma one_stick : NoDup (index <$> [panelStick]).
Proof. cbn. apply NoDup_singleton. Qed.



(** The stored state of a trigger is not its state on the frame before.
    The right trigger is held on a frame on which the grip of the hand does
    not resolve: the frame changes nothing and stores nothing.  On the next
    frame the trigger is still held, the grip resolves next to the panel
    stick, and the stick is attached as if the trigger had just been
    pressed. *)
Lemma unread_trigger_attaches_later :
  stillSelecting [held "right"] "right" = true
  /\ update gripLostFrame freshState = freshState
  /\ grab_of (update grabFrame (update gripLostFrame freshState)) 0%nat
     = Some {| attached := true; justAttached := true; justDetached := false |}.
Proof.
  split; [vm_compute; reflexivity|].
  assert (Hsame : update gripLostFrame freshState = freshState)
    by reflexivity.
  split; [exact Hsame|]. rewrite Hsame.
  destruct (becomes_attached grabFrame freshState [hand_on "right" near]
              [held "right"] panelStick {| vx := 0; vy := 0; vz := 0 |}
              eq_refl eq_refl eq_refl)
    as (started & Hgrab & Hiff & _);
    [cbn; apply NoDup_singleton | apply one_stick
    | apply list_elem_of_singleton; reflexivity | reflexivity | reflexivity |].
  cbn [index panelStick] in Hgrab. rewrite Hgrab.
  assert (Hst : started = true).
  { apply Hiff. exists (hand_on "right" near). split.
    - exists [], []. split; [reflexivity|]. split; [|constructor].
      apply panelStick_claimed; [vm_compute; reflexivity|].
      rewrite near_distance. unfold captureRadius. lra.
    - vm_compute. reflexivity. }
  rewrite Hst. reflexivity.
Qed.




(** ** The edge pulses *)

(** C7, amended.  A frame on which [update] returns at one of its guards
    (no input manager, no hand adapters, no XR session) changes nothing: the
    pulses keep the values of the frame before.  On every other frame, for
    every stick that has an object, [justAttached] is true exactly when the
    stick went from unattached to attached on this frame and [justDetached]
    exactly when it went from attached to unattached; a stick without an
    object is left as it is.  On no frame do both pulses become true. *)
Theorem pulses_mark_transitions_when_reached (f : Frame) (st : State) :
  (skipped f -> update f st = st)
  /\ (~ skipped f ->
      Forall2
        (fun e e' =>
           index e' = index e
           /\ (object3D e = None -> e' = e)
           /\ (object3D e <> None ->
               (justAttached (grab e') = true <->
                  attached (grab e) = false /\ attached (grab e') = true)
               /\ (justDetached (grab e') = true <->
                     attached (grab e) = true /\ attached (grab e') = false)))
        (sticks st) (sticks (update f st)))
  /\ (Forall (fun e => ~ both_pulses e) (sticks st) ->
      Forall (fun e => ~ both_pulses e) (sticks (update f st))).
Proof.
  assert (Hreached : forall hands sources,
            xrInput f = true -> handAdapters f = Some hands ->
            xrSession f = Some sources ->
            Forall2
              (fun e e' =>
                 index e' = index e
                 /\ (object3D e = None -> e' = e)
                 /\ (object3D e <> None ->
                     (justAttached (grab e') = true <->
                        attached (grab e) = false /\ attached (grab e') = true)
                     /\ (justDetached (grab e') = true <->
                           attached (grab e) = true
                           /\ attached (grab e') = false)))
              (sticks st) (sticks (update f st))).
  { intros hands sources Hx Hh Hs.
    rewrite (update_reached f st hands sources Hx Hh Hs). cbv zeta.
    cbn [sticks]. apply sticks_loop_pointwise. intros owners e.
    split; [apply stick_pass_index|]. split.
    - intros Hnone. rewrite stick_pass_no_object by exact Hnone. reflexivity.
    - intros Hsome. destruct (object3D e) as [q|] eqn:Hq; [|congruence].
      apply (stick_pass_pulses _ _ _ _ e q Hq). }
  split; [apply update_skipped|]. split.
  - intros Hns. destruct (skipped_or_reached f)
      as [Hsk|(hands & sources & Hx & Hh & Hs)]; [contradiction|].
    apply (Hreached hands sources Hx Hh Hs).
  - intros Hall. destruct (skipped_or_reached f)
      as [Hsk|(hands & sources & Hx & Hh & Hs)].
    + rewrite update_skipped by exact Hsk. exact Hall.
    + specialize (Hreached hands sources Hx Hh Hs).
      revert Hall. induction Hreached as [|e e' es es' He _ IH];
        intros Hall; [constructor|].
      inversion Hall as [|x l Hx0 Hl]; subst. constructor; [|apply IH, Hl].
      destruct He as (_ & Hnone & Hsome).
      destruct (object3D e) as [q|] eqn:Hq.
      * destruct Hsome as [Hja Hjd]; [discriminate|].
        intros [H1 H2]. apply Hja in H1. apply Hjd in H2.
        destruct H1 as [H1 _], H2 as [H2 _]. congruence.
      * rewrite (Hnone eq_refl). exact Hx0.
Qed.

(** C7 as stated fails.  The right hand grabs the panel stick on one frame;
    on the next frame the XR session is gone and [update] returns before
    the loop over the sticks: the stick was attached before that frame and
    is attached after it, and [justAttached] is still true. *)
Lemma stale_pulse_without_session :
  grab_of (update grabFrame freshState) 0%nat
  = Some {| attached := true; justAttached := true; justDetached := false |}
  /\ grab_of (update noSessionFrame (update grabFrame freshState)) 0%nat
     = Some {| attached := true; justAttached := true; justDetached := false |}.
Proof.
  assert (H1 : grab_of (update grabFrame freshState) 0%nat
               = Some {| attached := true; justAttached := true;
                         justDetached := false |}).
  { destruct (becomes_attached grabFrame freshState [hand_on "right" near]
                [held "right"] panelStick {| vx := 0; vy := 0; vz := 0 |}
                eq_refl eq_refl eq_refl)
      as (started & Hgrab & Hiff & _);
      [cbn; apply NoDup_singleton | apply one_stick
      | apply list_elem_of_singleton; reflexivity | reflexivity | reflexivity |].
    cbn [index panelStick] in Hgrab. rewrite Hgrab.
    assert (Hst : started = true).
    { apply Hiff. exists (hand_on "right" near). split.
      - exists [], []. split; [reflexivity|]. split; [|constructor].
        apply panelStick_claimed; [vm_compute; reflexivity|].
        rewrite near_distance. unfold captureRadius. lra.
      - vm_compute. reflexivity. }
    rewrite Hst. reflexivity. }
  split; [exact H1|].
  rewrite (update_skipped noSessionFrame) by (right; right; reflexivity).
  exact H1.
Qed.

(** ** Owners and the attached flag *)

Lemma stick_pass_coherent (sources : list InputSource)
    (flags : gmap string (bool * bool)) (attach owners : gmap nat string)
    (e : Entity) :
  owned_iff_attached owners e ->
  owned_iff_attached (snd (stick_pass sources flags attach owners e))
    (fst (stick_pass sources flags attach owners e)).
Proof.
  unfold owned_iff_attached, stick_pass. intros Hcoh.
  destruct (object3D e) as [q|]; [|exact Hcoh].
  destruct (attached (grab e)) eqn:Ha; cbn [negb].
  - destruct (owners !! index e) as [hand|] eqn:Ho.
    + destruct (negb (stillSelecting sources hand) || _); cbn.
      * rewrite lookup_delete_eq. split; [discriminate|].
        intros [x Hx]. discriminate Hx.
      * rewrite Ho. split; eauto.
    + cbn. rewrite Ho. exact Hcoh.
  - assert (Hnone : owners !! index e = None).
    { destruct (owners !! index e) eqn:Ho; [|reflexivity].
      assert (false = true) by (apply Hcoh; eauto). discriminate. }
    destruct (attach !! index e) as [hand|];
      [destruct (fst (default (false, false) (flags !! hand)))|]; cbn.
    + rewrite lookup_insert_eq. split; eauto.
    + rewrite Hnone. split; [discriminate|]. intros [x Hx]. discriminate Hx.
    + rewrite Hnone. split; [discriminate|]. intros [x Hx]. discriminate Hx.
Qed.

Lemma sticks_loop_coherent (sources : list InputSource)
    (flags : gmap string (bool * bool)) (attach : gmap nat string)
    (es : list Entity) :
  NoDup (index <$> es) ->
  forall owners,
    Forall (owned_iff_attached owners) es ->
    let r := sticks_loop sources flags attach owners es in
    Forall (owned_iff_attached (snd r)) (fst r)
    /\ index <$> fst r = index <$> es.
Proof.
  induction es as [|e es IH]; intros Hnd owners Hall.
  - cbn. split; constructor.
  - rewrite fmap_cons in Hnd. apply NoDup_cons in Hnd as [Hfresh Hnd].
    inversion Hall as [|x l He Hes]; subst x l.
    cbv zeta. rewrite sticks_loop_cons. cbn [fst snd].
    set (r1 := stick_pass sources flags attach owners e).
    assert (Hothers : Forall (fun x => index x <> index e) es).
    { apply Forall_forall. intros x Hx Heq. apply Hfresh. rewrite <- Heq.
      apply list_elem_of_fmap. eauto. }
    destruct (IH Hnd (snd r1)) as [Hrest Hidx].
    { apply Forall_forall. intros x Hx. unfold owned_iff_attached.
      subst r1. rewrite stick_pass_other_owner.
      - revert x Hx. apply Forall_forall. exact Hes.
      - revert x Hx. apply Forall_forall. exact Hothers. }
    cbv zeta in Hrest, Hidx. split.
    + constructor; [|exact Hrest].
      pose proof (stick_pass_coherent sources flags attach owners e He) as Hc.
      fold r1 in Hc. unfold owned_iff_attached in Hc |- *.
      rewrite sticks_loop_other_owner; [exact Hc|].
      destruct (stick_pass_index sources flags attach owners e) as [Hi _].
      fold r1 in Hi. rewrite Hi. exact Hothers.
    + rewrite !fmap_cons, Hidx.
      destruct (stick_pass_index sources flags attach owners e) as [Hi _].
      fold r1 in Hi. rewrite Hi. reflexivity.
Qed.

(** X7.  Ownership invariant: with distinct stick indices, every frame keeps the
    [attached] field of each stick in step with the owner table, which
    holds at most one owner per stick. *)
Lemma update_keeps_ownership_coherent (f : Frame) (st : State) :
  NoDup (index <$> sticks st) ->
  coherent st ->
  coherent (update f st)
  /\ index <$> sticks (update f st) = index <$> sticks st.
Proof.
  intros Hnd Hcoh.
  destruct (skipped_or_reached f) as [Hsk|(hands & sources & Hx & Hh & Hs)].
  - rewrite update_skipped by exact Hsk. split; [exact Hcoh|reflexivity].
  - rewrite (update_reached f st hands sources Hx Hh Hs). cbv zeta.
    unfold coherent. cbn [sticks attachedHands].
    apply (sticks_loop_coherent sources _ _ (sticks st) Hnd _ Hcoh).
Qed.

Lemma update_keeps_ownership_coherent_witness :
  coherent (update (frame_of near far) freshState)
  /\ index <$> sticks (update (frame_of near far) freshState)
     = index <$> sticks freshState.
Proof.
  apply (update_keeps_ownership_coherent (frame_of near far) freshState).
  - apply one_stick.
  - constructor; [|constructor]. unfold owned_iff_attached. cbn.
    rewrite lookup_empty. split; [discriminate|].
    intros [x Hx]. discriminate Hx.
Defined.

(** ** The life of a grab *)

(** What [read_select] returns, in full. *)
Lemma read_select_full (sources : list InputSource) (side : string)
    (prev : gmap string bool) :
  let '(isPressed, started, stopped, prev') := read_select sources side prev in
  isPressed = stillSelecting sources side
  /\ (started = true -> stillSelecting sources side = true)
  /\ (stopped = true -> stillSelecting sources side = false)
  /\ (prev' = prev \/ prev' = <[side := stillSelecting sources side]> prev)
  /\ (stillSelecting sources side = true -> prev' !! side = Some true).
Proof.
  unfold read_select, stillSelecting.
  destruct (find_source side sources) as [src|]; cbn.
  2: { repeat split; try discriminate. now left. }
  destruct (gamepad src) as [buttons|]; cbn.
  2: { repeat split; try discriminate. now left. }
  destruct (primary_pressed buttons); cbn;
    (split; [reflexivity|]); (split; [intros; try reflexivity; try discriminate|]);
    (split; [intros; try reflexivity; try discriminate|]);
    (split; [now right|]); intros; try discriminate;
    try apply lookup_insert_eq.
  all: destruct (default false (prev !! side)); cbn in *; congruence.
Qed.

Lemma hand_pass_no_grip (sources : list InputSource) (es : list Entity)
    (acc : HandLoop) (h : Hand) :
  gripSpace h = None -> hand_pass sources es acc h = acc.
Proof. intros H. unfold hand_pass. rewrite H. reflexivity. Qed.

(** The flags and the previous state of a side none of whose hands has a
    grip position are not touched by the loop over the hands. *)
Lemma hands_fold_unprocessed (sources : list InputSource) (es : list Entity)
    (hands : list Hand) (acc : HandLoop) (side : string) :
  Forall (fun h => handedness h = side -> gripSpace h = None) hands ->
  loop_previous (fold_left (hand_pass sources es) hands acc) !! side
  = loop_previous acc !! side
  /\ loop_selecting (fold_left (hand_pass sources es) hands acc) !! side
     = loop_selecting acc !! side.
Proof.
  revert acc. induction hands as [|h hands IH]; intros acc Hall; cbn.
  - split; reflexivity.
  - inversion Hall as [|? ? Hh Hrest]; subst.
    destruct (IH (hand_pass sources es acc h) Hrest) as [E1 E2].
    rewrite E1, E2.
    destruct (decide (side = handedness h)) as [->|Hne].
    + rewrite (hand_pass_no_grip _ _ _ _ (Hh eq_refl)). split; reflexivity.
    + apply hand_pass_other_side. exact Hne.
Qed.

(** One pass of a hand of the given side whose grip resolves. *)
Lemma hand_pass_processed (sources : list InputSource) (es : list Entity)
    (acc : HandLoop) (h : Hand) (p : Vector3) :
  gripSpace h = Some p ->
  let side := handedness h in
  let acc' := hand_pass sources es acc h in
  (exists started stopped,
     loop_selecting acc' !! side = Some (started, stopped)
     /\ (started = true -> stillSelecting sources side = true)
     /\ (stopped = true -> stillSelecting sources side = false))
  /\ (loop_previous acc' !! side = loop_previous acc !! side
      \/ loop_previous acc' !! side = Some (stillSelecting sources side))
  /\ (stillSelecting sources side = true ->
      loop_previous acc' !! side = Some true).
Proof.
  intros Hp side acc'. subst acc'. unfold hand_pass. rewrite Hp. fold side.
  pose proof (read_select_full sources side (loop_previous acc)) as H.
  destruct (read_select sources side (loop_previous acc))
    as [[[isPressed started] stopped] prev'].
  destruct H as (_ & Hs & Ht & Hprev & Hheld). cbn.
  split; [|split].
  - exists started, stopped. rewrite lookup_insert_eq. auto.
  - destruct Hprev as [->| ->]; [now left|right]. apply lookup_insert_eq.
  - exact Hheld.
Qed.

(** After the loop over the hands, for each side: either no hand of the
    side had a grip position and nothing stored for it changed, or its
    flags were written on this frame and agree with the trigger. *)
Lemma hands_fold_side (sources : list InputSource) (es : list Entity)
    (hands : list Hand) (acc : HandLoop) (side : string) :
  let acc' := fold_left (hand_pass sources es) hands acc in
  (loop_previous acc' !! side = loop_previous acc !! side
   /\ loop_selecting acc' !! side = loop_selecting acc !! side
   /\ Forall (fun h => handedness h = side -> gripSpace h = None) hands)
  \/ ((exists started stopped,
         loop_selecting acc' !! side = Some (started, stopped)
         /\ (started = true -> stillSelecting sources side = true)
         /\ (stopped = true -> stillSelecting sources side = false))
      /\ (stillSelecting sources side = true ->
          loop_previous acc' !! side = Some true)
      /\ (loop_previous acc' !! side = loop_previous acc !! side
          \/ loop_previous acc' !! side = Some (stillSelecting sources side))).
Proof.
  revert acc. induction hands as [|h hands IH]; intros acc; simpl fold_left.
  - left. cbn. repeat split; constructor.
  - cbv zeta. destruct (IH (hand_pass sources es acc h))
      as [(E1 & E2 & Hall)|(Hflags & Hheld & Hprev)].
    + destruct (decide (handedness h = side)) as [Hside|Hne].
      * destruct (gripSpace h) as [p|] eqn:Hp.
        -- right. subst side.
           destruct (hand_pass_processed sources es acc h p Hp)
             as (Hf & Hpr & Hh).
           cbn in Hf, Hpr, Hh. rewrite E1, E2. auto.
        -- left. rewrite (hand_pass_no_grip _ _ _ _ Hp) in E1, E2 |- *.
           split; [exact E1|]. split; [exact E2|].
           constructor; [intros _; exact Hp|exact Hall].
      * left.
        destruct (hand_pass_other_side sources es acc h side) as [F1 F2];
          [congruence|].
        rewrite E1, E2, F1, F2. repeat split.
        constructor; [intros Hs; contradiction|exact Hall].
    + right. split; [exact Hflags|]. split; [exact Hheld|].
      destruct (decide (handedness h = side)) as [Hside|Hne].
      * destruct (gripSpace h) as [p|] eqn:Hp.
        -- subst side.
           destruct (hand_pass_processed sources es acc h p Hp)
             as (_ & Hpr & Hh). cbn in Hpr, Hh.
           destruct Hprev as [E|E]; [|now right].
           rewrite E. exact Hpr.
        -- rewrite (hand_pass_no_grip _ _ _ _ Hp) in *. exact Hprev.
      * destruct (hand_pass_other_side sources es acc h side) as [F1 _];
          [congruence|].
        rewrite <- F1. exact Hprev.
Qed.

(** On a frame that reaches the loops, the stick of a given index is the
    result of its own pass. *)
Lemma update_lookup (f : Frame) (st : State) (hands : list Hand)
    (sources : list InputSource) (e : Entity) :
  xrInput f = true ->
  handAdapters f = Some hands ->
  xrSession f = Some sources ->
  NoDup (index <$> sticks st) ->
  e ∈ sticks st ->
  let hl := hands_loop sources st hands in
  exists owners_e,
    owners_e !! index e = attachedHands st !! index e
    /\ grab_of (update f st) (index e)
       = Some (grab (fst (stick_pass sources (loop_selecting hl) (attachMap hl)
                            owners_e e)))
    /\ attachedHands (update f st) !! index e
       = snd (stick_pass sources (loop_selecting hl) (attachMap hl)
                owners_e e) !! index e.
Proof.
  intros Hx Hh Hs Hnd He hl.
  rewrite (update_reached f st hands sources Hx Hh Hs). cbv zeta.
  fold hl. unfold grab_of. cbn [sticks attachedHands].
  destruct (sticks_loop_lookup sources (loop_selecting hl) (attachMap hl)
              (sticks st) e Hnd He (attachedHands st))
    as (owners_e & Ho & Hfind & Hown).
  exists owners_e. split; [exact Ho|]. split; [|exact Hown].
  rewrite Hfind. reflexivity.
Qed.

Lemma owned_stick (st : State) (e : Entity) (side : string) :
  grip_sound st ->
  e ∈ sticks st ->
  attachedHands st !! index e = Some side ->
  attached (grab e) = true /\ exists q, object3D e = Some q.
Proof.
  intros (Hnd & Hco & Hkn & _ & _) He Ho. split.
  - unfold coherent in Hco. rewrite Forall_forall in Hco.
    apply (Hco e He). rewrite Ho. eauto.
  - destruct (Hkn _ _ Ho) as (e' & q & He' & Hi & Hq).
    rewrite (entity_of_index (sticks st) e e' Hnd He He' (eq_sym Hi)).
    eauto.
Qed.

(** The stored [justStoppedSelecting] of an owner is false after the loop
    over the hands whenever its trigger is held. *)
Lemma owner_not_stopped (sources : list InputSource) (st : State)
    (hands : list Hand) (idx : nat) (side : string) :
  owners_hold st ->
  attachedHands st !! idx = Some side ->
  stillSelecting sources side = true ->
  snd (default (false, false)
         (loop_selecting (hands_loop sources st hands) !! side)) = false.
Proof.
  intros Hold Ho Hheld. unfold hands_loop.
  destruct (hands_fold_side sources (sticks st) hands
              {| loop_previous := previousButtonStates st;
                 loop_selecting := selecting st; attachMap := ∅ |} side)
    as [(_ & E & _)|((started & stopped & E & _ & Hst) & _)].
  - rewrite E. cbn. apply (Hold _ _ Ho).
  - rewrite E. cbn. destruct stopped; [|reflexivity].
    rewrite (Hst eq_refl) in Hheld. discriminate.
Qed.

(** What a frame does to a stick that has an owner. *)
Lemma attached_stick_step (f : Frame) (st : State)
    (hands : list Hand) (sources : list InputSource) (e : Entity)
    (side : string) :
  xrInput f = true ->
  handAdapters f = Some hands ->
  xrSession f = Some sources ->
  grip_sound st ->
  e ∈ sticks st ->
  attachedHands st !! index e = Some side ->
  let held := stillSelecting sources side in
  grab_of (update f st) (index e)
  = Some {| attached := held; justAttached := false;
            justDetached := negb held |}
  /\ attachedHands (update f st) !! index e
     = (if held then Some side else None).
Proof.
  intros Hx Hh Hs Hgs He Ho held.
  destruct (owned_stick st e side Hgs He Ho) as (Hatt & q & Hq).
  pose proof Hgs as (Hnd & _ & _ & Hold & _).
  destruct (update_lookup f st hands sources e Hx Hh Hs Hnd He)
    as (owners_e & Hoe & Hgrab & Hown).
  rewrite Hgrab, Hown. clear Hgrab Hown.
  rewrite Ho in Hoe.
  unfold stick_pass. rewrite Hq, Hatt, Hoe. cbn [negb].
  fold held.
  destruct held eqn:Hheld; cbn [negb orb].
  - rewrite (owner_not_stopped sources st hands (index e) side Hold Ho Hheld).
    cbn. split; [reflexivity|exact Hoe].
  - cbn. split; [reflexivity|]. apply lookup_delete_eq.
Qed.

Lemma hand_of_side (hands : list Hand) (a b : Hand) :
  NoDup (handedness <$> hands) -> a ∈ hands -> b ∈ hands ->
  handedness a = handedness b -> a = b.
Proof.
  induction hands as [|h hands IH]; intros Hnd Ha Hb Hab.
  - inversion Ha.
  - rewrite fmap_cons in Hnd. apply NoDup_cons in Hnd as [Hnot Hnd].
    apply elem_of_cons in Ha as [->|Ha]; apply elem_of_cons in Hb as [->|Hb].
    + reflexivity.
    + exfalso. apply Hnot. rewrite Hab. apply list_elem_of_fmap. eauto.
    + exfalso. apply Hnot. rewrite <- Hab. apply list_elem_of_fmap. eauto.
    + apply IH; assumption.
Qed.

(** Every frame leaves the indices and the objects of the sticks alone. *)
Lemma update_sticks_shape (f : Frame) (st : State) :
  Forall2 (fun e e' => index e' = index e /\ object3D e' = object3D e)
    (sticks st) (sticks (update f st)).
Proof.
  destruct (skipped_or_reached f) as [Hsk|(hands & sources & Hx & Hh & Hs)].
  - rewrite (update_skipped f st Hsk).
    apply Forall2_same_length_lookup_2; [reflexivity|].
    intros i x y Hx Hy. rewrite Hx in Hy. inversion Hy; subst. auto.
  - rewrite (update_reached f st hands sources Hx Hh Hs). cbn.
    apply sticks_loop_pointwise. intros owners e.
    apply stick_pass_index.
Qed.

Lemma stick_survives (f : Frame) (st : State) (e : Entity) :
  e ∈ sticks st ->
  exists e', e' ∈ sticks (update f st)
             /\ index e' = index e /\ object3D e' = object3D e.
Proof.
  intros He. apply list_elem_of_lookup in He as [i Hi].
  destruct (Forall2_lookup_l _ _ _ _ _ (update_sticks_shape f st) Hi)
    as (e' & Hi' & Hshape).
  exists e'. split; [|exact Hshape].
  apply list_elem_of_lookup. eauto.
Qed.

(** Where the owners after a frame come from: an owner either was the
    owner before and still holds its trigger, or is the last hand that
    claimed a stick nobody owned, with [justStartedSelecting]. *)
Lemma owner_after (f : Frame) (st : State) (hands : list Hand)
    (sources : list InputSource) (idx : nat) (side : string) :
  xrInput f = true ->
  handAdapters f = Some hands ->
  xrSession f = Some sources ->
  NoDup (handedness <$> hands) ->
  grip_sound st ->
  attachedHands (update f st) !! idx = Some side ->
  (attachedHands st !! idx = Some side
   /\ stillSelecting sources side = true)
  \/ (attachedHands st !! idx = None
      /\ exists e q h,
           e ∈ sticks st /\ index e = idx /\ object3D e = Some q
           /\ last_claimant sources (sticks st) idx hands h
           /\ handedness h = side
           /\ rising sources (previousButtonStates st) side = true).
Proof.
  intros Hx Hh Hs Hsides Hgs Hafter.
  pose proof Hgs as (Hnd & Hco & Hkn & Hold & Hone).
  destruct (decide (idx ∈ index <$> sticks st)) as [Hin|Hout].
  - apply list_elem_of_fmap in Hin as (e & -> & He).
    destruct (attachedHands st !! index e) as [s0|] eqn:Ho.
    + left.
      destruct (attached_stick_step f st hands sources e s0
                  Hx Hh Hs Hgs He Ho) as [_ Hown].
      rewrite Hown in Hafter.
      destruct (stillSelecting sources s0) eqn:Hheld; [|discriminate].
      inversion Hafter; subst. auto.
    + right. split; [reflexivity|].
      assert (Hatt : attached (grab e) = false).
      { unfold coherent in Hco. rewrite Forall_forall in Hco.
        destruct (attached (grab e)) eqn:E; [|reflexivity].
        destruct (proj1 (Hco e He) E) as [s Hs']. congruence. }
      destruct (update_lookup f st hands sources e Hx Hh Hs Hnd He)
        as (owners_e & Hoe & _ & Hown).
      rewrite Hown in Hafter. clear Hown. rewrite Ho in Hoe.
      destruct (object3D e) as [q|] eqn:Hq.
      2: { rewrite (stick_pass_no_object _ _ _ _ _ Hq) in Hafter.
           cbn in Hafter. congruence. }
      destruct (stick_pass_unattached sources
                  (loop_selecting (hands_loop sources st hands))
                  (attachMap (hands_loop sources st hands))
                  owners_e e q Hq Hatt) as [_ Hsnd].
      cbv zeta in Hsnd. rewrite Hsnd in Hafter. clear Hsnd.
      destruct (attachMap (hands_loop sources st hands) !! index e)
        as [s1|] eqn:Hattach; [|congruence].
      destruct (fst (default (false, false)
                 (loop_selecting (hands_loop sources st hands) !! s1)))
        eqn:Hstarted; [|congruence].
      inversion Hafter; subst s1. clear Hafter.
      unfold hands_loop in Hattach.
      apply hands_fold_attachMap in Hattach
        as [(h & Hlast & Hside)|[_ Hempty]].
      2: { cbn in Hempty. rewrite lookup_empty in Hempty. discriminate. }
      exists e, q, h. repeat split; try assumption.
      pose proof Hlast as (pre & post & Hhands & Hclaim & _).
      destruct (claims_nearest _ _ _ _ Hclaim) as (p & _ & _ & Hp & _).
      assert (Hin : h ∈ hands).
      { rewrite Hhands. apply elem_of_app. right. apply elem_of_cons. now left. }
      destruct (hands_fold_flags sources (sticks st) hands
                  {| loop_previous := previousButtonStates st;
                     loop_selecting := selecting st; attachMap := ∅ |}
                  h p Hsides Hin Hp) as [stopped Hflags].
      unfold hands_loop in Hstarted. rewrite <- Hside in Hstarted.
      rewrite Hflags in Hstarted. cbn in Hstarted.
      rewrite <- Hside. exact Hstarted.
  - exfalso.
    rewrite (update_reached f st hands sources Hx Hh Hs) in Hafter.
    cbn in Hafter.
    rewrite sticks_loop_other_owner in Hafter.
    + destruct (Hkn _ _ Hafter) as (e & q & He & Hi & _).
      apply Hout. apply list_elem_of_fmap. eauto.
    + rewrite Forall_forall. intros e He Hi. apply Hout.
      apply list_elem_of_fmap. eauto.
Qed.

(** After the loop over the hands, a side whose trigger is held and that
    either held it before with no stop stored, or has a hand with a grip
    position on this frame, has its previous state true and no stop
    stored. *)
Lemma held_side_after (sources : list InputSource) (st : State)
    (hands : list Hand) (side : string) :
  stillSelecting sources side = true ->
  (previousButtonStates st !! side = Some true
   /\ snd (default (false, false) (selecting st !! side)) = false)
  \/ (exists h p, h ∈ hands /\ handedness h = side /\ gripSpace h = Some p) ->
  loop_previous (hands_loop sources st hands) !! side = Some true
  /\ snd (default (false, false)
            (loop_selecting (hands_loop sources st hands) !! side)) = false.
Proof.
  intros Hheld Hcase. unfold hands_loop.
  destruct (hands_fold_side sources (sticks st) hands
              {| loop_previous := previousButtonStates st;
                 loop_selecting := selecting st; attachMap := ∅ |} side)
    as [(E1 & E2 & Hall)|((started & stopped & E & _ & Hst) & Hprev & _)].
  - rewrite E1, E2. cbn.
    destruct Hcase as [Hbefore|(h & p & Hin & Hside & Hp)]; [exact Hbefore|].
    rewrite Forall_forall in Hall. rewrite (Hall h Hin Hside) in Hp.
    discriminate.
  - split; [exact (Hprev Hheld)|].
    rewrite E. cbn. destruct stopped; [|reflexivity].
    rewrite (Hst eq_refl) in Hheld. discriminate.
Qed.

Lemma rising_spec (sources : list InputSource) (prev : gmap string bool)
    (side : string) :
  rising sources prev side = true ->
  stillSelecting sources side = true /\ prev !! side <> Some true.
Proof.
  unfold rising. intros H. apply andb_true_iff in H as [H1 H2].
  split; [exact H1|]. intros E. rewrite E in H2. discriminate.
Qed.

Lemma update_keeps_grip_sound (f : Frame) (st : State) :
  grip_sound st -> one_hand_per_side f -> grip_sound (update f st).
Proof.
  intros Hgs Hside.
  destruct (skipped_or_reached f) as [Hsk|(hands & sources & Hx & Hh & Hs)].
  { rewrite (update_skipped f st Hsk). exact Hgs. }
  pose proof (Hside hands Hh) as Hsides.
  pose proof Hgs as (Hnd & Hco & Hkn & Hold & Hone).
  assert (Hshape : coherent (update f st)
                   /\ index <$> sticks (update f st) = index <$> sticks st).
  { rewrite (update_reached f st hands sources Hx Hh Hs). cbv zeta.
    unfold coherent. cbn [sticks attachedHands].
    apply (sticks_loop_coherent sources _ _ (sticks st) Hnd _ Hco). }
  destruct Hshape as [Hco' Hidx].
  assert (Hprev' : previousButtonStates (update f st)
                   = loop_previous (hands_loop sources st hands)).
  { rewrite (update_reached f st hands sources Hx Hh Hs). reflexivity. }
  assert (Hsel' : selecting (update f st)
                  = loop_selecting (hands_loop sources st hands)).
  { rewrite (update_reached f st hands sources Hx Hh Hs). reflexivity. }
  split; [rewrite Hidx; exact Hnd|].
  split; [exact Hco'|].
  split; [|split].
  - (* owners_known *)
    intros idx side Hafter.
    assert (He : exists e q, e ∈ sticks st /\ index e = idx
                             /\ object3D e = Some q).
    { destruct (owner_after f st hands sources idx side Hx Hh Hs Hsides Hgs
                  Hafter) as [[Ho _]|(_ & e & q & h & He & Hi & Hq & _)].
      - exact (Hkn _ _ Ho).
      - eauto. }
    destruct He as (e & q & He & Hi & Hq).
    destruct (stick_survives f st e He) as (e' & He' & Hi' & Hq').
    exists e', q. split; [exact He'|]. split; congruence.
  - (* owners_hold *)
    intros idx side Hafter. rewrite Hprev', Hsel'.
    destruct (owner_after f st hands sources idx side Hx Hh Hs Hsides Hgs
                Hafter)
      as [[Ho Hheld]|(_ & e & q & h & He & Hi & Hq & Hlast & Hhs & Hrise)].
    + apply held_side_after; [exact Hheld|]. left. exact (Hold _ _ Ho).
    + destruct (rising_spec _ _ _ Hrise) as [Hheld _].
      apply held_side_after; [exact Hheld|]. right.
      pose proof Hlast as (pre & post & Hhands & Hclaim & _).
      destruct (claims_nearest _ _ _ _ Hclaim) as (p & _ & _ & Hp & _).
      exists h, p. split; [|split; assumption].
      rewrite Hhands. apply elem_of_app. right. apply elem_of_cons. now left.
  - (* one_stick_per_hand *)
    intros i j side Hi Hj.
    destruct (owner_after f st hands sources i side Hx Hh Hs Hsides Hgs Hi)
      as [[Hoi _]|(_ & ei & qi & hi & _ & _ & _ & Hlasti & Hhsi & Hrisei)];
    destruct (owner_after f st hands sources j side Hx Hh Hs Hsides Hgs Hj)
      as [[Hoj _]|(_ & ej & qj & hj & _ & _ & _ & Hlastj & Hhsj & Hrisej)].
    + exact (Hone _ _ _ Hoi Hoj).
    + destruct (rising_spec _ _ _ Hrisej) as [_ Hne].
      destruct (Hold _ _ Hoi) as [Hp _]. contradiction.
    + destruct (rising_spec _ _ _ Hrisei) as [_ Hne].
      destruct (Hold _ _ Hoj) as [Hp _]. contradiction.
    + destruct Hlasti as (prei & posti & Hhandsi & Hclaimi & _).
      destruct Hlastj as (prej & postj & Hhandsj & Hclaimj & _).
      assert (Hini : hi ∈ hands).
      { rewrite Hhandsi. apply elem_of_app. right. apply elem_of_cons.
        now left. }
      assert (Hinj : hj ∈ hands).
      { rewrite Hhandsj. apply elem_of_app. right. apply elem_of_cons.
        now left. }
      assert (hi = hj) by (apply (hand_of_side hands); congruence).
      subst hj. congruence.
Qed.

(** A state in which nothing is owned and nothing is marked attached. *)
Lemma unowned_grip_sound (st : State) :
  NoDup (index <$> sticks st) ->
  Forall (fun e => attached (grab e) = false) (sticks st) ->
  attachedHands st = ∅ ->
  grip_sound st.
Proof.
  intros Hnd Hun Hempty. split; [exact Hnd|]. split; [|split; [|split]].
  - unfold coherent. rewrite Forall_forall in *. intros e He.
    unfold owned_iff_attached. rewrite Hempty, lookup_empty, (Hun e He).
    split; [discriminate|]. intros [s Hs]. discriminate.
  - intros idx side H. rewrite Hempty, lookup_empty in H. discriminate.
  - intros idx side H. rewrite Hempty, lookup_empty in H. discriminate.
  - intros i j side H. rewrite Hempty, lookup_empty in H. discriminate.
Qed.

(** X10.  The bookkeeping of the grabs stays in order.  Starting from a state in
    order (such as one where nothing is held), over any sequence of frames
    that each have at most one hand adapter per side: stick indices stay
    distinct; a stick is marked attached exactly when it has an owner;
    every owned index is that of a stick with an object; every owner's
    trigger was held when last read and no release is stored for it; and
    no hand owns two sticks. *)
Theorem run_keeps_grip_sound (fs : list Frame) (st : State) :
  grip_sound st ->
  Forall one_hand_per_side fs ->
  grip_sound (run fs st).
Proof.
  revert st. induction fs as [|f fs IH]; intros st Hgs Hall; cbn.
  - exact Hgs.
  - inversion Hall; subst.
    apply IH; [|assumption]. apply update_keeps_grip_sound; assumption.
Qed.

Lemma freshState_grip_sound : grip_sound freshState.
Proof.
  apply unowned_grip_sound.
  - exact one_stick.
  - repeat constructor.
  - reflexivity.
Qed.

Lemma grabFrame_one_hand_per_side : one_hand_per_side grabFrame.
Proof.
  intros hands H. inversion H; subst. cbn. apply NoDup_singleton.
Qed.

Lemma frame_of_one_hand_per_side (p q : Vector3) :
  one_hand_per_side (frame_of p q).
Proof.
  intros hands H. inversion H; subst. cbn.
  apply NoDup_cons. split.
  - intros Hin. apply list_elem_of_singleton in Hin. discriminate.
  - apply NoDup_singleton.
Qed.

Lemma run_keeps_grip_sound_witness :
  grip_sound (run [grabFrame; frame_of near far] freshState).
Proof.
  apply (run_keeps_grip_sound [grabFrame; frame_of near far] freshState).
  - exact freshState_grip_sound.
  - repeat constructor.
    + exact grabFrame_one_hand_per_side.
    + exact (frame_of_one_hand_per_side near far).
Defined.

(** X9.  A held stick follows its owner's trigger.  In a state whose
    bookkeeping is in order, on a frame that reaches the loops, a stick
    with an owner stays attached to that owner, with both pulses false,
    when the owner's select trigger reads pressed; otherwise it is detached
    with [justDetached] set and its owner removed.  Neither the position of
    the owner's hand nor any other hand plays a part: whoever owns the
    stick after the frame is the hand that owned it before. *)
Theorem held_stick_follows_trigger (f : Frame) (st : State)
    (hands : list Hand) (sources : list InputSource) (e : Entity)
    (side : string) :
  xrInput f = true ->
  handAdapters f = Some hands ->
  xrSession f = Some sources ->
  grip_sound st ->
  e ∈ sticks st ->
  attachedHands st !! index e = Some side ->
  let held := stillSelecting sources side in
  grab_of (update f st) (index e)
  = Some {| attached := held; justAttached := false;
            justDetached := negb held |}
  /\ attachedHands (update f st) !! index e
     = (if held then Some side else None)
  /\ (forall side', attachedHands (update f st) !! index e = Some side' ->
        side' = side /\ held = true).
Proof.
  intros Hx Hh Hs Hgs He Ho held.
  destruct (attached_stick_step f st hands sources e side Hx Hh Hs Hgs He Ho)
    as [Hgrab Hown].
  fold held in Hgrab, Hown.
  split; [exact Hgrab|]. split; [exact Hown|].
  intros side' Hafter. rewrite Hown in Hafter.
  destruct held; [|discriminate].
  inversion Hafter. split; reflexivity.
Qed.

(** The right hand takes the panel stick on the frame of its press. *)
Lemma grabFrame_owner :
  attachedHands (update grabFrame freshState) !! 0%nat = Some "right".
Proof.
  destruct (becomes_attached grabFrame freshState [hand_on "right" near]
              [held "right"] panelStick {| vx := 0; vy := 0; vz := 0 |}
              eq_refl eq_refl eq_refl)
    as (started & _ & Hiff & Hown);
    [cbn; apply NoDup_singleton | apply one_stick
    | apply list_elem_of_singleton; reflexivity | reflexivity | reflexivity |].
  assert (Hlast : last_claimant [held "right"] (sticks freshState)
                    (index panelStick) [hand_on "right" near]
                    (hand_on "right" near)).
  { exists [], []. split; [reflexivity|]. split; [|constructor].
    apply panelStick_claimed; [vm_compute; reflexivity|].
    rewrite near_distance. unfold captureRadius. lra. }
  apply (Hown _ Hlast). apply Hiff. eexists. split; [exact Hlast|].
  vm_compute. reflexivity.
Qed.

(** The right hand keeps its trigger held on the frame after the grab. *)
Lemma held_stick_follows_trigger_witness :
  let held := stillSelecting [held "right"] "right" in
  grab_of (update grabFrame (update grabFrame freshState)) 0%nat
  = Some {| attached := held; justAttached := false;
            justDetached := negb held |}
  /\ attachedHands (update grabFrame (update grabFrame freshState)) !! 0%nat
     = (if held then Some "right" else None)
  /\ (forall side',
        attachedHands (update grabFrame (update grabFrame freshState)) !! 0%nat
        = Some side' ->
        side' = "right" /\ held = true).
Proof.
  assert (He : exists e, e ∈ sticks (update grabFrame freshState)
                         /\ index e = 0%nat).
  { destruct (stick_survives grabFrame freshState panelStick) as (e & ? & ? & _).
    - apply list_elem_of_singleton. reflexivity.
    - eauto. }
  destruct He as (e & He & Hi).
  assert (Ho : attachedHands (update grabFrame freshState) !! index e
               = Some "right").
  { rewrite Hi. exact grabFrame_owner. }
  pose proof (held_stick_follows_trigger grabFrame (update grabFrame freshState)
           [hand_on "right" near] [held "right"] e "right"
           eq_refl eq_refl eq_refl
           (update_keeps_grip_sound grabFrame freshState freshState_grip_sound
              grabFrame_one_hand_per_side)
           He Ho) as H.
  rewrite Hi in H. exact H.
Defined.

End StickGrabFacts.

(* ===================================================================== *)
(** * Properties of AnalogStickSystem *)
(* ===================================================================== *)

Module AnalogStickFacts.
Import XR AnalogStickSystem StickScenes VectorFacts.
Local Open Scope R_scope.

(** ** A hand that cannot be located *)

(** C10.  While a stick is attached and none of the three look-ups of its
    owning hand yields a position, the update of the stick leaves the five
    published fields, and the mesh, as they were. *)
Theorem unresolved_owner_keeps_axis (dt : R) (justGrabbed : bool)
    (hand : Hand) (s : Stick) :
  gripSpace hand = None ->
  indexTip hand = None ->
  raySpace hand = None ->
  let s' := update_stick dt true justGrabbed (Some hand) s in
  stickX (analog s') = stickX (analog s)
  /\ stickY (analog s') = stickY (analog s)
  /\ stickAngle (analog s') = stickAngle (analog s)
  /\ stickMagnitude (analog s') = stickMagnitude (analog s)
  /\ isActive (analog s') = isActive (analog s)
  /\ object3D s' = object3D s.
Proof.
  intros Hg Hi Hr s'. subst s'. unfold update_stick.
  destruct (object3D s) as [mesh|] eqn:Hm; [|rewrite Hm; tauto].
  unfold resolve_hand_position. rewrite Hg, Hi, Hr.
  destruct (initialPosition s); cbn; rewrite ?Hm; tauto.
Qed.

(** The stick held at the rim, on a frame that loses the hand. *)
Lemma unresolved_owner_keeps_axis_witness :
  let s' := update_stick 0.016 true false (Some lostHand) rimStick in
  stickX (analog s') = stickX (analog rimStick)
  /\ stickY (analog s') = stickY (analog rimStick)
  /\ stickAngle (analog s') = stickAngle (analog rimStick)
  /\ stickMagnitude (analog s') = stickMagnitude (analog rimStick)
  /\ isActive (analog s') = isActive (analog rimStick)
  /\ object3D s' = object3D rimStick.
Proof.
  apply (unresolved_owner_keeps_axis 0.016 false lostHand rimStick);
    reflexivity.
Defined.

(** ** Return to rest *)

(** One frame of a stick nobody holds. *)
Lemma release_step (dt : R) (s : Stick) (mesh : Mesh) (c : Vector3) (r : Euler) :
  object3D s = Some mesh ->
  initialPosition s = Some c ->
  initialRotation s = Some r ->
  let s' := update_stick dt false false None s in
  initialPosition s' = Some c
  /\ initialRotation s' = Some r
  /\ returnSpeed (analog s') = returnSpeed (analog s)
  /\ maxRadius (analog s') = maxRadius (analog s)
  /\ object3D s' =
     Some {| worldPosition :=
               if Rlt_dec 0.001 (distanceTo (worldPosition mesh) c)
               then lerp (worldPosition mesh) c (returnSpeed (analog s) * dt)
               else c;
             rotation := r |}.
Proof.
  intros Hm Hc Hr. cbv zeta. unfold update_stick. rewrite Hm, Hc.
  unfold return_to_center.
  destruct (grabbedHand s); cbn [initialPosition initialRotation analog];
    rewrite Hc, Hr;
    destruct (Rlt_dec 0.001 (distanceTo (worldPosition mesh) c));
    cbn; tauto.
Qed.

Lemma settled_distance (s : Stick) (mesh : Mesh) (c : Vector3) :
  object3D s = Some mesh -> initialPosition s = Some c ->
  distance_from_center s = distanceTo (worldPosition mesh) c.
Proof. intros Hm Hc. unfold distance_from_center. rewrite Hm, Hc. reflexivity. Qed.

Lemma release_step_settled (dt : R) (s : Stick) (c : Vector3) :
  settled s c ->
  settled (update_stick dt false false None s) c
  /\ returnSpeed (analog (update_stick dt false false None s))
     = returnSpeed (analog s).
Proof.
  intros ((mesh & Hm) & Hc & (r & Hr)).
  destruct (release_step dt s mesh c r Hm Hc Hr) as (Hc' & Hr' & Hrs & _ & Hm').
  unfold settled. eauto 10.
Qed.

(** The distance after one frame: scaled by [|1 - returnSpeed * dt|], or
    zero once the stick is within a millimetre of its rest position. *)
Lemma release_step_distance (dt : R) (s : Stick) (c : Vector3) :
  settled s c ->
  distance_from_center (update_stick dt false false None s) =
  if Rlt_dec 0.001 (distance_from_center s)
  then Rabs (1 - returnSpeed (analog s) * dt) * distance_from_center s
  else 0.
Proof.
  intros ((mesh & Hm) & Hc & (r & Hr)).
  destruct (release_step dt s mesh c r Hm Hc Hr) as (Hc' & _ & _ & _ & Hm').
  cbv zeta in Hc', Hm'.
  rewrite (settled_distance _ _ _ Hm' Hc'), (settled_distance _ _ _ Hm Hc).
  cbn [worldPosition].
  destruct (Rlt_dec 0.001 (distanceTo (worldPosition mesh) c)).
  - apply distanceTo_lerp.
  - apply distanceTo_self.
Qed.

Lemma release_run_app (dts : list R) (dt : R) (s : Stick) :
  release_run (dts ++ [dt]) s
  = update_stick dt false false None (release_run dts s).
Proof.
  revert s. induction dts as [|d dts IH]; intros s; [reflexivity|].
  cbn. apply IH.
Qed.

Lemma release_run_settled (dts : list R) (s : Stick) (c : Vector3) :
  settled s c ->
  settled (release_run dts s) c
  /\ returnSpeed (analog (release_run dts s)) = returnSpeed (analog s).
Proof.
  revert s. induction dts as [|dt dts IH]; intros s Hs; [tauto|].
  cbn. destruct (release_step_settled dt s c Hs) as [Hs' Hrs].
  destruct (IH _ Hs') as [Hs'' Hrs'']. split; [exact Hs''|congruence].
Qed.

Lemma distance_from_center_nonneg (s : Stick) : 0 <= distance_from_center s.
Proof.
  unfold distance_from_center.
  destruct (object3D s); [|lra]. destruct (initialPosition s); [|lra].
  apply distanceTo_nonneg.
Qed.

(** A stick at its rest position stays there. *)
Lemma center_is_stable (dts : list R) (s : Stick) (c : Vector3) :
  settled s c ->
  distance_from_center s <= 0.001 ->
  (0 < length dts)%nat ->
  distance_from_center (release_run dts s) = 0.
Proof.
  revert s. induction dts as [|dt dts IH]; intros s Hs Hd Hlen;
    [cbn in Hlen; lia|].
  cbn [release_run].
  destruct (release_step_settled dt s c Hs) as [Hs' _].
  pose proof (release_step_distance dt s c Hs) as Hstep.
  destruct (Rlt_dec 0.001 (distance_from_center s)); [lra|].
  destruct dts as [|dt' dts]; [exact Hstep|].
  apply IH; [exact Hs'|lra|cbn; lia].
Qed.

Lemma settles_within (q rs : R) (c : Vector3) (n : nat) :
  0 <= q ->
  forall (dts : list R) (s : Stick),
  settled s c ->
  returnSpeed (analog s) = rs ->
  Forall (fun dt => Rabs (1 - rs * dt) <= q) dts ->
  q ^ n * distance_from_center s <= 0.001 ->
  (n < length dts)%nat ->
  distance_from_center (release_run dts s) = 0.
Proof.
  intros Hq. induction n as [|n IH]; intros dts s Hs Hrs Hall Hd Hlen.
  - apply (center_is_stable dts s c Hs); [|exact Hlen].
    cbn in Hd. lra.
  - destruct dts as [|dt dts]; [cbn in Hlen; lia|].
    inversion Hall as [|d0 l0 Hdt Hrest]; subst d0 l0.
    destruct (Rlt_dec 0.001 (distance_from_center s)) as [Hfar|Hnear].
    + cbn [release_run].
      destruct (release_step_settled dt s c Hs) as [Hs' Hrs'].
      apply IH; [exact Hs'|congruence|exact Hrest| |cbn in Hlen; lia].
      rewrite (release_step_distance dt s c Hs).
      destruct (Rlt_dec 0.001 (distance_from_center s)); [|lra].
      rewrite Hrs.
      pose proof (pow_le q n Hq) as Hpow.
      pose proof (distance_from_center_nonneg s) as Hd0.
      cbn [pow] in Hd.
      apply Rle_trans with (2 := Hd).
      rewrite <- Rmult_assoc.
      apply Rmult_le_compat_r; [exact Hd0|].
      rewrite (Rmult_comm q). apply Rmult_le_compat_l; assumption.
    + apply (center_is_stable (dt :: dts) s c Hs); [lra|cbn; lia].
Qed.

Lemma enough_frames (q d : R) :
  0 <= q < 1 -> 0 <= d -> exists N : nat, q ^ N * d <= 0.001.
Proof.
  intros [Hq0 Hq1] Hd.
  assert (Hy : 0 < 0.001 / (d + 1)) by (apply Rdiv_lt_0_compat; lra).
  destruct (pow_lt_1_zero q) with (y := 0.001 / (d + 1)) as [N HN];
    [rewrite Rabs_pos_eq; lra | exact Hy |].
  exists N. specialize (HN N (Nat.le_refl N)).
  pose proof (pow_le q N Hq0) as Hpow.
  rewrite Rabs_pos_eq in HN by exact Hpow.
  assert (E : 0.001 / (d + 1) * (d + 1) = 0.001) by (field; lra).
  nra.
Qed.

(** C8, amended.  For a released stick whose frames run the update:
    - a frame with [0 <= returnSpeed * dt <= 2] does not increase the
      distance from the rest position;
    - while the stick is more than a millimetre away, a frame multiplies
      the distance by [|1 - returnSpeed * dt|];
    - if [|1 - returnSpeed * dt| <= q < 1] on every frame, the stick is
      exactly at its rest position after finitely many frames. *)
Theorem spring_return_contracts (s : Stick) (c : Vector3) (q : R) :
  settled s c ->
  0 <= q < 1 ->
  let rs := returnSpeed (analog s) in
  (forall (dts : list R) (dt : R),
     0 <= rs * dt <= 2 ->
     distance_from_center (release_run (dts ++ [dt]) s)
     <= distance_from_center (release_run dts s))
  /\ (forall (dts : list R) (dt : R),
       0.001 < distance_from_center (release_run dts s) ->
       distance_from_center (release_run (dts ++ [dt]) s)
       = Rabs (1 - rs * dt) * distance_from_center (release_run dts s))
  /\ exists N : nat, forall dts : list R,
       Forall (fun dt => Rabs (1 - rs * dt) <= q) dts ->
       (N < length dts)%nat ->
       distance_from_center (release_run dts s) = 0.
Proof.
  intros Hs Hq rs. split; [|split].
  - intros dts dt Ha. rewrite release_run_app.
    destruct (release_run_settled dts s c Hs) as [Hs' Hrs].
    rewrite (release_step_distance dt _ c Hs'), Hrs. fold rs.
    pose proof (distance_from_center_nonneg (release_run dts s)) as Hd.
    destruct (Rlt_dec 0.001 (distance_from_center (release_run dts s)));
      [|exact Hd].
    assert (Hab : Rabs (1 - rs * dt) <= 1) by (apply Rabs_le; lra).
    nra.
  - intros dts dt Hfar. rewrite release_run_app.
    destruct (release_run_settled dts s c Hs) as [Hs' Hrs].
    rewrite (release_step_distance dt _ c Hs'), Hrs. fold rs.
    destruct (Rlt_dec 0.001 (distance_from_center (release_run dts s)));
      [reflexivity|lra].
  - destruct (enough_frames q (distance_from_center s) Hq
                (distance_from_center_nonneg s)) as [N HN].
    exists N. intros dts Hall Hlen.
    apply (settles_within q rs c N (proj1 Hq) dts s Hs eq_refl Hall HN Hlen).
Qed.


(** ** The pulled stick *)

(** Unfolds the stick update on the concrete sticks of [StickScenes]. *)
Ltac unfold_stick :=
  cbv beta iota zeta delta
    [update_stick track_hand return_to_center release_run publish set_center
     resolve_hand_position pulledStick restingStick rimStick stick_at hand_at
     lostHand panelAnalog origin noRotation
     index object3D analog initialPosition initialRotation grabbedHand
     grabHandPosition worldPosition rotation
     centerX centerY centerZ maxRadius stickX stickY stickAngle
     stickMagnitude isActive returnSpeed
     handedness gripSpace indexTip raySpace vx vy vz].

Lemma pulled_distance : sqrt ((0.05 - 0) * (0.05 - 0) + (0 - 0) * (0 - 0)) = 0.05.
Proof.
  replace ((0.05 - 0) * (0.05 - 0) + (0 - 0) * (0 - 0)) with (0.05 * 0.05) by lra.
  apply sqrt_square. lra.
Qed.

Lemma pulledStick_pose :
  object3D pulledStick
  = Some {| worldPosition := {| vx := 0.03; vy := 0; vz := 0 |};
            rotation := noRotation |}
  /\ initialPosition pulledStick = Some origin
  /\ initialRotation pulledStick = Some noRotation
  /\ returnSpeed (analog pulledStick) = 5
  /\ maxRadius (analog pulledStick) = 0.03.
Proof.
  unfold_stick. rewrite pulled_distance.
  destruct (Rlt_dec 0.03 0.05); [|lra].
  repeat split. do 3 f_equal; lra.
Qed.

(** Scenario B: pulled past the rim along +X, the axis reads (1, 0) with
    magnitude 1. *)
Lemma pulledStick_axis :
  stickX (analog pulledStick) = 1
  /\ stickY (analog pulledStick) = 0
  /\ stickMagnitude (analog pulledStick) = 1.
Proof.
  unfold_stick. rewrite pulled_distance.
  destruct (Rlt_dec 0.03 0.05); [|lra].
  assert (Hm : Rmin (0.05 / 0.03) 1 = 1) by (apply Rmin_right; lra).
  rewrite Hm. destruct (Rlt_dec 0 1); [|lra].
  replace ((0.05 - 0) * (0.03 / 0.05) / 0.03) with 1 by lra.
  replace ((0 - 0) * (0.03 / 0.05) / 0.03) with 0 by lra.
  rewrite (Rmin_left 1 1), (Rmin_right 1 0), !Rmax_right by lra.
  tauto.
Qed.

(** What a frame publishes for a stick nobody holds that is more than a
    millimetre from its rest position. *)
Lemma release_step_publishes (dt : R) (s : Stick) (mesh : Mesh)
    (c : Vector3) (r : Euler) :
  object3D s = Some mesh ->
  initialPosition s = Some c ->
  initialRotation s = Some r ->
  0.001 < distanceTo (worldPosition mesh) c ->
  let s' := update_stick dt false false None s in
  let deltaX := vx (worldPosition mesh) - vx c in
  let deltaZ := vz (worldPosition mesh) - vz c in
  let horizontalDistance := sqrt (deltaX * deltaX + deltaZ * deltaZ) in
  let magnitude := Rmin (horizontalDistance / maxRadius (analog s)) 1 in
  stickMagnitude (analog s') = magnitude
  /\ stickX (analog s')
     = (if Rlt_dec 0 magnitude then deltaX / maxRadius (analog s) else 0)
  /\ stickY (analog s')
     = (if Rlt_dec 0 magnitude then deltaZ / maxRadius (analog s) else 0).
Proof.
  intros Hm Hc Hr Hfar. cbv zeta. unfold update_stick. rewrite Hm, Hc.
  unfold return_to_center.
  destruct (grabbedHand s); cbn [initialPosition initialRotation analog];
    rewrite Hc, Hr;
    (destruct (Rlt_dec 0.001 (distanceTo (worldPosition mesh) c)); [|lra]);
    cbn; tauto.
Qed.

Lemma rim_distance :
  distanceTo {| vx := 0.03; vy := 0; vz := 0 |} origin = 0.03.
Proof. unfold origin. rewrite distanceTo_x, Rabs_pos_eq; lra. Qed.

(** C3 fails on released frames.  The panel stick is pulled to the rim
    (Scenario B) and released; one long frame (0.5 s, so that
    [returnSpeed * dt = 2.5]) carries it past its rest position; on the
    next frame the published [stickX] is -1.5. *)
Theorem released_axis_leaves_range :
  stickX (analog (release_run [0.5; 0.016] pulledStick)) < -1.
Proof.
  destruct pulledStick_pose as (Hm & Hc & Hr & Hrs & Hmax).
  cbn [release_run].
  destruct (release_step 0.5 pulledStick _ origin noRotation Hm Hc Hr)
    as (Hc1 & Hr1 & _ & Hmax1 & Hm1).
  cbv zeta in Hc1, Hr1, Hmax1, Hm1.
  set (s1 := update_stick 0.5 false false None pulledStick) in *.
  cbn [worldPosition] in Hm1. rewrite Hrs in Hm1.
  rewrite rim_distance in Hm1.
  destruct (Rlt_dec 0.001 0.03) as [_|]; [|lra].
  assert (Hfar : 0.001 < distanceTo
            (lerp {| vx := 0.03; vy := 0; vz := 0 |} origin (5 * 0.5)) origin).
  { rewrite distanceTo_lerp, rim_distance.
    unfold Rabs. destruct (Rcase_abs (1 - 5 * 0.5)); lra. }
  destruct (release_step_publishes 0.016 s1 _ origin noRotation Hm1 Hc1 Hr1 Hfar)
    as (_ & HX & _).
  cbv zeta in HX. rewrite HX, Hmax1, Hmax.
  cbn [worldPosition lerp vx vy vz origin].
  set (dx := 0.03 + (0 - 0.03) * (5 * 0.5) - 0).
  set (dz := 0 + (0 - 0) * (5 * 0.5) - 0).
  assert (Hh : sqrt (dx * dx + dz * dz) = 0.045).
  { replace (dx * dx + dz * dz) with (0.045 * 0.045) by (subst dx dz; lra).
    apply sqrt_square. lra. }
  rewrite Hh.
  rewrite (Rmin_right (0.045 / 0.03) 1) by lra.
  destruct (Rlt_dec 0 1); [|lra].
  subst dx. lra.
Qed.

Lemma pulledStick_settled : settled pulledStick origin.
Proof.
  destruct pulledStick_pose as (Hm & Hc & Hr & _).
  unfold settled. eauto.
Qed.

Lemma pulledStick_distance : distance_from_center pulledStick = 0.03.
Proof.
  destruct pulledStick_pose as (Hm & Hc & _).
  rewrite (settled_distance _ _ _ Hm Hc). apply rim_distance.
Qed.

(** The released panel stick with 0.92 as contraction factor (the factor
    of a 16 ms frame). *)
Lemma spring_return_contracts_witness :
  let rs := returnSpeed (analog pulledStick) in
  (forall (dts : list R) (dt : R),
     0 <= rs * dt <= 2 ->
     distance_from_center (release_run (dts ++ [dt]) pulledStick)
     <= distance_from_center (release_run dts pulledStick))
  /\ (forall (dts : list R) (dt : R),
       0.001 < distance_from_center (release_run dts pulledStick) ->
       distance_from_center (release_run (dts ++ [dt]) pulledStick)
       = Rabs (1 - rs * dt) * distance_from_center (release_run dts pulledStick))
  /\ exists N : nat, forall dts : list R,
       Forall (fun dt => Rabs (1 - rs * dt) <= 0.92) dts ->
       (N < length dts)%nat ->
       distance_from_center (release_run dts pulledStick) = 0.
Proof.
  apply (spring_return_contracts pulledStick origin 0.92 pulledStick_settled).
  lra.
Defined.

(** C8 as stated fails: released at the rim, the panel stick is farther
    from its rest position after one frame of 0.5 s than before it. *)
Lemma long_frame_moves_stick_away :
  distance_from_center pulledStick
  < distance_from_center (release_run [0.5] pulledStick).
Proof.
  cbn [release_run].
  rewrite (release_step_distance 0.5 pulledStick origin pulledStick_settled).
  rewrite pulledStick_distance.
  destruct (Rlt_dec 0.001 0.03); [|lra].
  destruct pulledStick_pose as (_ & _ & _ & -> & _).
  unfold Rabs. destruct (Rcase_abs (1 - 5 * 0.5)); lra.
Qed.

(** ** The range of the published axis *)

(** X5.  On an attached frame that tracks the hand, the magnitude is the planar
    distance over [maxRadius] clamped to [[0, 1]], and both axis values lie
    in [[-1, 1]]. *)
Lemma attached_axis_is_clamped (s : Stick) (mesh : Mesh)
    (initialPos : Vector3) (initialRot : Euler)
    (handPosition grabHandPos : Vector3) :
  0 < maxRadius (analog s) ->
  let s' := track_hand s mesh initialPos initialRot handPosition grabHandPos in
  let deltaX := vx handPosition - vx grabHandPos in
  let deltaZ := vz handPosition - vz grabHandPos in
  let planarDistance := sqrt (deltaX * deltaX + deltaZ * deltaZ) in
  stickMagnitude (analog s')
  = Rmax 0 (Rmin (planarDistance / maxRadius (analog s)) 1)
  /\ -1 <= stickX (analog s') <= 1
  /\ -1 <= stickY (analog s') <= 1.
Proof.
  intros Hmax. cbv zeta. unfold track_hand. cbn.
  set (hd := sqrt _).
  assert (Hhd : 0 <= hd / maxRadius (analog s)).
  { apply Rle_mult_inv_pos; [apply sqrt_pos|exact Hmax]. }
  split.
  - symmetry. apply Rmax_right. apply Rmin_glb; lra.
  - split; (split; [apply Rmax_l|apply Rmax_lub; [lra|apply Rmin_l]]).
Qed.

Lemma attached_axis_is_clamped_witness :
  let s' := track_hand restingStick
              {| worldPosition := origin; rotation := noRotation |}
              origin noRotation {| vx := 0.05; vy := 0; vz := 0 |} origin in
  stickMagnitude (analog s')
  = Rmax 0 (Rmin (sqrt ((0.05 - 0) * (0.05 - 0) + (0 - 0) * (0 - 0))
                  / maxRadius (analog restingStick)) 1)
  /\ -1 <= stickX (analog s') <= 1
  /\ -1 <= stickY (analog s') <= 1.
Proof.
  apply (attached_axis_is_clamped restingStick
           {| worldPosition := origin; rotation := noRotation |}
           origin noRotation {| vx := 0.05; vy := 0; vz := 0 |} origin).
  cbn. lra.
Defined.

(** X6.  On a released frame that recomputes the axis, the magnitude is the
    planar distance from the rest position over [maxRadius] clamped to
    [[0, 1]]; the axis values are not clamped, and lie in [[-1, 1]] when
    that distance does not exceed [maxRadius]. *)
Lemma released_axis_within_radius (dt : R) (s : Stick) (mesh : Mesh)
    (c : Vector3) (r : Euler) :
  object3D s = Some mesh ->
  initialPosition s = Some c ->
  initialRotation s = Some r ->
  0.001 < distanceTo (worldPosition mesh) c ->
  0 < maxRadius (analog s) ->
  let s' := update_stick dt false false None s in
  let deltaX := vx (worldPosition mesh) - vx c in
  let deltaZ := vz (worldPosition mesh) - vz c in
  let planarDistance := sqrt (deltaX * deltaX + deltaZ * deltaZ) in
  stickMagnitude (analog s')
  = Rmax 0 (Rmin (planarDistance / maxRadius (analog s)) 1)
  /\ (planarDistance <= maxRadius (analog s) ->
      -1 <= stickX (analog s') <= 1 /\ -1 <= stickY (analog s') <= 1).
Proof.
  intros Hm Hc Hr Hfar Hmax.
  destruct (release_step_publishes dt s mesh c r Hm Hc Hr Hfar)
    as (HM & HX & HY).
  cbv zeta in HM, HX, HY |- *. rewrite HM, HX, HY.
  set (dx := vx (worldPosition mesh) - vx c).
  set (dz := vz (worldPosition mesh) - vz c).
  set (hd := sqrt (dx * dx + dz * dz)).
  assert (Hhd : 0 <= hd) by apply sqrt_pos.
  assert (Hq : 0 <= hd / maxRadius (analog s))
    by (apply Rle_mult_inv_pos; assumption).
  split.
  - symmetry. apply Rmax_right. apply Rmin_glb; lra.
  - intros Hin.
    assert (Hsq : hd * hd = dx * dx + dz * dz).
    { subst hd. apply sqrt_sqrt. nra. }
    assert (Hdx : - hd <= dx <= hd) by (split; nra).
    assert (Hdz : - hd <= dz <= hd) by (split; nra).
    assert (Hi : 0 < / maxRadius (analog s)) by (apply Rinv_0_lt_compat, Hmax).
    unfold Rdiv.
    destruct (Rlt_dec 0 (Rmin (hd * / maxRadius (analog s)) 1));
      repeat split; try lra;
      [apply Rmult_le_reg_r with (maxRadius (analog s)) |
       apply Rmult_le_reg_r with (maxRadius (analog s)) |
       apply Rmult_le_reg_r with (maxRadius (analog s)) |
       apply Rmult_le_reg_r with (maxRadius (analog s))];
      try exact Hmax;
      rewrite ?Rmult_assoc, ?Rinv_l by lra; lra.
Qed.

Lemma released_axis_within_radius_witness :
  let s' := update_stick 0.016 false false None pulledStick in
  let planarDistance := sqrt ((0.03 - 0) * (0.03 - 0) + (0 - 0) * (0 - 0)) in
  stickMagnitude (analog s')
  = Rmax 0 (Rmin (planarDistance / maxRadius (analog pulledStick)) 1)
  /\ (planarDistance <= maxRadius (analog pulledStick) ->
      -1 <= stickX (analog s') <= 1 /\ -1 <= stickY (analog s') <= 1).
Proof.
  destruct pulledStick_pose as (Hm & Hc & Hr & _ & Hmax).
  apply (released_axis_within_radius 0.016 pulledStick _ origin noRotation
           Hm Hc Hr).
  - cbn [worldPosition]. rewrite rim_distance. lra.
  - rewrite Hmax. lra.
Defined.

(** ** A held stick follows the hand *)

Lemma planar_norm (dx dz : R) :
  let hd := sqrt (dx * dx + dz * dz) in
  0 <= hd /\ hd * hd = dx * dx + dz * dz /\ - hd <= dx <= hd /\ - hd <= dz <= hd.
Proof.
  cbv zeta. set (hd := sqrt _).
  assert (H0 : 0 <= hd) by apply sqrt_pos.
  assert (Hsq : hd * hd = dx * dx + dz * dz) by (apply sqrt_sqrt; nra).
  repeat split; try assumption; nra.
Qed.

Lemma clamp_inside (x : R) : -1 <= x <= 1 -> Rmax (-1) (Rmin 1 x) = x.
Proof.
  intros [H1 H2]. rewrite (Rmin_right 1 x) by exact H2.
  apply Rmax_right. exact H1.
Qed.

(** The published axis, the magnitude and the place of the mesh on a frame
    that tracks the hand, in terms of the displacement of the hand from the
    grab reference.  [reach] is the planar length of the displacement, or
    [maxRadius] when that is larger. *)
Lemma track_hand_axis (s : Stick) (mesh : Mesh) (initialPos : Vector3)
    (initialRot : Euler) (handPosition grabHandPos : Vector3) :
  0 < maxRadius (analog s) ->
  let s' := track_hand s mesh initialPos initialRot handPosition grabHandPos in
  let deltaX := vx handPosition - vx grabHandPos in
  let deltaZ := vz handPosition - vz grabHandPos in
  let planarDistance := sqrt (deltaX * deltaX + deltaZ * deltaZ) in
  let reach := Rmax planarDistance (maxRadius (analog s)) in
  stickX (analog s') * reach = deltaX
  /\ stickY (analog s') * reach = deltaZ
  /\ stickMagnitude (analog s') * reach = planarDistance
  /\ exists mesh',
       object3D s' = Some mesh'
       /\ rotation mesh' = initialRot
       /\ vx (worldPosition mesh')
          = vx initialPos + stickX (analog s') * maxRadius (analog s)
       /\ vy (worldPosition mesh') = vy initialPos
       /\ vz (worldPosition mesh')
          = vz initialPos + stickY (analog s') * maxRadius (analog s).
Proof.
  intros Hmax. cbv zeta.
  set (dx := vx handPosition - vx grabHandPos).
  set (dz := vz handPosition - vz grabHandPos).
  destruct (planar_norm dx dz) as (H0 & Hsq & Hdx & Hdz). cbv zeta in *.
  unfold track_hand. cbn. fold dx dz.
  set (hd := sqrt (dx * dx + dz * dz)) in *.
  set (R0 := maxRadius (analog s)) in *.
  destruct (Rlt_dec R0 hd) as [Hout|Hin].
  - (* beyond the radius *)
    assert (Hhd : 0 < hd) by lra.
    assert (Hm : Rmin (hd / R0) 1 = 1).
    { apply Rmin_right. apply Rmult_le_reg_r with R0; [exact Hmax|].
      unfold Rdiv. rewrite Rmult_assoc, Rinv_l by lra. lra. }
    rewrite Hm. destruct (Rlt_dec 0 1) as [_|]; [|lra].
    assert (Ex : dx * (R0 / hd) / R0 = dx / hd) by (field; lra).
    assert (Ez : dz * (R0 / hd) / R0 = dz / hd) by (field; lra).
    rewrite Ex, Ez.
    assert (Bx : -1 <= dx / hd <= 1).
    { split; apply Rmult_le_reg_r with hd; try exact Hhd;
        unfold Rdiv; rewrite Rmult_assoc, Rinv_l by lra; lra. }
    assert (Bz : -1 <= dz / hd <= 1).
    { split; apply Rmult_le_reg_r with hd; try exact Hhd;
        unfold Rdiv; rewrite Rmult_assoc, Rinv_l by lra; lra. }
    rewrite (clamp_inside _ Bx), (clamp_inside _ Bz).
    rewrite (Rmax_left hd R0) by lra.
    split; [field; lra|]. split; [field; lra|]. split; [lra|].
    eexists. split; [reflexivity|]. cbn.
    split; [reflexivity|]. split; [field; lra|].
    split; [reflexivity|field; lra].
  - (* within the radius *)
    assert (Hle : hd <= R0) by lra.
    assert (Hm : Rmin (hd / R0) 1 = hd / R0).
    { apply Rmin_left. apply Rmult_le_reg_r with R0; [exact Hmax|].
      unfold Rdiv. rewrite Rmult_assoc, Rinv_l by lra. lra. }
    rewrite Hm. rewrite (Rmax_right hd R0) by lra.
    destruct (Rlt_dec 0 (hd / R0)) as [Hpos|Hzero].
    + assert (Bx : -1 <= dx / R0 <= 1).
      { split; apply Rmult_le_reg_r with R0; try exact Hmax;
          unfold Rdiv; rewrite Rmult_assoc, Rinv_l by lra; lra. }
      assert (Bz : -1 <= dz / R0 <= 1).
      { split; apply Rmult_le_reg_r with R0; try exact Hmax;
          unfold Rdiv; rewrite Rmult_assoc, Rinv_l by lra; lra. }
      rewrite (clamp_inside _ Bx), (clamp_inside _ Bz).
      split; [field; lra|]. split; [field; lra|]. split; [field; lra|].
      eexists. split; [reflexivity|]. cbn.
      split; [reflexivity|]. split; [field; lra|].
      split; [reflexivity|field; lra].
    + assert (Hhd : hd = 0).
      { assert (0 <= hd / R0) by (apply Rle_mult_inv_pos; assumption).
        assert (E : hd / R0 = 0) by lra.
        apply (f_equal (fun x => x * R0)) in E.
        unfold Rdiv in E. rewrite Rmult_assoc, Rinv_l in E by lra. lra. }
      assert (Edx : dx = 0) by lra.
      assert (Edz : dz = 0) by lra.
      rewrite (clamp_inside 0) by lra.
      rewrite Hhd, Edx, Edz.
      split; [lra|]. split; [lra|]. split; [unfold Rdiv; lra|].
      eexists. split; [reflexivity|]. cbn.
      split; [reflexivity|]. split; [lra|]. split; [reflexivity|lra].
Qed.

(** The length of the published axis and the place of the mesh on a frame
    that tracks the hand. *)
Lemma held_axis_geometry (s : Stick) (mesh : Mesh) (initialPos : Vector3)
    (initialRot : Euler) (handPosition grabHandPos : Vector3) :
  0 < maxRadius (analog s) ->
  let s' := track_hand s mesh initialPos initialRot handPosition grabHandPos in
  stickX (analog s') * stickX (analog s')
  + stickY (analog s') * stickY (analog s')
  = stickMagnitude (analog s') * stickMagnitude (analog s')
  /\ 0 <= stickMagnitude (analog s')
  /\ stickMagnitude (analog s') <= 1
  /\ exists mesh',
       object3D s' = Some mesh'
       /\ worldPosition mesh'
          = {| vx := vx initialPos + stickX (analog s') * maxRadius (analog s);
               vy := vy initialPos;
               vz := vz initialPos + stickY (analog s') * maxRadius (analog s) |}
       /\ distanceTo (worldPosition mesh') initialPos
          = stickMagnitude (analog s') * maxRadius (analog s).
Proof.
  intros Hmax.
  pose proof (track_hand_axis s mesh initialPos initialRot handPosition
                grabHandPos Hmax) as H.
  cbv zeta in H |- *.
  set (s' := track_hand s mesh initialPos initialRot handPosition grabHandPos)
    in *.
  set (dx := vx handPosition - vx grabHandPos) in *.
  set (dz := vz handPosition - vz grabHandPos) in *.
  destruct (planar_norm dx dz) as (H0 & Hsq & _ & _). cbv zeta in *.
  set (hd := sqrt (dx * dx + dz * dz)) in *.
  set (R0 := maxRadius (analog s)) in *.
  destruct H as (HX & HY & HM & mesh' & Ho & _ & Hvx & Hvy & Hvz).
  assert (Hreach : 0 < Rmax hd R0).
  { apply Rlt_le_trans with R0; [exact Hmax|apply Rmax_r]. }
  set (reach := Rmax hd R0) in *.
  set (X := stickX (analog s')) in *.
  set (Y := stickY (analog s')) in *.
  set (M := stickMagnitude (analog s')) in *.
  assert (HMpos : 0 <= M).
  { apply Rmult_le_reg_r with reach; [exact Hreach|]. lra. }
  assert (HMle : M <= 1).
  { apply Rmult_le_reg_r with reach; [exact Hreach|].
    rewrite HM. unfold reach. pose proof (Rmax_l hd R0). lra. }
  assert (Hlen : X * X + Y * Y = M * M).
  { apply Rmult_eq_reg_r with (reach * reach); [|nra].
    replace ((X * X + Y * Y) * (reach * reach))
      with ((X * reach) * (X * reach) + (Y * reach) * (Y * reach)) by ring.
    replace (M * M * (reach * reach)) with ((M * reach) * (M * reach)) by ring.
    rewrite HX, HY, HM. lra. }
  split; [exact Hlen|]. split; [exact HMpos|]. split; [exact HMle|].
  exists mesh'. split; [exact Ho|].
  assert (Hpos : worldPosition mesh'
                 = {| vx := vx initialPos + X * R0; vy := vy initialPos;
                      vz := vz initialPos + Y * R0 |}).
  { destruct (worldPosition mesh') as [a b c]. cbn in Hvx, Hvy, Hvz.
    rewrite Hvx, Hvy, Hvz. reflexivity. }
  split; [exact Hpos|].
  rewrite Hpos. unfold distanceTo. cbn [vx vy vz].
  replace ((vx initialPos + X * R0 - vx initialPos)
           * (vx initialPos + X * R0 - vx initialPos)
           + (vy initialPos - vy initialPos) * (vy initialPos - vy initialPos)
           + (vz initialPos + Y * R0 - vz initialPos)
             * (vz initialPos + Y * R0 - vz initialPos))
    with ((M * R0) * (M * R0)).
  - apply sqrt_square. nra.
  - replace ((M * R0) * (M * R0)) with (M * M * (R0 * R0)) by ring.
    rewrite <- Hlen. ring.
Qed.

(** X4.  A held stick follows the hand.  On an attached frame that tracks the
    hand, with [maxRadius > 0]: the published axis is the displacement of
    the hand from the grab reference divided by [reach], the planar length
    of that displacement or [maxRadius] if that is larger; the axis vector
    has length [stickMagnitude]; and the mesh is placed at its rest
    position moved by the axis times [maxRadius], at rest height, so never
    farther than [maxRadius] from rest. *)
Theorem held_stick_follows_hand (s : Stick) (mesh : Mesh)
    (initialPos : Vector3) (initialRot : Euler)
    (handPosition grabHandPos : Vector3) :
  0 < maxRadius (analog s) ->
  let s' := track_hand s mesh initialPos initialRot handPosition grabHandPos in
  let deltaX := vx handPosition - vx grabHandPos in
  let deltaZ := vz handPosition - vz grabHandPos in
  let reach := Rmax (sqrt (deltaX * deltaX + deltaZ * deltaZ))
                    (maxRadius (analog s)) in
  stickX (analog s') = deltaX / reach
  /\ stickY (analog s') = deltaZ / reach
  /\ stickX (analog s') * stickX (analog s')
     + stickY (analog s') * stickY (analog s')
     = stickMagnitude (analog s') * stickMagnitude (analog s')
  /\ exists mesh',
       object3D s' = Some mesh'
       /\ worldPosition mesh'
          = {| vx := vx initialPos + stickX (analog s') * maxRadius (analog s);
               vy := vy initialPos;
               vz := vz initialPos + stickY (analog s') * maxRadius (analog s) |}
       /\ distanceTo (worldPosition mesh') initialPos
          = stickMagnitude (analog s') * maxRadius (analog s)
       /\ distanceTo (worldPosition mesh') initialPos <= maxRadius (analog s).
Proof.
  intros Hmax.
  pose proof (track_hand_axis s mesh initialPos initialRot handPosition
                grabHandPos Hmax) as (HX & HY & _).
  destruct (held_axis_geometry s mesh initialPos initialRot handPosition
              grabHandPos Hmax)
    as (Hlen & HM0 & HM1 & mesh' & Ho & Hpos & Hd).
  cbv zeta in *.
  assert (Hreach :
            0 < Rmax (sqrt ((vx handPosition - vx grabHandPos)
                            * (vx handPosition - vx grabHandPos)
                            + (vz handPosition - vz grabHandPos)
                              * (vz handPosition - vz grabHandPos)))
                     (maxRadius (analog s))).
  { apply Rlt_le_trans with (maxRadius (analog s)); [exact Hmax|apply Rmax_r]. }
  split.
  { eapply Rmult_eq_reg_r; [|apply Rgt_not_eq, Hreach].
    rewrite HX. field. lra. }
  split.
  { eapply Rmult_eq_reg_r; [|apply Rgt_not_eq, Hreach].
    rewrite HY. field. lra. }
  split; [exact Hlen|].
  exists mesh'. split; [exact Ho|]. split; [exact Hpos|].
  split; [exact Hd|]. rewrite Hd. nra.
Qed.

Lemma held_stick_follows_hand_witness :
  let s' := track_hand restingStick
              {| worldPosition := origin; rotation := noRotation |}
              origin noRotation {| vx := 0.05; vy := 0; vz := 0 |} origin in
  let reach := Rmax (sqrt ((0.05 - 0) * (0.05 - 0) + (0 - 0) * (0 - 0)))
                    (maxRadius (analog restingStick)) in
  stickX (analog s') = (0.05 - 0) / reach
  /\ stickY (analog s') = (0 - 0) / reach
  /\ stickX (analog s') * stickX (analog s')
     + stickY (analog s') * stickY (analog s')
     = stickMagnitude (analog s') * stickMagnitude (analog s')
  /\ exists mesh',
       object3D s' = Some mesh'
       /\ worldPosition mesh'
          = {| vx := vx origin
                     + stickX (analog s') * maxRadius (analog restingStick);
               vy := vy origin;
               vz := vz origin
                     + stickY (analog s') * maxRadius (analog restingStick) |}
       /\ distanceTo (worldPosition mesh') origin
          = stickMagnitude (analog s') * maxRadius (analog restingStick)
       /\ distanceTo (worldPosition mesh') origin
          <= maxRadius (analog restingStick).
Proof.
  apply (held_stick_follows_hand restingStick
           {| worldPosition := origin; rotation := noRotation |}
           origin noRotation {| vx := 0.05; vy := 0; vz := 0 |} origin).
  cbn. lra.
Defined.

(** ** The frame of the grab *)

(** X11.  The frame on which a stick is grabbed records the hand position as the
    reference and reads zero: whatever the position of the hand and of the
    stick, the axis and the magnitude are 0, the stick is active, and the
    mesh is placed at its rest position. *)
Theorem grab_frame_reads_zero (dt : R) (s : Stick) (mesh : Mesh) (hand : Hand)
    (handPosition : Vector3) :
  object3D s = Some mesh ->
  resolve_hand_position hand = Some handPosition ->
  rest_pose_paired s ->
  0 < maxRadius (analog s) ->
  let s' := update_stick dt true true (Some hand) s in
  stickX (analog s') = 0
  /\ stickY (analog s') = 0
  /\ stickAngle (analog s') = 0
  /\ stickMagnitude (analog s') = 0
  /\ isActive (analog s') = true
  /\ grabbedHand s' = Some (handedness hand)
  /\ grabHandPosition s' = Some handPosition
  /\ worldPosition <$> object3D s'
     = Some (default (worldPosition mesh) (initialPosition s)).
Proof.
  intros Hm Hh Hpair Hmax. cbv zeta.
  unfold update_stick. rewrite Hm.
  assert (Hsq0 : sqrt ((vx handPosition - vx handPosition)
                       * (vx handPosition - vx handPosition)
                       + (vz handPosition - vz handPosition)
                         * (vz handPosition - vz handPosition)) = 0).
  { replace (_ + _) with 0 by ring. apply sqrt_0. }
  destruct (initialPosition s) as [c|] eqn:Hc.
  - destruct (Hpair (ltac:(eauto))) as [r Hr].
    cbn [index object3D analog initialPosition initialRotation grabbedHand
         grabHandPosition].
    rewrite Hh.
    cbn [index object3D analog initialPosition initialRotation grabbedHand
         grabHandPosition].
    rewrite Hc, Hr. unfold track_hand.
    cbn [index object3D analog initialPosition initialRotation grabbedHand
         grabHandPosition publish stickX stickY stickAngle stickMagnitude
         isActive maxRadius].
    rewrite Hsq0.
    destruct (Rlt_dec (maxRadius (analog s)) 0); [lra|].
    destruct (Rlt_dec 0.001 0); [lra|].
    assert (E : Rmin (0 / maxRadius (analog s)) 1 = 0).
    { unfold Rdiv. rewrite Rmult_0_l. apply Rmin_left. lra. }
    rewrite E. destruct (Rlt_dec 0 0); [lra|].
    rewrite (Rmin_right 1 0), (Rmax_right (-1) 0) by lra.
    repeat split. destruct c as [c1 c2 c3]. cbn. f_equal.
    f_equal; lra.
  - cbn [index object3D analog initialPosition initialRotation grabbedHand
         grabHandPosition].
    rewrite Hh.
    cbn [index object3D analog initialPosition initialRotation grabbedHand
         grabHandPosition].
    unfold track_hand.
    cbn [index object3D analog initialPosition initialRotation grabbedHand
         grabHandPosition publish set_center stickX stickY stickAngle
         stickMagnitude isActive maxRadius].
    rewrite Hsq0.
    destruct (Rlt_dec (maxRadius (analog s)) 0); [lra|].
    destruct (Rlt_dec 0.001 0); [lra|].
    assert (E : Rmin (0 / maxRadius (analog s)) 1 = 0).
    { unfold Rdiv. rewrite Rmult_0_l. apply Rmin_left. lra. }
    rewrite E. destruct (Rlt_dec 0 0); [lra|].
    rewrite (Rmin_right 1 0), (Rmax_right (-1) 0) by lra.
    repeat split. cbn. destruct (worldPosition mesh) as [c1 c2 c3].
    cbn. f_equal. f_equal; lra.
Qed.

Lemma restingStick_paired : rest_pose_paired restingStick.
Proof. intros _. eexists. reflexivity. Qed.

Lemma grab_frame_reads_zero_witness :
  let s' := update_stick 0.016 true true
              (Some (hand_at {| vx := 0.2; vy := 1; vz := 0.3 |})) restingStick in
  stickX (analog s') = 0
  /\ stickY (analog s') = 0
  /\ stickAngle (analog s') = 0
  /\ stickMagnitude (analog s') = 0
  /\ isActive (analog s') = true
  /\ grabbedHand s' = Some "right"
  /\ grabHandPosition s' = Some {| vx := 0.2; vy := 1; vz := 0.3 |}
  /\ worldPosition <$> object3D s' = Some origin.
Proof.
  apply (grab_frame_reads_zero 0.016 restingStick
           {| worldPosition := origin; rotation := noRotation |}
           (hand_at {| vx := 0.2; vy := 1; vz := 0.3 |})
           {| vx := 0.2; vy := 1; vz := 0.3 |}).
  - reflexivity.
  - reflexivity.
  - exact restingStick_paired.
  - cbn. lra.
Defined.

(** ** What a frame never touches *)

Lemma return_to_center_setup (dt : R) (s : Stick) (mesh : Mesh) :
  same_setup (return_to_center dt s mesh) s.
Proof.
  unfold return_to_center, same_setup.
  destruct (initialPosition s) as [c|] eqn:Hc; [|repeat split; congruence].
  destruct (initialRotation s) as [r|] eqn:Hr; [|repeat split; congruence].
  destruct (Rlt_dec 0.001 (distanceTo (worldPosition mesh) c));
    cbn; repeat split; congruence.
Qed.

(** Whatever a frame does to a stick, it leaves the setup that [capture]
    establishes. *)
Lemma update_stick_setup (dt : R) (w j : bool) (o : option Hand) (s : Stick) :
  same_setup (update_stick dt w j o s) (capture s).
Proof.
  unfold update_stick, capture.
  destruct (object3D s) as [mesh|] eqn:Hm; [|unfold same_setup; repeat split].
  match goal with
  | |- context [match initialPosition s with Some _ => s | None => ?x end] =>
      set (s1 := match initialPosition s with Some _ => s | None => x end)
  end.
  clearbody s1.
  assert (Hret : forall s2, same_setup s2 s1 ->
            same_setup (return_to_center dt s2 mesh) s1).
  { intros s2 H2. pose proof (return_to_center_setup dt s2 mesh) as H.
    unfold same_setup in *. intuition congruence. }
  destruct w.
  - destruct o as [hand|];
      [|apply Hret; unfold same_setup; repeat split].
    destruct (resolve_hand_position hand) as [hp|];
      [|unfold same_setup; cbn; repeat split].
    destruct j; cbn [grabHandPosition initialPosition initialRotation].
    + destruct (initialPosition s1) as [c|] eqn:Hc;
        [|unfold same_setup; cbn; repeat split; congruence].
      destruct (initialRotation s1) as [r|] eqn:Hr;
        [|unfold same_setup; cbn; repeat split; congruence].
      unfold same_setup, track_hand. cbn. repeat split; congruence.
    + destruct (grabHandPosition s1) as [g|];
        [|unfold same_setup; cbn; repeat split].
      destruct (initialPosition s1) as [c|] eqn:Hc;
        [|unfold same_setup; cbn; repeat split; congruence].
      destruct (initialRotation s1) as [r|] eqn:Hr;
        [|unfold same_setup; cbn; repeat split; congruence].
      unfold same_setup, track_hand. cbn. repeat split; congruence.
  - destruct (grabbedHand s1); apply Hret; unfold same_setup; cbn;
      repeat split.
Qed.

Lemma update_stick_config (dt : R) (w j : bool) (o : option Hand) (s : Stick) :
  let s' := update_stick dt w j o s in
  index s' = index s
  /\ maxRadius (analog s') = maxRadius (analog s)
  /\ returnSpeed (analog s') = returnSpeed (analog s).
Proof.
  cbv zeta.
  destruct (update_stick_setup dt w j o s)
    as (H1 & _ & _ & _ & _ & _ & H7 & H8).
  rewrite H1, H7, H8. unfold capture.
  destruct (object3D s); [|auto]. destruct (initialPosition s); cbn; auto.
Qed.

Lemma update_stick_rest_kept (dt : R) (w j : bool) (o : option Hand)
    (s : Stick) (c : Vector3) :
  initialPosition s = Some c ->
  let s' := update_stick dt w j o s in
  initialPosition s' = Some c
  /\ initialRotation s' = initialRotation s
  /\ centerX (analog s') = centerX (analog s)
  /\ centerY (analog s') = centerY (analog s)
  /\ centerZ (analog s') = centerZ (analog s).
Proof.
  intros Hc. cbv zeta.
  destruct (update_stick_setup dt w j o s)
    as (_ & H2 & H3 & H4 & H5 & H6 & _).
  assert (E : capture s = s).
  { unfold capture. rewrite Hc. destruct (object3D s); reflexivity. }
  rewrite E in H2, H3, H4, H5, H6. rewrite H2, H3, H4, H5, H6. auto.
Qed.

Lemma update_stick_rest_captured (dt : R) (w j : bool) (o : option Hand)
    (s : Stick) (mesh : Mesh) :
  object3D s = Some mesh ->
  initialPosition s = None ->
  let s' := update_stick dt w j o s in
  initialPosition s' = Some (worldPosition mesh)
  /\ initialRotation s' = Some (rotation mesh)
  /\ centerX (analog s') = vx (worldPosition mesh)
  /\ centerY (analog s') = vy (worldPosition mesh)
  /\ centerZ (analog s') = vz (worldPosition mesh).
Proof.
  intros Hm Hc. cbv zeta.
  destruct (update_stick_setup dt w j o s)
    as (_ & H2 & H3 & H4 & H5 & H6 & _).
  unfold capture in H2, H3, H4, H5, H6. rewrite Hm, Hc in H2, H3, H4, H5, H6.
  cbn in H2, H3, H4, H5, H6. auto.
Qed.

(** X12.  The rest pose is captured once.  A stick with a mesh and no recorded
    rest position records, on its first frame, the world position and the
    rotation of the mesh and copies the position into [centerX/Y/Z].  From
    then on, over any sequence of frames and whatever the hands do, the
    recorded rest position and rotation, the centre, [maxRadius],
    [returnSpeed] and the index stay as they are. *)
Theorem rest_pose_is_captured_once (frames : list StickInput) (i : StickInput)
    (s : Stick) :
  let s1 := update_stick (frame_delta i) (wasGrabbed i) (justGrabbed i)
              (owner i) s in
  let s' := stick_run frames s1 in
  (forall mesh, object3D s = Some mesh -> initialPosition s = None ->
     initialPosition s1 = Some (worldPosition mesh)
     /\ initialRotation s1 = Some (rotation mesh)
     /\ centerX (analog s1) = vx (worldPosition mesh)
     /\ centerY (analog s1) = vy (worldPosition mesh)
     /\ centerZ (analog s1) = vz (worldPosition mesh))
  /\ (forall c, initialPosition s1 = Some c ->
        initialPosition s' = Some c
        /\ initialRotation s' = initialRotation s1
        /\ centerX (analog s') = centerX (analog s1)
        /\ centerY (analog s') = centerY (analog s1)
        /\ centerZ (analog s') = centerZ (analog s1))
  /\ index s' = index s
  /\ maxRadius (analog s') = maxRadius (analog s)
  /\ returnSpeed (analog s') = returnSpeed (analog s).
Proof.
  cbv zeta. split; [|split].
  - intros mesh Hm Hc. apply update_stick_rest_captured; assumption.
  - generalize (update_stick (frame_delta i) (wasGrabbed i) (justGrabbed i)
                  (owner i) s) as s1.
    induction frames as [|k frames IH]; intros s1 c Hc; cbn [stick_run].
    + auto.
    + destruct (update_stick_rest_kept (frame_delta k) (wasGrabbed k)
                  (justGrabbed k) (owner k) s1 c Hc)
        as (H1 & H2 & H3 & H4 & H5).
      destruct (IH _ c H1) as (G1 & G2 & G3 & G4 & G5).
      repeat split; congruence.
  - destruct (update_stick_config (frame_delta i) (wasGrabbed i)
                (justGrabbed i) (owner i) s) as (E1 & E2 & E3).
    rewrite <- E1, <- E2, <- E3.
    generalize (update_stick (frame_delta i) (wasGrabbed i) (justGrabbed i)
                  (owner i) s) as s1.
    induction frames as [|k frames IH]; intros s1; cbn [stick_run].
    + auto.
    + destruct (update_stick_config (frame_delta k) (wasGrabbed k)
                  (justGrabbed k) (owner k) s1) as (F1 & F2 & F3).
      destruct (IH (update_stick (frame_delta k) (wasGrabbed k)
                      (justGrabbed k) (owner k) s1)) as (G1 & G2 & G3).
      repeat split; congruence.
Qed.

(** ** Letting go *)

(** X13.  Letting go does not make the axis jump.  When a stick is released
    after a frame that tracked the hand, the first frame of its return
    publishes the axis and the magnitude of that last held frame, provided
    the stick was more than a millimetre from rest; only the mesh starts to
    move back. *)
Theorem release_keeps_axis (dt : R) (s : Stick) (mesh : Mesh)
    (initialPos : Vector3) (initialRot : Euler)
    (handPosition grabHandPos : Vector3) :
  0 < maxRadius (analog s) ->
  initialPosition s = Some initialPos ->
  initialRotation s = Some initialRot ->
  let held := track_hand s mesh initialPos initialRot handPosition grabHandPos in
  0.001 < stickMagnitude (analog held) * maxRadius (analog s) ->
  let released := update_stick dt false false None held in
  stickX (analog released) = stickX (analog held)
  /\ stickY (analog released) = stickY (analog held)
  /\ stickMagnitude (analog released) = stickMagnitude (analog held).
Proof.
  intros Hmax Hc Hr held Hfar released.
  destruct (held_axis_geometry s mesh initialPos initialRot handPosition
              grabHandPos Hmax)
    as (Hlen & HM0 & HM1 & mesh' & Ho & Hpos & Hd).
  fold held in Hlen, HM0, HM1, Ho, Hd, Hpos.
  assert (Hc' : initialPosition held = Some initialPos) by exact Hc.
  assert (Hr' : initialRotation held = Some initialRot) by exact Hr.
  assert (HR : maxRadius (analog held) = maxRadius (analog s)) by reflexivity.
  assert (Hfar' : 0.001 < distanceTo (worldPosition mesh') initialPos)
    by (rewrite Hd; exact Hfar).
  destruct (release_step_publishes dt held mesh' initialPos initialRot
              Ho Hc' Hr' Hfar') as (EM & EX & EY).
  fold released in EM, EX, EY. cbv zeta in EM, EX, EY.
  rewrite HR in EM, EX, EY. rewrite Hpos in EM, EX, EY.
  cbn [vx vy vz] in EM, EX, EY.
  set (X := stickX (analog held)) in *.
  set (Y := stickY (analog held)) in *.
  set (M := stickMagnitude (analog held)) in *.
  set (R0 := maxRadius (analog s)) in *.
  replace (vx initialPos + X * R0 - vx initialPos) with (X * R0) in * by ring.
  replace (vz initialPos + Y * R0 - vz initialPos) with (Y * R0) in * by ring.
  assert (Hsq : sqrt (X * R0 * (X * R0) + Y * R0 * (Y * R0)) = M * R0).
  { replace (X * R0 * (X * R0) + Y * R0 * (Y * R0))
      with ((M * R0) * (M * R0)).
    - apply sqrt_square. nra.
    - replace ((M * R0) * (M * R0)) with (M * M * (R0 * R0)) by ring.
      rewrite <- Hlen. ring. }
  rewrite Hsq in EM, EX, EY.
  assert (Hq : M * R0 / R0 = M) by (field; lra).
  rewrite Hq in EM, EX, EY.
  assert (Hmin : Rmin M 1 = M) by (apply Rmin_left; lra).
  rewrite Hmin in EM, EX, EY.
  assert (HMpos : 0 < M) by nra.
  destruct (Rlt_dec 0 M); [|lra].
  rewrite EM, EX, EY. repeat split; field; lra.
Qed.

Lemma release_keeps_axis_witness :
  let held := track_hand restingStick
                {| worldPosition := origin; rotation := noRotation |}
                origin noRotation {| vx := 0.05; vy := 0; vz := 0 |} origin in
  let released := update_stick 0.016 false false None held in
  stickX (analog released) = stickX (analog held)
  /\ stickY (analog released) = stickY (analog held)
  /\ stickMagnitude (analog released) = stickMagnitude (analog held).
Proof.
  apply (release_keeps_axis 0.016 restingStick
           {| worldPosition := origin; rotation := noRotation |}
           origin noRotation {| vx := 0.05; vy := 0; vz := 0 |} origin).
  - cbn. lra.
  - reflexivity.
  - reflexivity.
  - destruct (track_hand_axis restingStick
                {| worldPosition := origin; rotation := noRotation |}
                origin noRotation {| vx := 0.05; vy := 0; vz := 0 |} origin)
      as (_ & _ & HM & _); [cbn; lra|].
    cbv zeta in HM. cbn [vx vz origin] in HM.
    rewrite pulled_distance in HM.
    change (maxRadius (analog restingStick)) with 0.03 in HM |- *.
    rewrite (Rmax_left 0.05 0.03) in HM by lra. lra.
Defined.

End AnalogStickFacts.

(* ===================================================================== *)
(** * Properties of NESSystem: the controller *)
(* ===================================================================== *)

Module NESInputFacts.
Import XR AnalogStickSystem NESInput AnalogStickFacts.
Local Open Scope R_scope.

(** ** The d-pad *)

Lemma Rltb_true (a b : R) : Rltb a b = true <-> a < b.
Proof. unfold Rltb. destruct (Rlt_dec a b); split; intros; try lra; congruence. Qed.

Lemma Rltb_false (a b : R) : Rltb a b = false <-> b <= a.
Proof. unfold Rltb. destruct (Rlt_dec a b); split; intros; try lra; congruence. Qed.

Lemma all_buttons_complete (b : ControllerButton) : b ∈ all_buttons.
Proof. destruct b; unfold all_buttons; repeat constructor. Qed.

(** Every call of [updateNESInputs] sends each of the eight buttons once,
    down or up as the panel has it. *)
Lemma updateNESInputs_sends (buttonEntityMap : gmap string nat)
    (buttons : list ButtonSystem.Entity) (stickEntity : option AnalogStick) :
  updateNESInputs true buttonEntityMap buttons stickEntity
  = map (fun b => send (wired buttonEntityMap buttons stickEntity b) b)
      all_buttons.
Proof. reflexivity. Qed.

Lemma down_sent (w : ControllerButton -> bool) (l : list ControllerButton)
    (b : ControllerButton) :
  buttonDown b ∈ map (fun b' => send (w b') b') l <-> b ∈ l /\ w b = true.
Proof.
  rewrite list_elem_of_fmap. split.
  - intros (b' & E & Hin). unfold send in E.
    destruct (w b') eqn:Hw; inversion E; subst. auto.
  - intros [Hin Hw]. exists b. unfold send. rewrite Hw. auto.
Qed.

Lemma up_sent (w : ControllerButton -> bool) (l : list ControllerButton)
    (b : ControllerButton) :
  buttonUp b ∈ map (fun b' => send (w b') b') l <-> b ∈ l /\ w b = false.
Proof.
  rewrite list_elem_of_fmap. split.
  - intros (b' & E & Hin). unfold send in E.
    destruct (w b') eqn:Hw; inversion E; subst. auto.
  - intros [Hin Hw]. exists b. unfold send. rewrite Hw. auto.
Qed.

Lemma after_calls_sends (w : ControllerButton -> bool)
    (l : list ControllerButton) :
  forall (held : ControllerButton -> bool) (b : ControllerButton),
    after_calls held (map (fun b' => send (w b') b') l) b
    = if bool_decide (b ∈ l) then w b else held b.
Proof.
  unfold after_calls.
  induction l as [|a l IH]; intros held b; cbn [map fold_left].
  - rewrite bool_decide_eq_false_2; [reflexivity|]. apply not_elem_of_nil.
  - rewrite IH. destruct (decide (b ∈ l)) as [Hin|Hout].
    + rewrite !bool_decide_eq_true_2; [reflexivity| |exact Hin].
      apply elem_of_cons. now right.
    + rewrite (bool_decide_eq_false_2 _ Hout).
      unfold after_call, send.
      destruct (decide (b = a)) as [->|Hne].
      * rewrite bool_decide_eq_true_2 by (apply elem_of_cons; now left).
        destruct (w a); rewrite bool_decide_eq_true_2; reflexivity.
      * rewrite (bool_decide_eq_false_2 (b ∈ a :: l)).
        -- destruct (w a); rewrite bool_decide_eq_false_2; auto.
        -- intros H. apply elem_of_cons in H as [?|?]; contradiction.
Qed.

(** X14.  The d-pad never holds opposite directions, and holds none when the
    stick is unknown or its magnitude is at most 0.3.  Whatever the stick
    publishes, one update of the inputs does not send [buttonDown] for both
    UP and DOWN, nor for both LEFT and RIGHT; with no stick entity, or a
    magnitude of 0.3 or less, it sends [buttonUp] for all four. *)
Theorem dpad_never_opposite (nes : bool) (buttonEntityMap : gmap string nat)
    (buttons : list ButtonSystem.Entity) (stickEntity : option AnalogStick) :
  let calls := updateNESInputs nes buttonEntityMap buttons stickEntity in
  ~ (buttonDown BUTTON_UP ∈ calls /\ buttonDown BUTTON_DOWN ∈ calls)
  /\ ~ (buttonDown BUTTON_LEFT ∈ calls /\ buttonDown BUTTON_RIGHT ∈ calls)
  /\ (match stickEntity with
      | None => True
      | Some a => stickMagnitude a <= 0.3
      end ->
      getDpadState stickEntity
      = {| up := false; down := false; left := false; right := false |}
      /\ forall b, b ∈ [BUTTON_UP; BUTTON_DOWN; BUTTON_LEFT; BUTTON_RIGHT] ->
           buttonDown b ∉ calls).
Proof.
  cbv zeta. destruct nes.
  2: { cbn. split; [|split].
       - intros [H _]. inversion H.
       - intros [H _]. inversion H.
       - intros Hc. split.
         + destruct stickEntity as [a|]; [|reflexivity]. cbn.
           apply Rltb_false in Hc. rewrite Hc. reflexivity.
         + intros b _ H. inversion H. }
  rewrite updateNESInputs_sends. split; [|split].
  - rewrite !down_sent. intros [[_ Hu] [_ Hd]]. cbn in Hu, Hd.
    destruct stickEntity as [a|]; cbn in Hu, Hd; [|discriminate].
    apply andb_true_iff in Hu as [_ Hu]. apply andb_true_iff in Hd as [_ Hd].
    apply Rltb_true in Hu, Hd. lra.
  - rewrite !down_sent. intros [[_ Hl] [_ Hr]]. cbn in Hl, Hr.
    destruct stickEntity as [a|]; cbn in Hl, Hr; [|discriminate].
    apply andb_true_iff in Hl as [_ Hl]. apply andb_true_iff in Hr as [_ Hr].
    apply Rltb_true in Hl, Hr. lra.
  - intros Hc.
    assert (E : getDpadState stickEntity
                = {| up := false; down := false; left := false;
                     right := false |}).
    { destruct stickEntity as [a|]; [|reflexivity]. cbn.
      apply Rltb_false in Hc. rewrite Hc. reflexivity. }
    split; [exact E|].
    intros b Hb. rewrite down_sent. intros [_ Hw].
    repeat (apply elem_of_cons in Hb as [->|Hb]);
      try (cbn in Hw; rewrite E in Hw; discriminate).
    inversion Hb.
Qed.

(** X15.  One update of the inputs overwrites the whole controller: after its
    calls each of the eight buttons is held exactly when the panel holds
    it (A from [button2], B from [button1], SELECT from [button3], START
    from [button4], the directions from the stick), whatever was held
    before.  Without an emulator no call is made. *)
Theorem inputs_overwrite_controller (buttonEntityMap : gmap string nat)
    (buttons : list ButtonSystem.Entity) (stickEntity : option AnalogStick)
    (held : ControllerButton -> bool) (b : ControllerButton) :
  after_calls held (updateNESInputs true buttonEntityMap buttons stickEntity) b
  = wired buttonEntityMap buttons stickEntity b
  /\ (buttonDown b ∈ updateNESInputs true buttonEntityMap buttons stickEntity
      <-> wired buttonEntityMap buttons stickEntity b = true)
  /\ (buttonUp b ∈ updateNESInputs true buttonEntityMap buttons stickEntity
      <-> wired buttonEntityMap buttons stickEntity b = false)
  /\ length (updateNESInputs true buttonEntityMap buttons stickEntity) = 8%nat
  /\ updateNESInputs false buttonEntityMap buttons stickEntity = [].
Proof.
  rewrite updateNESInputs_sends. split; [|split; [|split; [|split]]].
  - rewrite after_calls_sends.
    rewrite bool_decide_eq_true_2 by apply all_buttons_complete. reflexivity.
  - rewrite down_sent. pose proof (all_buttons_complete b). tauto.
  - rewrite up_sent. pose proof (all_buttons_complete b). tauto.
  - reflexivity.
  - reflexivity.
Qed.

(** ** From the stick to the d-pad *)

(** What a frame publishes for a stick, in one of four shapes: nothing new;
    the values of [track_hand]; the values recomputed from the position of
    a released stick; zeros. *)
Lemma return_to_center_published (dt : R) (s : Stick) (mesh : Mesh) :
  let s' := return_to_center dt s mesh in
  (analog s' = analog s)
  \/ (exists dX dZ,
        let m := Rmin (sqrt (dX * dX + dZ * dZ) / maxRadius (analog s)) 1 in
        stickMagnitude (analog s') = m
        /\ stickX (analog s')
           = (if Rlt_dec 0 m then dX / maxRadius (analog s) else 0)
        /\ stickY (analog s')
           = (if Rlt_dec 0 m then dZ / maxRadius (analog s) else 0))
  \/ (stickX (analog s') = 0 /\ stickY (analog s') = 0
      /\ stickMagnitude (analog s') = 0).
Proof.
  cbv zeta. unfold return_to_center.
  destruct (initialPosition s) as [c|]; [|left; reflexivity].
  destruct (initialRotation s) as [r|]; [|left; reflexivity].
  destruct (Rlt_dec 0.001 (distanceTo (worldPosition mesh) c)).
  - right; left. do 2 eexists. cbn. repeat split; reflexivity.
  - right; right. cbn. repeat split; reflexivity.
Qed.

Lemma update_stick_published (dt : R) (w j : bool) (o : option Hand)
    (s : Stick) :
  let s' := update_stick dt w j o s in
  (stickX (analog s') = stickX (analog s)
   /\ stickY (analog s') = stickY (analog s)
   /\ stickMagnitude (analog s') = stickMagnitude (analog s))
  \/ (exists s3 mesh c r hp g,
        s' = track_hand s3 mesh c r hp g
        /\ maxRadius (analog s3) = maxRadius (analog s))
  \/ (exists dX dZ,
        let m := Rmin (sqrt (dX * dX + dZ * dZ) / maxRadius (analog s)) 1 in
        stickMagnitude (analog s') = m
        /\ stickX (analog s')
           = (if Rlt_dec 0 m then dX / maxRadius (analog s) else 0)
        /\ stickY (analog s')
           = (if Rlt_dec 0 m then dZ / maxRadius (analog s) else 0))
  \/ (stickX (analog s') = 0 /\ stickY (analog s') = 0
      /\ stickMagnitude (analog s') = 0).
Proof.
  cbv zeta. unfold update_stick.
  destruct (object3D s) as [mesh|] eqn:Hm; [|left; repeat split].
  match goal with
  | |- context [match initialPosition s with Some _ => s | None => ?x end] =>
      set (s1 := match initialPosition s with Some _ => s | None => x end)
  end.
  assert (H1 : stickX (analog s1) = stickX (analog s)
               /\ stickY (analog s1) = stickY (analog s)
               /\ stickMagnitude (analog s1) = stickMagnitude (analog s)
               /\ maxRadius (analog s1) = maxRadius (analog s)).
  { subst s1. destruct (initialPosition s); cbn; auto. }
  clearbody s1. destruct H1 as (E1 & E2 & E3 & E4).
  assert (Hret : forall s2, analog s2 = analog s1 ->
            let s' := return_to_center dt s2 mesh in
            (stickX (analog s') = stickX (analog s)
             /\ stickY (analog s') = stickY (analog s)
             /\ stickMagnitude (analog s') = stickMagnitude (analog s))
            \/ (exists s3 mesh c r hp g,
                  s' = track_hand s3 mesh c r hp g
                  /\ maxRadius (analog s3) = maxRadius (analog s))
            \/ (exists dX dZ,
                  let m := Rmin (sqrt (dX * dX + dZ * dZ)
                                 / maxRadius (analog s)) 1 in
                  stickMagnitude (analog s') = m
                  /\ stickX (analog s')
                     = (if Rlt_dec 0 m then dX / maxRadius (analog s) else 0)
                  /\ stickY (analog s')
                     = (if Rlt_dec 0 m then dZ / maxRadius (analog s) else 0))
            \/ (stickX (analog s') = 0 /\ stickY (analog s') = 0
                /\ stickMagnitude (analog s') = 0)).
  { intros s2 Ea. cbv zeta.
    destruct (return_to_center_published dt s2 mesh) as [E|[H|H]].
    - left. rewrite E, Ea. auto.
    - right; right; left. rewrite Ea, E4 in H. exact H.
    - right; right; right. exact H. }
  destruct w.
  - destruct o as [hand|]; [|apply Hret; reflexivity].
    destruct (resolve_hand_position hand) as [hp|]; [|left; cbn; auto].
    destruct j.
    + cbn [grabHandPosition initialPosition initialRotation].
      destruct (initialPosition s1) as [c|]; [|left; cbn; auto].
      destruct (initialRotation s1) as [r|]; [|left; cbn; auto].
      right; left. do 6 eexists. split; [reflexivity|]. cbn. exact E4.
    + cbn [grabHandPosition initialPosition initialRotation].
      destruct (grabHandPosition s1) as [g|]; [|left; cbn; auto].
      destruct (initialPosition s1) as [c|]; [|left; cbn; auto].
      destruct (initialRotation s1) as [r|]; [|left; cbn; auto].
      right; left. do 6 eexists. split; [reflexivity|]. cbn. exact E4.
  - destruct (grabbedHand s1); apply Hret; reflexivity.
Qed.

Lemma Rabs_half (x : R) : 0.5 < Rabs x -> 0.5 < x \/ x < -0.5.
Proof. unfold Rabs. destruct (Rcase_abs x); lra. Qed.

Lemma update_stick_keeps_axis_backed (dt : R) (w j : bool) (o : option Hand)
    (s : Stick) :
  0 < maxRadius (analog s) ->
  axis_backed (analog s) ->
  axis_backed (analog (update_stick dt w j o s)).
Proof.
  intros Hmax Hb.
  destruct (update_stick_published dt w j o s)
    as [(EX & EY & EM)|[(s3 & mesh & c & r & hp & g & -> & ER)
       |[(dX & dZ & EM & EX & EY)|(EX & EY & EM)]]].
  - unfold axis_backed. rewrite EX, EY, EM. exact Hb.
  - rewrite <- ER in Hmax.
    destruct (track_hand_axis s3 mesh c r hp g Hmax)
      as (HX & HY & HM & _). cbv zeta in HX, HY, HM.
    set (dx := vx hp - vx g) in *. set (dz := vz hp - vz g) in *.
    destruct (planar_norm dx dz) as (H0 & Hsq & Hdx & Hdz). cbv zeta in *.
    set (hd := sqrt (dx * dx + dz * dz)) in *.
    assert (Hreach : 0 < Rmax hd (maxRadius (analog s3))).
    { apply Rlt_le_trans with (maxRadius (analog s3));
        [exact Hmax|apply Rmax_r]. }
    set (reach := Rmax hd (maxRadius (analog s3))) in *.
    intros [H|H]; apply Rabs_half in H; nra.
  - cbv zeta in EM, EX, EY.
    destruct (planar_norm dX dZ) as (H0 & Hsq & Hdx & Hdz). cbv zeta in *.
    set (hd := sqrt (dX * dX + dZ * dZ)) in *.
    set (R0 := maxRadius (analog s)) in *.
    assert (Hi : 0 < / R0) by (apply Rinv_0_lt_compat; exact Hmax).
    unfold axis_backed. rewrite EM, EX, EY.
    assert (Hkey : forall d, - hd <= d <= hd -> 0.5 < Rabs (d / R0) ->
                     0.3 < Rmin (hd / R0) 1).
    { intros d Hd H. apply Rabs_half in H.
      assert (0.5 < hd / R0).
      { unfold Rdiv in *. destruct H as [H|H]; nra. }
      apply Rmin_glb_lt; lra. }
    destruct (Rlt_dec 0 (Rmin (hd / R0) 1)).
    + intros [H|H]; [apply (Hkey dX)|apply (Hkey dZ)]; assumption.
    + intros [H|H]; apply Rabs_half in H; lra.
  - unfold axis_backed. rewrite EX, EY, EM.
    intros [H|H]; apply Rabs_half in H; lra.
Qed.

Lemma stick_run_keeps_axis_backed (frames : list StickInput) :
  forall s : Stick,
    0 < maxRadius (analog s) ->
    axis_backed (analog s) ->
    axis_backed (analog (stick_run frames s)).
Proof.
  induction frames as [|i frames IH]; intros s Hmax Hb; cbn [stick_run].
  - exact Hb.
  - apply IH.
    + destruct (update_stick_config (frame_delta i) (wasGrabbed i)
                  (justGrabbed i) (owner i) s) as (_ & E & _).
      rewrite E. exact Hmax.
    + apply update_stick_keeps_axis_backed; assumption.
Qed.

Lemma axis_backed_dpad (a : AnalogStick) :
  axis_backed a ->
  getDpadState (Some a)
  = {| up := Rltb (stickY a) (-0.5); down := Rltb 0.5 (stickY a);
       left := Rltb (stickX a) (-0.5); right := Rltb 0.5 (stickX a) |}.
Proof.
  intros Hb. unfold getDpadState.
  assert (Hy1 : stickY a < -0.5 -> Rltb 0.3 (stickMagnitude a) = true).
  { intros H. apply Rltb_true, Hb. right. unfold Rabs.
    destruct (Rcase_abs (stickY a)); lra. }
  assert (Hy2 : 0.5 < stickY a -> Rltb 0.3 (stickMagnitude a) = true).
  { intros H. apply Rltb_true, Hb. right. unfold Rabs.
    destruct (Rcase_abs (stickY a)); lra. }
  assert (Hx1 : stickX a < -0.5 -> Rltb 0.3 (stickMagnitude a) = true).
  { intros H. apply Rltb_true, Hb. left. unfold Rabs.
    destruct (Rcase_abs (stickX a)); lra. }
  assert (Hx2 : 0.5 < stickX a -> Rltb 0.3 (stickMagnitude a) = true).
  { intros H. apply Rltb_true, Hb. left. unfold Rabs.
    destruct (Rcase_abs (stickX a)); lra. }
  f_equal.
  - destruct (Rltb (stickY a) (-0.5)) eqn:E;
      [apply Rltb_true in E; rewrite (Hy1 E); reflexivity|apply andb_false_r].
  - destruct (Rltb 0.5 (stickY a)) eqn:E;
      [apply Rltb_true in E; rewrite (Hy2 E); reflexivity|apply andb_false_r].
  - destruct (Rltb (stickX a) (-0.5)) eqn:E;
      [apply Rltb_true in E; rewrite (Hx1 E); reflexivity|apply andb_false_r].
  - destruct (Rltb 0.5 (stickX a)) eqn:E;
      [apply Rltb_true in E; rewrite (Hx2 E); reflexivity|apply andb_false_r].
Qed.

(** X16.  The d-pad follows the axis alone.  For a stick with [maxRadius > 0]
    whose published values start out with every deflection beyond one half
    backed by a magnitude above 0.3 (as the zeros of a new stick are), this
    stays so over any sequence of frames, held or released; hence the
    magnitude test of [getDpadState] never decides and each direction is
    reported exactly when the axis value passes one half. *)
Theorem dpad_follows_axis (frames : list StickInput) (s : Stick) :
  0 < maxRadius (analog s) ->
  axis_backed (analog s) ->
  let a := analog (stick_run frames s) in
  axis_backed a
  /\ getDpadState (Some a)
     = {| up := Rltb (stickY a) (-0.5); down := Rltb 0.5 (stickY a);
          left := Rltb (stickX a) (-0.5); right := Rltb 0.5 (stickX a) |}.
Proof.
  intros Hmax Hb. cbv zeta.
  pose proof (stick_run_keeps_axis_backed frames s Hmax Hb) as H.
  split; [exact H|]. apply axis_backed_dpad. exact H.
Qed.

Lemma restingStick_axis_backed : axis_backed (analog StickScenes.restingStick).
Proof. intros [H|H]; apply Rabs_half in H; cbn in H; lra. Qed.

Lemma dpad_follows_axis_witness :
  let a := analog (stick_run
                     [ {| frame_delta := 0.016; wasGrabbed := true;
                          justGrabbed := true;
                          owner := Some (StickScenes.hand_at StickScenes.origin) |};
                       {| frame_delta := 0.016; wasGrabbed := false;
                          justGrabbed := false; owner := None |} ]
                     StickScenes.restingStick) in
  axis_backed a
  /\ getDpadState (Some a)
     = {| up := Rltb (stickY a) (-0.5); down := Rltb 0.5 (stickY a);
          left := Rltb (stickX a) (-0.5); right := Rltb 0.5 (stickX a) |}.
Proof.
  apply (dpad_follows_axis _ StickScenes.restingStick).
  - cbn. lra.
  - exact restingStick_axis_backed.
Defined.

(** X17.  From the hand to the d-pad.  On an attached frame that tracks the hand,
    with [maxRadius > 0], a direction is reported exactly when twice the
    displacement of the hand along it exceeds [reach], the planar length of
    the displacement or [maxRadius] if that is larger: RIGHT and LEFT along
    world X, DOWN and UP along world Z. *)
Theorem hand_move_reaches_dpad (s : Stick) (mesh : Mesh)
    (initialPos : Vector3) (initialRot : Euler)
    (handPosition grabHandPos : Vector3) :
  0 < maxRadius (analog s) ->
  let s' := track_hand s mesh initialPos initialRot handPosition grabHandPos in
  let deltaX := vx handPosition - vx grabHandPos in
  let deltaZ := vz handPosition - vz grabHandPos in
  let reach := Rmax (sqrt (deltaX * deltaX + deltaZ * deltaZ))
                    (maxRadius (analog s)) in
  let d := getDpadState (Some (analog s')) in
  (right d = true <-> reach < 2 * deltaX)
  /\ (left d = true <-> reach < - (2 * deltaX))
  /\ (down d = true <-> reach < 2 * deltaZ)
  /\ (up d = true <-> reach < - (2 * deltaZ)).
Proof.
  intros Hmax. cbv zeta.
  destruct (track_hand_axis s mesh initialPos initialRot handPosition
              grabHandPos Hmax) as (HX & HY & HM & _).
  cbv zeta in HX, HY, HM.
  set (s' := track_hand s mesh initialPos initialRot handPosition grabHandPos)
    in *.
  set (dx := vx handPosition - vx grabHandPos) in *.
  set (dz := vz handPosition - vz grabHandPos) in *.
  destruct (planar_norm dx dz) as (H0 & Hsq & Hdx & Hdz). cbv zeta in *.
  set (hd := sqrt (dx * dx + dz * dz)) in *.
  assert (Hreach : 0 < Rmax hd (maxRadius (analog s))).
  { apply Rlt_le_trans with (maxRadius (analog s)); [exact Hmax|apply Rmax_r]. }
  set (reach := Rmax hd (maxRadius (analog s))) in *.
  unfold getDpadState. cbn [up down left right].
  rewrite !andb_true_iff, !Rltb_true.
  set (X := stickX (analog s')) in *.
  set (Y := stickY (analog s')) in *.
  set (M := stickMagnitude (analog s')) in *.
  repeat split; intros; try nra.
  all: match goal with H : _ /\ _ |- _ => destruct H; nra end.
Qed.

Lemma hand_move_reaches_dpad_witness :
  let s' := track_hand StickScenes.restingStick
              {| worldPosition := StickScenes.origin;
                 rotation := StickScenes.noRotation |}
              StickScenes.origin StickScenes.noRotation
              {| vx := 0.05; vy := 0; vz := 0 |} StickScenes.origin in
  let reach := Rmax (sqrt ((0.05 - 0) * (0.05 - 0) + (0 - 0) * (0 - 0)))
                    (maxRadius (analog StickScenes.restingStick)) in
  let d := getDpadState (Some (analog s')) in
  (right d = true <-> reach < 2 * (0.05 - 0))
  /\ (left d = true <-> reach < - (2 * (0.05 - 0)))
  /\ (down d = true <-> reach < 2 * (0 - 0))
  /\ (up d = true <-> reach < - (2 * (0 - 0))).
Proof.
  apply (hand_move_reaches_dpad StickScenes.restingStick
           {| worldPosition := StickScenes.origin;
              rotation := StickScenes.noRotation |}
           StickScenes.origin StickScenes.noRotation
           {| vx := 0.05; vy := 0; vz := 0 |} StickScenes.origin).
  cbn. lra.
Defined.

(** ** From a fingertip to the emulator *)

Lemma press_or_recover_down (b : ButtonSystem.Button) (y dt : Q)
    (ds : list Q) :
  let state := snd (ButtonSystem.press_or_recover b y dt ds) in
  bool_decide (state = ButtonSystem.pressed)
  || bool_decide (state = ButtonSystem.fully_pressed)
  = negb (bool_decide (ds = [])).
Proof.
  cbv zeta. unfold ButtonSystem.press_or_recover.
  destruct ds as [|d ds'].
  - destruct (ButtonSystem.Qltb y (ButtonSystem.restingY b)); reflexivity.
  - cbv zeta.
    match goal with |- context [if ?c then (_, ButtonSystem.fully_pressed) else _] =>
      destruct c end; reflexivity.
Qed.

Lemma step_index (hasAction : bool) (f : ButtonSystem.Frame)
    (e : ButtonSystem.Entity) :
  ButtonSystem.index (fst (ButtonSystem.step hasAction f e))
  = ButtonSystem.index e.
Proof.
  unfold ButtonSystem.step.
  destruct (ButtonSystem.tracked_hands f) as [hands|]; [|reflexivity].
  destruct (ButtonSystem.object3D e) as [m|] eqn:Hm.
  - destruct (ButtonFacts.update_entity_eq (ButtonSystem.delta f) hands
                hasAction e m Hm) as (y' & curr & _ & ->).
    reflexivity.
  - unfold ButtonSystem.update_entity. rewrite Hm. reflexivity.
Qed.

Lemma entity_at_map (g : ButtonSystem.Entity -> ButtonSystem.Entity)
    (es : list ButtonSystem.Entity) (idx : nat) :
  (forall e, ButtonSystem.index (g e) = ButtonSystem.index e) ->
  entity_at (map g es) idx = g <$> entity_at es idx.
Proof.
  intros Hg. unfold entity_at.
  induction es as [|e es IH]; [reflexivity|].
  cbn. rewrite Hg. destruct (bool_decide (ButtonSystem.index e = idx)).
  - reflexivity.
  - exact IH.
Qed.

(** X18.  From a fingertip to the emulator.  On a frame that reaches the buttons,
    for each of the four panel buttons that is wired to an entity with an
    object, the inputs sent to the emulator right after [ButtonSystem] has
    run hold the corresponding controller button down exactly when some
    fingertip was counted on that button on this frame: inside the expanded
    box and less than 0.0016 above the surface, or below it. *)
Theorem fingertip_reaches_emulator (buttonActions : nat -> bool)
    (f : ButtonSystem.Frame) (es : list ButtonSystem.Entity)
    (hands : list ButtonSystem.Hand) (buttonEntityMap : gmap string nat)
    (stickEntity : option AnalogStick) (buttonName : string)
    (b : ControllerButton) (idx : nat) (e : ButtonSystem.Entity)
    (m : ButtonSystem.Object3D) :
  ButtonSystem.tracked_hands f = Some hands ->
  (buttonName, b) ∈ [("button2", BUTTON_A); ("button1", BUTTON_B);
                     ("button3", BUTTON_SELECT); ("button4", BUTTON_START)] ->
  buttonEntityMap !! buttonName = Some idx ->
  entity_at es idx = Some e ->
  ButtonSystem.object3D e = Some m ->
  let es' := fst (ButtonSystem.update buttonActions f es) in
  let calls := updateNESInputs true buttonEntityMap es' stickEntity in
  (buttonDown b ∈ calls <->
   ButtonSystem.pressingDistances (ButtonSystem.button e) m idx hands <> [])
  /\ (buttonUp b ∈ calls <->
      ButtonSystem.pressingDistances (ButtonSystem.button e) m idx hands = []).
Proof.
  intros Hf Hwire Hmap Hent Hm. cbv zeta.
  assert (Hidx : ButtonSystem.index e = idx).
  { unfold entity_at in Hent. apply find_some in Hent as [_ H].
    apply bool_decide_eq_true in H. exact H. }
  assert (Hdown : button_down buttonEntityMap
                    (fst (ButtonSystem.update buttonActions f es)) buttonName
                  = negb (bool_decide
                            (ButtonSystem.pressingDistances
                               (ButtonSystem.button e) m idx hands = []))).
  { unfold button_down. rewrite Hmap, ButtonFacts.update_pointwise.
    rewrite (entity_at_map
               (fun e => fst (ButtonSystem.step
                                (buttonActions (ButtonSystem.index e)) f e)))
      by (intros e0; apply step_index).
    rewrite Hent. cbn [fmap option_fmap option_map].
    unfold NESSystem.getButtonState, ButtonSystem.step. rewrite Hf.
    destruct (ButtonFacts.update_entity_eq (ButtonSystem.delta f) hands
                (buttonActions (ButtonSystem.index e)) e m Hm)
      as (y' & curr & Hp & ->).
    cbv zeta in Hp. cbn.
    rewrite <- Hidx.
    match type of Hp with
    | ButtonSystem.press_or_recover ?b1 ?y ?dt ?ds = _ =>
        pose proof (press_or_recover_down b1 y dt ds) as Hd
    end.
    cbv zeta in Hd. rewrite Hp in Hd. exact Hd. }
  assert (Hw : wired buttonEntityMap
                 (fst (ButtonSystem.update buttonActions f es)) stickEntity b
               = negb (bool_decide
                         (ButtonSystem.pressingDistances
                            (ButtonSystem.button e) m idx hands = []))).
  { rewrite <- Hdown.
    repeat (apply elem_of_cons in Hwire as [Hwire|Hwire];
            [inversion Hwire; subst; reflexivity|]).
    inversion Hwire. }
  rewrite updateNESInputs_sends, down_sent, up_sent, Hw.
  pose proof (all_buttons_complete b) as Hall.
  destruct (decide (ButtonSystem.pressingDistances (ButtonSystem.button e) m
                      idx hands = [])) as [E|E].
  - rewrite (bool_decide_eq_true_2 _ E). cbn. intuition congruence.
  - rewrite (bool_decide_eq_false_2 _ E). cbn. intuition congruence.
Qed.

Lemma fingertip_reaches_emulator_witness :
  let es' := fst (ButtonSystem.update (fun _ => true) Scenes.touch_surface
                    [Scenes.panelButton]) in
  let calls := updateNESInputs true {[ "button2" := 0%nat ]} es' None in
  (buttonDown BUTTON_A ∈ calls <->
   ButtonSystem.pressingDistances (ButtonSystem.button Scenes.panelButton)
     {| ButtonSystem.position_y := 0; ButtonSystem.geometryTopY := None |}
     0%nat [Scenes.fingertip_at (5 # 100)] <> [])
  /\ (buttonUp BUTTON_A ∈ calls <->
      ButtonSystem.pressingDistances (ButtonSystem.button Scenes.panelButton)
        {| ButtonSystem.position_y := 0; ButtonSystem.geometryTopY := None |}
        0%nat [Scenes.fingertip_at (5 # 100)] = []).
Proof.
  apply (fingertip_reaches_emulator (fun _ => true) Scenes.touch_surface
           [Scenes.panelButton] [Scenes.fingertip_at (5 # 100)]
           {[ "button2" := 0%nat ]} None "button2" BUTTON_A 0%nat
           Scenes.panelButton
           {| ButtonSystem.position_y := 0; ButtonSystem.geometryTopY := None |}).
  - reflexivity.
  - apply elem_of_cons. left. reflexivity.
  - reflexivity.
  - reflexivity.
  - reflexivity.
Defined.

End NESInputFacts.

(* ===================================================================== *)
(** * Properties of NESSystem: audio *)
(* ===================================================================== *)

Module NESAudioFacts.
Import NESAudio.

(** ** The audio buffer *)

Lemma copy_all {A : Type} (l : list A) :
  map (fun i => l !! i) (seq 0 (length l)) = Some <$> l.
Proof.
  apply list_eq. intros i.
  rewrite list_lookup_fmap.
  destruct (decide (i < length l)%nat) as [Hlt|Hge].
  - change (map (fun i => l !! i) (seq 0 (length l)))
      with ((fun i => l !! i) <$> seq 0 (length l)).
    rewrite list_lookup_fmap, lookup_seq_lt by exact Hlt. cbn.
    destruct (lookup_lt_is_Some_2 l i Hlt) as [x Hx]. rewrite Hx. reflexivity.
  - change (map (fun i => l !! i) (seq 0 (length l)))
      with ((fun i => l !! i) <$> seq 0 (length l)).
    rewrite list_lookup_fmap, lookup_seq_ge by lia.
    rewrite lookup_ge_None_2 by lia. reflexivity.
Qed.

(** One sample, for a buffer in order. *)
Lemma handleAudioSample_spec (ctx : option AudioContextState) (l r : Q)
    (a : Audio) :
  buffered a ->
  let res := handleAudioSample ctx l r a in
  if muted ctx then res = (a, None)
  else if Nat.eqb (S (audioBufferSize a)) AUDIO_BUFFER_TARGET then
    res = (emptyAudio,
           Some {| leftChannel := Some <$> (audioBuffer_left a ++ [l]);
                   rightChannel := Some <$> (audioBuffer_right a ++ [r]) |})
  else
    res = ({| audioBuffer_left := audioBuffer_left a ++ [l];
              audioBuffer_right := audioBuffer_right a ++ [r];
              audioBufferSize := S (audioBufferSize a) |}, None)
    /\ (S (audioBufferSize a) < AUDIO_BUFFER_TARGET)%nat.
Proof.
  intros (HL & HR & Hsize). cbv zeta. unfold handleAudioSample.
  destruct (muted ctx) eqn:Hm; [reflexivity|].
  cbn [audioBufferSize].
  destruct (Nat.eqb (S (audioBufferSize a)) AUDIO_BUFFER_TARGET) eqn:Heq.
  - apply Nat.eqb_eq in Heq.
    rewrite (proj2 (Nat.leb_le _ _)) by lia.
    unfold playAudioBuffer. rewrite Hm.
    cbn [audioBufferSize audioBuffer_left audioBuffer_right Nat.eqb].
    f_equal. f_equal.
    rewrite <- (copy_all (audioBuffer_left a ++ [l])).
    rewrite <- (copy_all (audioBuffer_right a ++ [r])).
    rewrite !length_app. cbn [length]. rewrite HL, HR.
    replace (audioBufferSize a + 1)%nat with (S (audioBufferSize a)) by lia.
    reflexivity.
  - apply Nat.eqb_neq in Heq.
    rewrite (proj2 (Nat.leb_gt _ _)) by lia.
    split; [reflexivity|lia].
Qed.

Lemma feed_cons (s : Sample) (rest : list Sample) (a : Audio) :
  feed (s :: rest) a =
  let r1 := handleAudioSample (context s) (sample_left s) (sample_right s) a in
  let r2 := feed rest (fst r1) in
  (fst r2, match snd r1 with Some p => p :: snd r2 | None => snd r2 end).
Proof.
  cbn. destruct (handleAudioSample _ _ _ a) as [a1 played]. cbn.
  destruct (feed rest a1). reflexivity.
Qed.

Lemma emptyAudio_buffered : buffered emptyAudio.
Proof. repeat split. unfold AUDIO_BUFFER_TARGET. cbn. lia. Qed.

(** X21.  Audio is played in full chunks.  Starting from buffers in order (both
    channel arrays as long as [audioBufferSize], fewer than 4096 samples),
    after any stream of samples the buffers are in order again, and every
    buffer handed to the audio output holds exactly 4096 samples per
    channel, none of them read past the end of an array. *)
Theorem audio_chunks_are_full (samples : list Sample) (a : Audio) :
  buffered a ->
  let r := feed samples a in
  buffered (fst r)
  /\ Forall (fun p =>
               length (leftChannel p) = AUDIO_BUFFER_TARGET
               /\ length (rightChannel p) = AUDIO_BUFFER_TARGET
               /\ Forall is_Some (leftChannel p)
               /\ Forall is_Some (rightChannel p))
       (snd r).
Proof.
  revert a. induction samples as [|s rest IH]; intros a Hb; cbv zeta.
  - cbn. split; [exact Hb|constructor].
  - rewrite feed_cons. cbv zeta. cbn [fst snd].
    pose proof (handleAudioSample_spec (context s) (sample_left s)
                  (sample_right s) a Hb) as Hstep.
    cbv zeta in Hstep. pose proof Hb as (HL & HR & Hsize).
    destruct (muted (context s)).
    + rewrite Hstep. cbn [fst snd]. apply IH. exact Hb.
    + destruct (Nat.eqb (S (audioBufferSize a)) AUDIO_BUFFER_TARGET) eqn:Heq.
      * rewrite Hstep. cbn [fst snd].
        destruct (IH emptyAudio emptyAudio_buffered) as [H1 H2].
        split; [exact H1|]. constructor; [|exact H2].
        apply Nat.eqb_eq in Heq. cbn [leftChannel rightChannel].
        rewrite !length_fmap, !length_app. cbn [length].
        rewrite HL, HR.
        repeat split; try lia;
          apply Forall_fmap, Forall_true; intros x; cbn; eauto.
      * destruct Hstep as [-> Hlt]. cbn [fst snd]. apply IH.
        repeat split; cbn; rewrite ?length_app; cbn; lia.
Qed.

Lemma audio_chunks_are_full_witness :
  let r := feed [ {| context := Some running; sample_left := 1 # 2;
                     sample_right := 1 # 4 |} ] emptyAudio in
  buffered (fst r)
  /\ Forall (fun p =>
               length (leftChannel p) = AUDIO_BUFFER_TARGET
               /\ length (rightChannel p) = AUDIO_BUFFER_TARGET
               /\ Forall is_Some (leftChannel p)
               /\ Forall is_Some (rightChannel p))
       (snd r).
Proof.
  apply (audio_chunks_are_full _ emptyAudio).
  repeat split. unfold AUDIO_BUFFER_TARGET. cbn. lia.
Defined.

(** X22.  No sample is lost.  Starting from buffers in order, the buffers played
    while a stream of samples arrives, followed by what is still buffered,
    are exactly what was buffered before followed by the samples that came
    while the audio context was present and not suspended, in order of
    arrival, left and right alike; the samples that came while it was
    absent or suspended are the only ones dropped. *)
Theorem audio_is_conserved (samples : list Sample) (a : Audio) :
  buffered a ->
  let r := feed samples a in
  concat (leftChannel <$> snd r) ++ (Some <$> audioBuffer_left (fst r))
  = Some <$> (audioBuffer_left a ++ (sample_left <$> heard samples))
  /\ concat (rightChannel <$> snd r) ++ (Some <$> audioBuffer_right (fst r))
     = Some <$> (audioBuffer_right a ++ (sample_right <$> heard samples)).
Proof.
  revert a. induction samples as [|s rest IH]; intros a Hb; cbv zeta.
  - cbn. rewrite !app_nil_r. split; reflexivity.
  - rewrite feed_cons. cbv zeta. cbn [fst snd].
    pose proof (handleAudioSample_spec (context s) (sample_left s)
                  (sample_right s) a Hb) as Hstep.
    cbv zeta in Hstep. unfold heard. rewrite filter_cons. fold (heard rest).
    destruct (muted (context s)) eqn:Hm.
    + rewrite Hstep. cbn [fst snd].
      rewrite decide_False by congruence. apply IH. exact Hb.
    + rewrite decide_True by reflexivity. rewrite !fmap_cons.
      destruct (Nat.eqb (S (audioBufferSize a)) AUDIO_BUFFER_TARGET) eqn:Heq.
      * rewrite Hstep. cbn [fst snd].
        destruct (IH emptyAudio emptyAudio_buffered) as [H1 H2].
        cbn [audioBuffer_left audioBuffer_right emptyAudio app] in H1, H2.
        rewrite !fmap_cons. cbn [concat leftChannel rightChannel].
        rewrite <- !app_assoc, H1, H2, !fmap_app. cbn.
        rewrite <- !app_assoc. split; reflexivity.
      * destruct Hstep as [-> Hlt]. cbn [fst snd].
        assert (Hb1 : buffered
                  {| audioBuffer_left := audioBuffer_left a ++ [sample_left s];
                     audioBuffer_right := audioBuffer_right a ++ [sample_right s];
                     audioBufferSize := S (audioBufferSize a) |}).
        { destruct Hb as (HL & HR & _).
          repeat split; cbn; rewrite ?length_app; cbn; lia. }
        destruct (IH _ Hb1) as [H1 H2].
        cbn [audioBuffer_left audioBuffer_right] in H1, H2.
        rewrite H1, H2, <- !app_assoc. split; reflexivity.
Qed.

Lemma audio_is_conserved_witness :
  let samples := [ {| context := Some running; sample_left := 1 # 2;
                      sample_right := 1 # 4 |};
                   {| context := Some suspended; sample_left := 1 # 3;
                      sample_right := 1 # 5 |} ] in
  let r := feed samples emptyAudio in
  concat (leftChannel <$> snd r) ++ (Some <$> audioBuffer_left (fst r))
  = Some <$> (audioBuffer_left emptyAudio ++ (sample_left <$> heard samples))
  /\ concat (rightChannel <$> snd r) ++ (Some <$> audioBuffer_right (fst r))
     = Some <$> (audioBuffer_right emptyAudio
                 ++ (sample_right <$> heard samples)).
Proof.
  apply (audio_is_conserved _ emptyAudio).
  repeat split. unfold AUDIO_BUFFER_TARGET. cbn. lia.
Defined.

End NESAudioFacts.

(* ===================================================================== *)
(** * Properties of NESSystem: video *)
(* ===================================================================== *)

Module NESVideoFacts.
Import NESVideo.
Local Open Scope Z_scope.

(** ** The pixels of a frame *)

Lemma ToInt32_mod (v : Z) : ToInt32 v mod 2 ^ 24 = v mod 2 ^ 24.
Proof.
  unfold ToInt32.
  pose proof (Z.div_mod (v + 2 ^ 31) (2 ^ 32)) as H.
  replace ((v + 2 ^ 31) mod 2 ^ 32 - 2 ^ 31)
    with (v + (- (256 * ((v + 2 ^ 31) / 2 ^ 32))) * 2 ^ 24) by lia.
  apply Z.mod_add. lia.
Qed.

Lemma land_255 (a : Z) : Z.land a 255 = a mod 256.
Proof. change 255 with (Z.ones 8). rewrite Z.land_ones by lia. reflexivity. Qed.

(** X23.  The three colour bytes of a pixel.  Each of [r], [g], [b] lies in
    [[0, 255]], and together they are the low 24 bits of the frame buffer
    entry: [r * 65536 + g * 256 + b = rgb mod 2^24], whatever lies above
    bit 23. *)
Theorem pixel_is_low_24_bits (rgb : Z) :
  0 <= red rgb <= 255
  /\ 0 <= green rgb <= 255
  /\ 0 <= blue rgb <= 255
  /\ red rgb * 65536 + green rgb * 256 + blue rgb = rgb mod 2 ^ 24.
Proof.
  unfold red, green, blue. rewrite !land_255, !Z.shiftr_div_pow2 by lia.
  rewrite <- (ToInt32_mod rgb). set (t := ToInt32 rgb).
  change (2 ^ 16) with 65536. change (2 ^ 8) with 256.
  change (2 ^ 24) with 16777216.
  pose proof (Z.mod_pos_bound (t / 65536) 256).
  pose proof (Z.mod_pos_bound (t / 256) 256).
  pose proof (Z.mod_pos_bound t 256).
  repeat split; try lia.
  assert (E1 : t mod 16777216 = t mod 65536 + 65536 * ((t / 65536) mod 256)).
  { change 16777216 with (65536 * 256). apply Z.rem_mul_r; lia. }
  assert (E2 : t mod 65536 = t mod 256 + 256 * ((t / 256) mod 256)).
  { change 65536 with (256 * 256) at 1. apply Z.rem_mul_r; lia. }
  lia.
Qed.

Local Close Scope Z_scope.

Lemma put_pixel_length (fb data : list Z) (y x : nat) :
  length (put_pixel fb data y x) = length data.
Proof. unfold put_pixel. rewrite !length_insert. reflexivity. Qed.

(** One pixel written: the four bytes at its mirrored place, every other
    byte as before. *)
Lemma put_pixel_lookup (fb data : list Z) (y x : nat) (i : nat) :
  let dst := ((y * 256 + (255 - x)) * 4)%nat in
  let rgb := nth (y * 256 + x) fb 0%Z in
  (dst + 3 < length data)%nat ->
  put_pixel fb data y x !! i =
  if bool_decide (i = dst) then Some (red rgb)
  else if bool_decide (i = (dst + 1)%nat) then Some (green rgb)
  else if bool_decide (i = (dst + 2)%nat) then Some (blue rgb)
  else if bool_decide (i = (dst + 3)%nat) then Some 255%Z
  else data !! i.
Proof.
  cbv zeta. intros Hlen. unfold put_pixel.
  set (dst := ((y * 256 + (255 - x)) * 4)%nat) in *.
  repeat case_bool_decide; subst.
  - rewrite !list_lookup_insert_ne by lia.
    apply list_lookup_insert_eq. lia.
  - rewrite !list_lookup_insert_ne by lia.
    apply list_lookup_insert_eq. rewrite length_insert. lia.
  - rewrite !list_lookup_insert_ne by lia.
    apply list_lookup_insert_eq. rewrite !length_insert. lia.
  - apply list_lookup_insert_eq. rewrite !length_insert. lia.
  - rewrite !list_lookup_insert_ne by lia. reflexivity.
Qed.

Lemma row_length (fb : list Z) (y : nat) (xs : list nat) :
  forall data, length (row fb y xs data) = length data.
Proof.
  unfold row. induction xs as [|x xs IH]; intros data; cbn; [reflexivity|].
  rewrite IH. apply put_pixel_length.
Qed.

(** One row of the loop: a byte is written exactly when it belongs to this
    row and its mirrored column has been visited. *)
Lemma row_lookup (fb : list Z) (y' : nat) (xs : list nat) :
  forall (data : list Z) (x y c : nat),
    Forall (fun x' => x' < 256) xs ->
    y' < 240 -> y < 240 -> x < 256 -> c < 4 ->
    length data = 256 * 240 * 4 ->
    row fb y' xs data !! ((y * 256 + x) * 4 + c) =
    if bool_decide (y' = y /\ (255 - x) ∈ xs)
    then Some (channel c (nth (y * 256 + (255 - x)) fb 0%Z))
    else data !! ((y * 256 + x) * 4 + c).
Proof.
  induction xs as [|x1 xs IH]; intros data x y c Hxs Hy' Hy Hx Hc Hlen.
  - cbn. rewrite bool_decide_eq_false_2; [reflexivity|].
    intros [_ H]. inversion H.
  - inversion Hxs as [|? ? Hx1 Hrest]; subst.
    change (row fb y' (x1 :: xs) data)
      with (row fb y' xs (put_pixel fb data y' x1)).
    rewrite (IH _ x y c Hrest Hy' Hy Hx Hc)
      by (rewrite put_pixel_length; exact Hlen).
    destruct (decide (y' = y /\ (255 - x) ∈ xs)) as [Hin|Hout].
    + rewrite !bool_decide_eq_true_2; [reflexivity| |exact Hin].
      destruct Hin as [-> Hin]. split; [reflexivity|].
      apply elem_of_cons. now right.
    + rewrite (bool_decide_eq_false_2 _ Hout).
      rewrite put_pixel_lookup by lia.
      destruct (decide (y' = y /\ x1 = 255 - x)) as [[-> ->]|Hne].
      * rewrite (bool_decide_eq_true_2 (y = y /\ _))
          by (split; [reflexivity|apply elem_of_cons; now left]).
        replace (255 - (255 - x)) with x by lia.
        destruct c as [|[|[|[|c]]]]; try lia;
          repeat case_bool_decide; try lia; reflexivity.
      * rewrite (bool_decide_eq_false_2 (y' = y /\ _)).
        -- repeat case_bool_decide; try reflexivity; exfalso; lia.
        -- intros [-> H]. apply elem_of_cons in H as [H|H].
           ++ apply Hne. split; [reflexivity|lia].
           ++ apply Hout. split; [reflexivity|exact H].
Qed.

Lemma frame_lookup (fb : list Z) (ys : list nat) :
  forall (data : list Z) (x y c : nat),
    Forall (fun y' => y' < 240) ys ->
    y < 240 -> x < 256 -> c < 4 ->
    length data = 256 * 240 * 4 ->
    fold_left (fun data y' => row fb y' (seq 0 256) data) ys data
      !! ((y * 256 + x) * 4 + c) =
    if bool_decide (y ∈ ys)
    then Some (channel c (nth (y * 256 + (255 - x)) fb 0%Z))
    else data !! ((y * 256 + x) * 4 + c).
Proof.
  assert (Hcols : Forall (fun x' => x' < 256) (seq 0 256)).
  { apply Forall_forall. intros x' H. apply elem_of_seq in H. lia. }
  induction ys as [|y1 ys IH]; intros data x y c Hys Hy Hx Hc Hlen.
  - cbn. rewrite bool_decide_eq_false_2; [reflexivity|]. apply not_elem_of_nil.
  - inversion Hys as [|? ? Hy1 Hrest]; subst. cbn [fold_left].
    rewrite (IH _ x y c Hrest Hy Hx Hc) by (rewrite row_length; exact Hlen).
    destruct (decide (y ∈ ys)) as [Hin|Hout].
    + rewrite !bool_decide_eq_true_2; [reflexivity| |exact Hin].
      apply elem_of_cons. now right.
    + rewrite (bool_decide_eq_false_2 _ Hout).
      rewrite (row_lookup fb y1 (seq 0 256) data x y c Hcols Hy1 Hy Hx Hc Hlen).
      destruct (decide (y1 = y)) as [->|Hne].
      * rewrite !bool_decide_eq_true_2; [reflexivity| |].
        -- apply elem_of_cons. now left.
        -- split; [reflexivity|]. apply elem_of_seq. lia.
      * rewrite !bool_decide_eq_false_2; [reflexivity| |].
        -- intros H. apply elem_of_cons in H as [H|H]; [congruence|].
           contradiction.
        -- intros [H _]. contradiction.
Qed.

Lemma renderFrame_length (fb : list Z) :
  length (renderFrame fb) = 256 * 240 * 4.
Proof.
  unfold renderFrame.
  assert (H : forall ys data,
            length (fold_left (fun data y => row fb y (seq 0 256) data) ys data)
            = length data).
  { induction ys as [|y ys IH]; intros data; cbn [fold_left]; [reflexivity|].
    rewrite IH. apply row_length. }
  rewrite H. unfold createImageData. apply repeat_length.
Qed.


Lemma renderFrame_lookup (fb : list Z) (x y c : nat) :
  x < 256 -> y < 240 -> c < 4 ->
  renderFrame fb !! ((y * 256 + x) * 4 + c)
  = Some (channel c (nth (y * 256 + (255 - x)) fb 0%Z)).
Proof.
  intros Hx Hy Hc. unfold renderFrame.
  rewrite frame_lookup; try assumption.
  - rewrite bool_decide_eq_true_2; [reflexivity|]. apply elem_of_seq. lia.
  - apply Forall_forall. intros y' H. apply elem_of_seq in H. lia.
  - apply repeat_length.
Qed.

(** X24.  The picture is the frame mirrored left to right.  In the image put on
    the canvas, the pixel at column [x] of row [y] holds the red, green and
    blue bytes of the frame buffer entry at column [255 - x] of the same
    row, and is opaque; the image has [256 * 240 * 4] bytes.  A frame buffer
    that is too short reads as black there. *)
Theorem frame_is_mirrored (frameBuffer : list Z) (x y : nat) :
  x < 256 -> y < 240 ->
  let rgb := nth (y * 256 + (255 - x)) frameBuffer 0%Z in
  pixel_at (renderFrame frameBuffer) x y
  = [Some (red rgb); Some (green rgb); Some (blue rgb); Some 255%Z]
  /\ length (renderFrame frameBuffer) = 256 * 240 * 4.
Proof.
  intros Hx Hy. cbv zeta. split; [|apply renderFrame_length].
  unfold pixel_at.
  pose proof (renderFrame_lookup frameBuffer x y 0 Hx Hy ltac:(lia)) as H0.
  rewrite Nat.add_0_r in H0.
  rewrite H0.
  rewrite (renderFrame_lookup frameBuffer x y 1 Hx Hy) by lia.
  rewrite (renderFrame_lookup frameBuffer x y 2 Hx Hy) by lia.
  rewrite (renderFrame_lookup frameBuffer x y 3 Hx Hy) by lia.
  reflexivity.
Qed.

Lemma frame_is_mirrored_witness :
  let rgb := nth (2 * 256 + (255 - 3)) [16711680%Z] 0%Z in
  pixel_at (renderFrame [16711680%Z]) 3 2
  = [Some (red rgb); Some (green rgb); Some (blue rgb); Some 255%Z]
  /\ length (renderFrame [16711680%Z]) = 256 * 240 * 4.
Proof.
  refine (frame_is_mirrored [16711680%Z] 3 2 _ _); lia.
Defined.

End NESVideoFacts.

(* ===================================================================== *)
(** * Properties of NESSystem: the screen *)
(* ===================================================================== *)

Module NESScreenFacts.
Import NESScreen.
Local Open Scope R_scope.

(** ** The curve of the screen *)

Lemma curveZ_eq (x y : R) :
  curveZ x y
  = curveAmount
    * (1 - (x / (width / 2) * (x / (width / 2))
            + y / (height / 2) * (y / (height / 2)))).
Proof.
  unfold curveZ. cbv zeta. rewrite sqrt_sqrt; [reflexivity|]. nra.
Qed.

(** X25.  The curve of the screen.  Over the plane of the screen the depth given
    to a vertex stays between [curveAmount = -0.08] and [0.08]; it is
    [-0.08] at the centre, 0 at the middle of each edge and [0.08] at the
    corners, and it is the same at [(x, y)], [(-x, y)] and [(x, -y)]. *)
Theorem screen_curve_is_bounded (x y : R) :
  - (width / 2) <= x <= width / 2 ->
  - (height / 2) <= y <= height / 2 ->
  curveAmount <= curveZ x y <= - curveAmount
  /\ curveZ (- x) y = curveZ x y
  /\ curveZ x (- y) = curveZ x y
  /\ curveZ 0 0 = curveAmount
  /\ curveZ (width / 2) 0 = 0
  /\ curveZ 0 (height / 2) = 0
  /\ curveZ (width / 2) (height / 2) = - curveAmount.
Proof.
  intros Hx Hy. rewrite !curveZ_eq.
  assert (Hw : 0 < width / 2) by (unfold width; lra).
  assert (Hh : 0 < height / 2) by (unfold height, width, aspectRatio; lra).
  set (w := width / 2) in *. set (h := height / 2) in *.
  assert (Hnx : -1 <= x / w <= 1).
  { split; apply Rmult_le_reg_r with w; try exact Hw;
      unfold Rdiv; rewrite Rmult_assoc, Rinv_l by lra; lra. }
  assert (Hny : -1 <= y / h <= 1).
  { split; apply Rmult_le_reg_r with h; try exact Hh;
      unfold Rdiv; rewrite Rmult_assoc, Rinv_l by lra; lra. }
  assert (Ew : w / w = 1) by (field; lra).
  assert (Eh : h / h = 1) by (field; lra).
  assert (E0w : 0 / w = 0) by (unfold Rdiv; ring).
  assert (E0h : 0 / h = 0) by (unfold Rdiv; ring).
  assert (Enx : - x / w = - (x / w)) by (field; lra).
  assert (Eny : - y / h = - (y / h)) by (field; lra).
  rewrite Ew, Eh, E0w, E0h, Enx, Eny.
  set (nx := x / w) in *. set (ny := y / h) in *.
  unfold curveAmount. repeat split; nra.
Qed.

Lemma screen_curve_is_bounded_witness :
  curveAmount <= curveZ 0.3 0.2 <= - curveAmount
  /\ curveZ (- (0.3)) 0.2 = curveZ 0.3 0.2
  /\ curveZ 0.3 (- (0.2)) = curveZ 0.3 0.2
  /\ curveZ 0 0 = curveAmount
  /\ curveZ (width / 2) 0 = 0
  /\ curveZ 0 (height / 2) = 0
  /\ curveZ (width / 2) (height / 2) = - curveAmount.
Proof.
  apply (screen_curve_is_bounded 0.3 0.2);
    unfold height, width, aspectRatio; lra.
Defined.

End NESScreenFacts.

(* ===================================================================== *)
(** * Properties of NESSystem: finding the controls *)
(* ===================================================================== *)

Module NESWiringFacts.
Import NESWiring.

(** ** Finding the buttons and the stick *)

Lemma find_stick_last (stick : list QueryEntity) (found : option nat) :
  find_stick stick found
  = match List.find (named "stick_mesh") (rev stick) with
    | Some q => Some (index q)
    | None => found
    end.
Proof.
  unfold find_stick. revert found.
  induction stick as [|q stick IH] using rev_ind; intros found;
    [reflexivity|].
  rewrite fold_left_app, rev_app_distr. cbn [fold_left rev app List.find].
  unfold named at 1. rewrite IH.
  destruct (meshName q) as [n|] eqn:Hn.
  - destruct (decide (n = "stick_mesh")) as [->|Hne].
    + rewrite !bool_decide_eq_true_2 by reflexivity. reflexivity.
    + rewrite !bool_decide_eq_false_2 by congruence. reflexivity.
  - rewrite bool_decide_eq_false_2 by discriminate. reflexivity.
Qed.

Lemma first_come_lookup (buttons : list QueryEntity) (name : string) :
  forall m : gmap string nat,
    fold_left
      (fun m entity =>
         match meshName entity with
         | Some n =>
             if is_button_name n then
               match m !! n with
               | Some _ => m
               | None => <[n := index entity]> m
               end
             else m
         | None => m
         end)
      buttons m !! name
    = match m !! name with
      | Some e => Some e
      | None =>
          if is_button_name name
          then index <$> List.find (named name) buttons
          else None
      end.
Proof.
  induction buttons as [|q buttons IH]; intros m; cbn [fold_left List.find].
  - destruct (m !! name); [reflexivity|].
    destruct (is_button_name name); reflexivity.
  - rewrite IH. unfold named at 2.
    destruct (meshName q) as [n|] eqn:Hn.
    2: { rewrite bool_decide_eq_false_2 by discriminate. reflexivity. }
    destruct (decide (n = name)) as [->|Hne].
    + rewrite bool_decide_eq_true_2 by reflexivity.
      destruct (is_button_name name) eqn:Hb.
      * destruct (m !! name) as [e|] eqn:Hm; [rewrite Hm; reflexivity|].
        rewrite lookup_insert_eq. reflexivity.
      * destruct (m !! name); reflexivity.
    + rewrite bool_decide_eq_false_2 by congruence.
      destruct (is_button_name n); [|reflexivity].
      destruct (m !! n); [reflexivity|].
      rewrite lookup_insert_ne by exact Hne. reflexivity.
Qed.

(** X26.  A wiring once found is kept.  The discovery that [update] repeats while
    a button or the stick is missing never replaces an entry of
    [buttonEntityMap] nor a known stick entity.  For a name that has no
    entry yet it records, while the search is on, the first entity of the
    query whose mesh has that name, and only for the four button names;
    for a stick that is not yet known, the last entity whose mesh is named
    [stick_mesh]. *)
Theorem wiring_once_found_is_kept (w : Wiring)
    (buttons stick : list QueryEntity) (name : string) :
  let w' := rediscover w buttons stick in
  (forall e, buttonEntityMap w !! name = Some e ->
     buttonEntityMap w' !! name = Some e)
  /\ (forall e, stickEntity w = Some e -> stickEntity w' = Some e)
  /\ (buttonEntityMap w !! name = None ->
      buttonEntityMap w' !! name
      = if searching w && is_button_name name
        then index <$> List.find (named name) buttons
        else None)
  /\ (stickEntity w = None ->
      stickEntity w'
      = index <$> List.find (named "stick_mesh") (rev stick)).
Proof.
  cbv zeta. unfold rediscover.
  destruct (searching w) eqn:Hs; cbn [buttonEntityMap stickEntity andb].
  - rewrite first_come_lookup. repeat split.
    + intros e ->. reflexivity.
    + intros e ->. reflexivity.
    + intros ->. reflexivity.
    + intros ->. rewrite find_stick_last.
      destruct (List.find (named "stick_mesh") (rev stick)); reflexivity.
  - repeat split; try (intros; assumption).
    intros Hnone. unfold searching in Hs. rewrite Hnone in Hs.
    rewrite bool_decide_eq_false_2 in Hs by (intros [x Hx]; discriminate).
    rewrite orb_true_r in Hs. discriminate.
Qed.

Lemma last_come_lookup (buttons : list QueryEntity) (name : string) :
  forall m : gmap string nat,
    fold_left
      (fun m entity =>
         match meshName entity with
         | Some n => if is_button_name n then <[n := index entity]> m else m
         | None => m
         end)
      buttons m !! name
    = match
        (if is_button_name name
         then List.find (named name) (rev buttons) else None)
      with
      | Some q => Some (index q)
      | None => m !! name
      end.
Proof.
  induction buttons as [|q buttons IH] using rev_ind; intros m.
  - cbn. destruct (is_button_name name); reflexivity.
  - rewrite fold_left_app, rev_app_distr. cbn [fold_left rev app List.find].
    unfold named at 1.
    destruct (meshName q) as [n|] eqn:Hn.
    2: { rewrite bool_decide_eq_false_2 by discriminate. apply IH. }
    destruct (decide (n = name)) as [->|Hne].
    + rewrite bool_decide_eq_true_2 by reflexivity.
      destruct (is_button_name name) eqn:Hb.
      * apply lookup_insert_eq.
      * rewrite IH, ?Hb. reflexivity.
    + rewrite bool_decide_eq_false_2 by congruence.
      destruct (is_button_name n).
      * rewrite lookup_insert_ne by exact Hne. apply IH.
      * apply IH.
Qed.

(** X27.  [init] takes the wiring of the world.  A non-empty
    [world.nesButtonEntities] is copied as it is and the queries are not
    consulted for the buttons; otherwise each of the four button names is
    wired to the last entity of the query whose mesh has that name.
    [world.nesStickEntity] is taken when set, otherwise the last entity
    whose mesh is named [stick_mesh]. *)
Theorem init_takes_the_world_wiring
    (nesButtonEntities : option (gmap string nat)) (nesStickEntity : option nat)
    (buttons stick : list QueryEntity) (name : string) :
  let w := init nesButtonEntities nesStickEntity buttons stick in
  (forall m, nesButtonEntities = Some m -> size m <> 0 ->
     buttonEntityMap w = m)
  /\ (size (default ∅ nesButtonEntities) = 0 ->
      buttonEntityMap w !! name
      = if is_button_name name
        then index <$> List.find (named name) (rev buttons)
        else None)
  /\ stickEntity w
     = match nesStickEntity with
       | Some e => Some e
       | None => index <$> List.find (named "stick_mesh") (rev stick)
       end.
Proof.
  cbv zeta. unfold init. cbn [buttonEntityMap stickEntity].
  split; [|split].
  - intros m -> Hsize. change (default ∅ (Some m)) with m.
    destruct (Nat.eqb (size m) 0) eqn:E; [|reflexivity].
    apply Nat.eqb_eq in E. contradiction.
  - intros Hsize. rewrite Hsize. cbn [Nat.eqb].
    rewrite last_come_lookup.
    apply map_size_empty_inv in Hsize. rewrite Hsize, lookup_empty.
    destruct (is_button_name name); [|reflexivity].
    destruct (List.find (named name) (rev buttons)); reflexivity.
  - destruct nesStickEntity; [reflexivity|].
    rewrite find_stick_last.
    destruct (List.find (named "stick_mesh") (rev stick)); reflexivity.
Qed.

End NESWiringFacts.

(* ===================================================================== *)
(** * Properties of index.ts *)
(* ===================================================================== *)

Module IndexFacts.
Import Index.

(** ** Looking a mesh up by name *)

Lemma find_app {A : Type} (p : A -> bool) (l1 l2 : list A) :
  List.find p (l1 ++ l2)
  = match List.find p l1 with
    | Some x => Some x
    | None => List.find p l2
    end.
Proof.
  induction l1 as [|a l1 IH]; cbn; [reflexivity|].
  destruct (p a); [reflexivity|exact IH].
Qed.

Lemma findMeshByName_find (name0 : string) (object : Object3D) :
  findMeshByName object name0 = List.find (named_mesh name0) (traverse object).
Proof.
  induction object as [m n i cs IH] using Object3D_ind.
  cbn [findMeshByName traverse List.find]. unfold named_mesh at 1.
  cbn [isMesh name].
  destruct (m && bool_decide (n = name0)); [reflexivity|].
  induction IH as [|child rest Hchild _ IHrest]; [reflexivity|].
  rewrite find_app, <- Hchild.
  destruct (findMeshByName child name0); [reflexivity|exact IHrest].
Qed.

(** X28.  [findMeshByName] returns the first mesh of that name.  The result is
    the first node, in the order parents before children and siblings in
    order, that is a mesh with the given name; it is [None] exactly when
    the scene holds no such mesh.  A node that is not a mesh is passed over
    even if its name matches. *)
Theorem findMeshByName_is_first (object : Object3D) (name0 : string) :
  findMeshByName object name0 = List.find (named_mesh name0) (traverse object)
  /\ (forall found, findMeshByName object name0 = Some found ->
        In found (traverse object)
        /\ isMesh found = true /\ name found = name0)
  /\ (findMeshByName object name0 = None <->
      forall o, In o (traverse object) ->
        ~ (isMesh o = true /\ name o = name0)).
Proof.
  rewrite findMeshByName_find. split; [reflexivity|]. split.
  - intros found H. apply find_some in H as [Hin Hp].
    unfold named_mesh in Hp. apply andb_true_iff in Hp as [H1 H2].
    apply bool_decide_eq_true in H2. auto.
  - split.
    + intros H o Hin [H1 H2].
      pose proof (find_none _ _ H o Hin) as Hp.
      unfold named_mesh in Hp. rewrite H1 in Hp. cbn in Hp.
      apply bool_decide_eq_false in Hp. contradiction.
    + intros H.
      destruct (List.find (named_mesh name0) (traverse object)) as [o|] eqn:E;
        [|reflexivity].
      apply find_some in E as [Hin Hp]. exfalso. apply (H o Hin).
      unfold named_mesh in Hp. apply andb_true_iff in Hp as [H1 H2].
      apply bool_decide_eq_true in H2. auto.
Qed.

End IndexFacts.
